(** * SHIP trace tool: a shallow embedding of [ship.py]

    The development follows the layout of the script: the [struct] binary
    layouts and the header scan ([find_ship_header], [read_binary],
    [clear_file]), the text decoder ([read_text]), the send/receive pairing
    ([pair_key], [is_pair], [find_pairs]), the identifier filter
    ([filter_ids]) and one poll of the live tail ([stream_files]); then
    the id conversion ([convert_hex_data]), the mailbox and signal sets
    ([get_local_boxes], [get_all_boxes], [get_all_signals]), the selection
    block of [__main__], the raw text output ([print_ship_entries_text])
    and the signal list ([parse_signals]).

    Python integers are [Z], [bytes] objects are [list byte], [str] objects
    are [string] (characters restricted to Latin-1), sets and dicts are
    stdpp's [gset] and [gmap], and the doubles of [is_pair] are the IEEE
    binary64 numbers of [SpecFloat]. *)

From Stdlib Require Import ZArith List Bool Ascii String Strings.Byte Lia.
From Stdlib Require Import Floats.SpecFloat.
From stdpp Require Import base option list gmap strings sorting.

Import ListNotations.
Local Open Scope string_scope.
Local Open Scope list_scope.
Local Open Scope Z_scope.

(** ** Exceptions and outcomes *)

Inductive exn : Type :=
| StructError        (* struct.error *)
| ValueError
| TypeError
| IndexError
| OverflowError
| KeyError
| FileNotFoundError
| SystemExit (code : Z).

Inductive outcome (A : Type) : Type :=
| Return (a : A)
| Raise (e : exn).
Arguments Return {A} a.
Arguments Raise {A} e.

Definition obind {A B} (m : outcome A) (k : A -> outcome B) : outcome B :=
  match m with
  | Return a => k a
  | Raise e => Raise e
  end.

Fixpoint omap {A B} (f : A -> outcome B) (l : list A) : outcome (list B) :=
  match l with
  | [] => Return []
  | a :: l' => obind (f a) (fun b => obind (omap f l') (fun bs => Return (b :: bs)))
  end.

(** ** Bytes and the [struct] module *)

#[global] Instance byte_eq_dec : EqDecision byte := Byte.byte_eq_dec.

Module Struct.

Inductive endian := LE | BE.

(** The format characters used by the script. *)
Inductive fcode :=
| fH            (* 'H'  unsigned short, 2 bytes *)
| fx            (* 'x'  pad byte, no value *)
| fI            (* 'I'  unsigned int, 4 bytes *)
| fi            (* 'i'  signed int, 4 bytes *)
| fs (n : nat). (* 'ns' bytes of length n *)

Inductive value :=
| VInt (z : Z)
| VBytes (b : list byte).

Definition byte_to_Z (b : byte) : Z := Z.of_N (Byte.to_N b).

Definition width (c : fcode) : nat :=
  match c with
  | fH => 2 | fx => 1 | fI => 4 | fi => 4 | fs n => n
  end%nat.

(** [struct.calcsize] with a byte-order prefix: standard sizes, no
    alignment. *)
Definition calcsize (fmt : list fcode) : nat :=
  fold_right (fun c acc => (width c + acc)%nat) 0%nat fmt.

Fixpoint le_uint (bs : list byte) : Z :=
  match bs with
  | [] => 0
  | b :: r => byte_to_Z b + 256 * le_uint r
  end.

Definition uint (e : endian) (bs : list byte) : Z :=
  match e with
  | LE => le_uint bs
  | BE => le_uint (rev bs)
  end.

Definition sint (e : endian) (bs : list byte) : Z :=
  let u := uint e bs in
  let m := 2 ^ (8 * Z.of_nat (length bs)) in
  if u <? m / 2 then u else u - m.

Fixpoint unpack_fields (e : endian) (fmt : list fcode) (buf : list byte)
  : list value :=
  match fmt with
  | [] => []
  | c :: r =>
      let rest := unpack_fields e r (drop (width c) buf) in
      match c with
      | fx => rest
      | fH | fI => VInt (uint e (take (width c) buf)) :: rest
      | fi => VInt (sint e (take (width c) buf)) :: rest
      | fs n => VBytes (take n buf) :: rest
      end
  end.

(** [struct.unpack]: the buffer must have exactly the size of the format. *)
Definition unpack (e : endian) (fmt : list fcode) (buf : list byte)
  : outcome (list value) :=
  if (length buf =? calcsize fmt)%nat
  then Return (unpack_fields e fmt buf)
  else Raise StructError.

Fixpoint chunks (k size : nat) (buf : list byte) : list (list byte) :=
  match k with
  | O => []
  | S k' => take size buf :: chunks k' size (drop size buf)
  end.

(** [struct.iter_unpack]: the buffer's size must be a multiple of the size
    of the format (which must not be empty), otherwise [struct.error]. *)
Definition iter_unpack (e : endian) (fmt : list fcode) (buf : list byte)
  : outcome (list (list value)) :=
  let size := calcsize fmt in
  if (size =? 0)%nat then Raise StructError
  else if (length buf mod size =? 0)%nat
       then Return (map (unpack_fields e fmt)
                        (chunks (length buf / size) size buf))
       else Raise StructError.

End Struct.
Import Struct.

(** ** Decoded records *)

(** One decoded record, the dict built by [read_binary] and [read_text].
    [procId] and [connId] hold [bytes] (binary files, hex text) or an int
    (the two-integer text form). *)
Record entry := {
  type : Z;
  source : Z;
  sender : Z;
  receiver : Z;
  seconds : Z;
  microseconds : Z;
  signo : Z;
  procId : value;
  connId : value
}.

Definition ITC_SEND : Z := 0.
Definition ITC_RECV : Z := 1.

(** ** Files *)

(** An open file object together with the process' stderr. *)
Record world := {
  contents : list byte;
  cursor : nat;
  stderr : list string
}.

Definition open (bs : list byte) : world :=
  {| contents := bs; cursor := 0%nat; stderr := [] |}.

(** Computations on a [world] that may raise, and that may still be running
    when the fuel of a [while] loop is used up ([None]): a computation that
    is [None] for every fuel never returns. *)
Definition io (A : Type) : Type := world -> option (outcome A * world).

Definition ret {A} (a : A) : io A := fun w => Some (Return a, w).
Definition bind {A B} (m : io A) (k : A -> io B) : io B :=
  fun w =>
    match m w with
    | None => None
    | Some (Raise e, w') => Some (Raise e, w')
    | Some (Return a, w') => k a w'
    end.
Definition lift {A} (o : outcome A) : io A := fun w => Some (o, w).

Declare Scope io_scope.
Delimit Scope io_scope with io.
Notation "x <- m ;; k" := (bind m (fun x => k))
  (at level 100, m at next level, right associativity) : io_scope.
Notation "m ;;; k" := (bind m (fun _ => k))
  (at level 100, right associativity) : io_scope.
Local Open Scope io_scope.

(** [f.read(n)] *)
Definition read (n : nat) : io (list byte) :=
  fun w =>
    let got := take n (drop (cursor w) (contents w)) in
    Some (Return got,
          {| contents := contents w;
             cursor := (cursor w + length got)%nat;
             stderr := stderr w |}).

(** [f.read()] *)
Definition read_all : io (list byte) :=
  fun w =>
    let got := drop (cursor w) (contents w) in
    Some (Return got,
          {| contents := contents w;
             cursor := (cursor w + length got)%nat;
             stderr := stderr w |}).

(** [f.tell()] *)
Definition tell : io nat := fun w => Some (Return (cursor w), w).

(** [os.stat(path).st_size] *)
Definition st_size : io nat := fun w => Some (Return (length (contents w)), w).

(** [f.write(b)] on a file opened with 'r+b': overwrite at the cursor. *)
Definition write (b : list byte) : io unit :=
  fun w =>
    Some (Return tt,
          {| contents := take (cursor w) (contents w) ++ b
                         ++ drop (cursor w + length b) (contents w);
             cursor := (cursor w + length b)%nat;
             stderr := stderr w |}).

Definition print_stderr (text : string) : io unit :=
  fun w =>
    Some (Return tt,
          {| contents := contents w; cursor := cursor w;
             stderr := stderr w ++ [text] |}).

(** ** [find_ship_header] *)

Definition SHIP : list byte := [x53; x48; x49; x50].

(** [while data != b'SHIP': data = f.read(4)]; one unit of fuel per
    iteration. *)
Fixpoint scan_magic (fuel : nat) (data : list byte) : io unit :=
  match fuel with
  | O => fun _ => None
  | S fuel' =>
      if decide (data = SHIP) then ret tt
      else data' <- read 4 ;; scan_magic fuel' data'
  end.

Definition unpack1 (e : endian) (c : fcode) (buf : list byte) : outcome Z :=
  obind (unpack e [c] buf)
        (fun vs => match vs with
                   | [VInt z] => Return z
                   | _ => Raise StructError
                   end).

Definition find_ship_header (fuel : nat) : io (bool * endian * Z) :=
  data <- read 4 ;;
  scan_magic fuel data ;;;
  b <- read 2 ;;
  bom <- lift (unpack1 LE fH b) ;;
  let endian := if (bom =? 0xFEFF) || (bom =? 1) then LE else BE in
  v <- read 2 ;;
  version <- lift (unpack1 endian fH v) ;;
  if (version =? 1) || (version =? 0) then ret (true, endian, 1)
  else if version =? 2 then ret (true, endian, 2)
  else ret (false, endian, 0).

(** ** [read_binary] *)

Definition v1_format : list fcode := [fH; fx; fx; fI; fI; fI; fi; fi; fI; fI].
Definition v2_format : list fcode := [fi; fi; fI; fI; fI; fI; fI; fs 4; fs 4].

(** The dict built from one v1 tuple; [None] when the tuple has not the
    shape of [v1_format] (which [unpack_fields] never produces). *)
Definition entry_v1 (data : list value) : option entry :=
  match data with
  | [VInt d0; VInt d1; VInt d2; VInt d3; VInt d4; VInt d5; VInt d6; VInt _] =>
      Some {| type := d0; source := d1; sender := d2; receiver := d3;
              seconds := d4; microseconds := d5; signo := d6;
              procId := VBytes []; connId := VBytes [] |}
  | _ => None
  end.

Definition entry_v2 (data : list value) : option entry :=
  match data with
  | [VInt d0; VInt d1; VInt d2; VInt d3; VInt d4; VInt d5; VInt d6;
     VBytes d7; VBytes d8] =>
      Some {| type := d3; source := d2; sender := d4; receiver := d5;
              seconds := d0; microseconds := d1; signo := d6;
              procId := VBytes d7; connId := VBytes d8 |}
  | _ => None
  end.

(** [data[4] != 0 or keep_zeros]: a null timestamp marks a slot of the
    ring that is not written. *)
Definition kept (keep_zeros : bool) (e : entry) : bool :=
  negb (seconds e =? 0) || keep_zeros.

(** The [for data in struct.iter_unpack(...): if ...: entries.append(...)]
    loop. *)
Definition collect (mk : list value -> option entry) (keep_zeros : bool)
    (tuples : list (list value)) : list entry :=
  flat_map (fun data =>
              match mk data with
              | Some e => if kept keep_zeros e then [e] else []
              | None => []
              end) tuples.

Definition read_binary (fuel : nat) (path : string) (keep_zeros : bool)
  : io (list entry) :=
  header <- find_ship_header fuel ;;
  let '(ok, endian, version) := header in
  if negb ok then
    print_stderr (path ++ " is not a valid ship file") ;;; ret []
  else if version =? 1 then
    buf <- read_all ;;
    tuples <- lift (iter_unpack endian v1_format buf) ;;
    ret (collect entry_v1 keep_zeros tuples)
  else if version =? 2 then
    buf <- read_all ;;
    tuples <- lift (iter_unpack endian v2_format buf) ;;
    ret (collect entry_v2 keep_zeros tuples)
  else ret [].

(** ** [clear_file] *)

Definition clear_file (fuel : nat) (path : string) : io unit :=
  header <- find_ship_header fuel ;;
  let '(ok, _, _) := header in
  if negb ok then
    print_stderr (path ++ " is not a valid ship file") ;;; ret tt
  else
    size <- st_size ;;
    pos <- tell ;;
    write (repeat x00 (size - pos)%nat).

(** ** Python's [str] and [int] built-ins used by the script *)

Module Py.

Definition code (c : ascii) : Z := Z.of_N (N_of_ascii c).

(** [str.isspace] on Latin-1: the characters removed by [str.split()] and
    matched by [\s]. *)
Definition is_space (c : ascii) : bool :=
  let n := code c in
  ((9 <=? n) && (n <=? 13)) || ((28 <=? n) && (n <=? 32))
  || (n =? 133) || (n =? 160).

Definition is_digit (c : ascii) : bool :=
  let n := code c in (48 <=? n) && (n <=? 57).

(** Value of a digit in bases up to 36, letters in either case. *)
Definition digit_val (c : ascii) : option Z :=
  let n := code c in
  if (48 <=? n) && (n <=? 57) then Some (n - 48)
  else if (97 <=? n) && (n <=? 122) then Some (n - 87)
  else if (65 <=? n) && (n <=? 90) then Some (n - 55)
  else None.

(** [s.split(sep)] for a non-empty separator: the first piece and the
    remaining ones; [skip] counts the characters of a separator still to
    be passed over. *)
Fixpoint split_aux (sep : string) (skip : nat) (s : string)
  : string * list string :=
  match s with
  | EmptyString => (EmptyString, [])
  | String c r =>
      match skip with
      | S k => split_aux sep k r
      | O =>
          if String.prefix sep s
          then (EmptyString,
                let '(p, ps) := split_aux sep (String.length sep - 1) r in
                p :: ps)
          else let '(p, ps) := split_aux sep 0 r in (String c p, ps)
      end
  end.

Definition split (sep : string) (s : string) : list string :=
  let '(p, ps) := split_aux sep 0 s in p :: ps.

(** [s.split()]: split on runs of whitespace, no empty pieces.
    [cur] is the piece being read, if any. *)
Fixpoint words_aux (cur : option string) (s : string) : list string :=
  match s with
  | EmptyString => match cur with Some w => [w] | None => [] end
  | String c r =>
      if is_space c
      then match cur with
           | Some w => w :: words_aux None r
           | None => words_aux None r
           end
      else words_aux (Some (default EmptyString cur +:+ String c EmptyString)) r
  end.

Definition words (s : string) : list string := words_aux None s.

(** The white space that [int()] skips around a literal: the C white space
    and the two Latin-1 spaces above 127, [\x85] and [\xa0]. The separators
    [\x1c] to [\x1f] are white space for [str.split()], but not for
    [int()]. *)
Definition int_space (c : ascii) : bool :=
  let n := code c in
  ((9 <=? n) && (n <=? 13)) || (n =? 32) || (n =? 133) || (n =? 160).

Fixpoint lstrip (s : string) : string :=
  match s with
  | String c r => if int_space c then lstrip r else s
  | EmptyString => s
  end.

Definition rstrip (s : string) : string :=
  String.rev (lstrip (String.rev s)).

(** The digits of an [int()] literal: digits of the base, single
    underscores between them. [prev] tells whether the previous character
    was a digit. *)
Fixpoint digits (base : Z) (acc : Z) (prev : bool) (s : string) : option Z :=
  match s with
  | EmptyString => if prev then Some acc else None
  | String c r =>
      if Ascii.eqb c "_"%char
      then if prev then digits base acc false r else None
      else match digit_val c with
           | Some d => if d <? base then digits base (base * acc + d) true r
                       else None
           | None => None
           end
  end.

(** [int(s, base)] for base 10 and 16: surrounding whitespace, an optional
    sign, for base 16 an optional [0x] prefix (which may be followed by one
    underscore). The number of digits is not bounded: the limit that
    [sys.set_int_max_str_digits] sets for base 10 is taken to be off. *)
Definition int (base : Z) (s : string) : outcome Z :=
  let s := rstrip (lstrip s) in
  let '(neg, s) :=
    match s with
    | String "-" r => (true, r)
    | String "+" r => (false, r)
    | _ => (false, s)
    end in
  let body :=
    match s with
    | String "0" (String x r) =>
        if (base =? 16) && (Ascii.eqb x "x" || Ascii.eqb x "X")
        then match r with
             | String "_" r' => digits base 0 true (String "_" r')
             | _ => digits base 0 false r
             end
        else digits base 0 false s
    | _ => digits base 0 false s
    end in
  match body with
  | Some z => Return (if neg then - z else z)
  | None => Raise ValueError
  end.

Definition hex_digit (n : Z) : ascii :=
  if n <? 10 then ascii_of_N (Z.to_N (48 + n))
  else ascii_of_N (Z.to_N (87 + n)).

(** ["\\x%02x" % n] for [0 <= n < 256]. *)
Definition fmt_x02 (n : Z) : string :=
  String "092" (String "x" (String (hex_digit (n / 16))
                                 (String (hex_digit (n mod 16)) EmptyString))).

Definition byte_of_Z (n : Z) : byte :=
  default x00 (Byte.of_N (Z.to_N n)).

(** [s.encode().decode('unicode-escape').encode('latin1')]: the bytes
    denoted by a string with backslash escapes. A character above 127 is
    first UTF-8 encoded (two bytes for Latin-1). The escapes [\xHH], the
    one-letter escapes, the octal escapes and the escapes [\uHHHH] and
    [\UHHHHHHHH] are decoded, and a code point above 255, which Latin-1
    cannot encode, is an error; an unknown escape is kept as it is; a
    truncated escape is an error. The table of character names is not
    part of this model: it raises [ValueError] on every [\N] escape. *)
Definition emit (n : Z) (rest : outcome (list byte)) : outcome (list byte) :=
  obind rest (fun bs => Return (byte_of_Z n :: bs)).

Definition octal (c : ascii) : option Z :=
  if (48 <=? code c) && (code c <=? 55) then Some (code c - 48) else None.

Definition emit_octal (n : Z) (rest : outcome (list byte))
  : outcome (list byte) :=
  if n <? 256 then emit n rest else Raise ValueError.

(** A hexadecimal digit of a [\u] or [\U] escape. *)
Definition hex_val (c : ascii) : option Z :=
  match digit_val c with
  | Some a => if a <? 16 then Some a else None
  | None => None
  end.

(** The code point that [\u] or [\U] denotes, encoded in Latin-1. *)
Definition emit_point (n : Z) (rest : outcome (list byte))
  : outcome (list byte) :=
  if n <? 256 then emit n rest else Raise ValueError.

Fixpoint unicode_escape (s : string) : outcome (list byte) :=
  match s with
  | EmptyString => Return []
  | String "092" EmptyString => Raise ValueError
  | String "092" (String "x" r) =>
      match r with
      | String h (String l r') =>
          match digit_val h, digit_val l with
          | Some a, Some b =>
              if (a <? 16) && (b <? 16)
              then emit (16 * a + b) (unicode_escape r')
              else Raise ValueError
          | _, _ => Raise ValueError
          end
      | _ => Raise ValueError
      end
  | String "092" (String e r) =>
      if Ascii.eqb e "092" then emit 92 (unicode_escape r)
      else if Ascii.eqb e "'" then emit 39 (unicode_escape r)
      else if Ascii.eqb e "034" then emit 34 (unicode_escape r)
      else if Ascii.eqb e "a" then emit 7 (unicode_escape r)
      else if Ascii.eqb e "b" then emit 8 (unicode_escape r)
      else if Ascii.eqb e "f" then emit 12 (unicode_escape r)
      else if Ascii.eqb e "n" then emit 10 (unicode_escape r)
      else if Ascii.eqb e "r" then emit 13 (unicode_escape r)
      else if Ascii.eqb e "t" then emit 9 (unicode_escape r)
      else if Ascii.eqb e "v" then emit 11 (unicode_escape r)
      else if Ascii.eqb e "010" then unicode_escape r
      else if Ascii.eqb e "N" then Raise ValueError
      else if Ascii.eqb e "u" then
        match r with
        | String h1 (String h2 (String h3 (String h4 r'))) =>
            match hex_val h1, hex_val h2, hex_val h3, hex_val h4 with
            | Some a1, Some a2, Some a3, Some a4 =>
                emit_point (((16 * a1 + a2) * 16 + a3) * 16 + a4)
                           (unicode_escape r')
            | _, _, _, _ => Raise ValueError
            end
        | _ => Raise ValueError
        end
      else if Ascii.eqb e "U" then
        match r with
        | String h1 (String h2 (String h3 (String h4
            (String h5 (String h6 (String h7 (String h8 r'))))))) =>
            match hex_val h1, hex_val h2, hex_val h3, hex_val h4,
                  hex_val h5, hex_val h6, hex_val h7, hex_val h8 with
            | Some a1, Some a2, Some a3, Some a4,
              Some a5, Some a6, Some a7, Some a8 =>
                emit_point
                  (((((((16 * a1 + a2) * 16 + a3) * 16 + a4) * 16 + a5) * 16
                     + a6) * 16 + a7) * 16 + a8)
                  (unicode_escape r')
            | _, _, _, _, _, _, _, _ => Raise ValueError
            end
        | _ => Raise ValueError
        end
      else
        match octal e with
        | Some d0 =>
            match r with
            | String c1 r1 =>
                match octal c1 with
                | Some d1 =>
                    match r1 with
                    | String c2 r2 =>
                        match octal c2 with
                        | Some d2 =>
                            emit_octal (64 * d0 + 8 * d1 + d2)
                                       (unicode_escape r2)
                        | None => emit (8 * d0 + d1) (unicode_escape r1)
                        end
                    | EmptyString => emit (8 * d0 + d1) (unicode_escape r1)
                    end
                | None => emit d0 (unicode_escape r)
                end
            | EmptyString => emit d0 (unicode_escape r)
            end
        | None =>
            emit 92 (if code e <? 128 then emit (code e) (unicode_escape r)
                     else emit (192 + code e / 64)
                               (emit (128 + code e mod 64) (unicode_escape r)))
        end
  | String c r =>
      if code c <? 128 then emit (code c) (unicode_escape r)
      else emit (192 + code c / 64)
                (emit (128 + code c mod 64) (unicode_escape r))
  end.

Definition escaped_bytes (s : string) : outcome (list byte) :=
  unicode_escape s.

(** [''.join(l)] *)
Definition join (l : list string) : string :=
  fold_right String.append EmptyString l.

(** [s[:n]] and [s[n:]] *)
Definition str_take (n : nat) (s : string) : string := String.substring 0 n s.
Fixpoint str_drop (n : nat) (s : string) : string :=
  match n, s with
  | S k, String _ r => str_drop k r
  | _, _ => s
  end.

End Py.

Declare Scope out_scope.
Delimit Scope out_scope with out.
Notation "x <- m ;; k" := (obind m (fun x => k))
  (at level 100, m at next level, right associativity) : out_scope.

(** [l[k]] on a Python list. *)
Definition item {A} (l : list A) (k : nat) : outcome A :=
  match l !! k with
  | Some a => Return a
  | None => Raise IndexError
  end.

(** ** [read_text] *)

(** The [len(fields) == 7] branch: the hex data of one trailing field. *)
Definition hexdata (field : string) : outcome (value * value) :=
  (if (String.length field =? 32)%nat then
     p <- Py.escaped_bytes (Py.str_take 16 field) ;;
     c <- Py.escaped_bytes (Py.str_drop 16 field) ;;
     Return (VBytes p, VBytes c)
   else
     (* handling of bug, reformat from \xffffffhh to \xhh *)
     let split := Py.split (String "092" (String "x" EmptyString)) field in
     fixed <- omap (fun f => n <- Py.int 16 f ;; Return (Z.land n 0xFF))
                   (tail split) ;;
     let fixed_proc_string := Py.join (map Py.fmt_x02 (take 4 fixed)) in
     let fixed_conn_string := Py.join (map Py.fmt_x02 (drop 4 fixed)) in
     p <- Py.escaped_bytes fixed_proc_string ;;
     c <- Py.escaped_bytes fixed_conn_string ;;
     Return (VBytes p, VBytes c))%out.

(** The body of the [while] loop for one line returned by [readline]:
    [None] stands for [continue]. *)
Definition read_line (line : string) : outcome (option entry) :=
  (let line := hd EmptyString (Py.split "#" line) in
   if decide (line = EmptyString) then Return None
   else
     let fields := Py.words line in
     f0 <- item fields 0 ;;
     let timestamp := Py.split "." f0 in
     t0 <- item timestamp 0 ;; secs <- Py.int 10 t0 ;;
     t1 <- item timestamp 1 ;; usecs <- Py.int 10 t1 ;;
     f1 <- item fields 1 ;; ty <- Py.int 10 f1 ;;
     f2 <- item fields 2 ;; src <- Py.int 10 f2 ;;
     f3 <- item fields 3 ;; sndr <- Py.int 10 f3 ;;
     f4 <- item fields 4 ;; rcv <- Py.int 10 f4 ;;
     f5 <- item fields 5 ;; sig <- Py.int 16 f5 ;;
     ids <- (if (length fields =? 7)%nat then
               f6 <- item fields 6 ;; hexdata f6
             else if (length fields =? 8)%nat then
               f6 <- item fields 6 ;; p <- Py.int 10 f6 ;;
               f7 <- item fields 7 ;; c <- Py.int 10 f7 ;;
               Return (VInt p, VInt c)
             else Return (VBytes [], VBytes [])) ;;
     Return (Some {| type := ty; source := src; sender := sndr;
                     receiver := rcv; seconds := secs;
                     microseconds := usecs; signo := sig;
                     procId := fst ids; connId := snd ids |}))%out.

(** [read_text] on the lines of the file, as [readline] returns them. *)
Fixpoint read_text (lines : list string) : outcome (list entry) :=
  match lines with
  | [] => Return []
  | line :: rest =>
      (o <- read_line line ;;
       entries <- read_text rest ;;
       Return (match o with Some e => e :: entries | None => entries end))%out
  end.

(** ** Timestamps: the doubles of [is_pair] *)

Module Float.

Definition prec : Z := 53.
Definition emax : Z := 1024.

(** Conversion of a Python int to a double: round to nearest even;
    [OverflowError] when the int is too large. *)
Definition of_int (z : Z) : outcome spec_float :=
  match binary_normalize prec emax z 0 false with
  | S754_infinity _ => Raise OverflowError
  | f => Return f
  end.

(** The literal [1e6]. *)
Definition f1e6 : spec_float := binary_normalize prec emax 1000000 0 false.

Definition add : spec_float -> spec_float -> spec_float := SFadd prec emax.
Definition div : spec_float -> spec_float -> spec_float := SFdiv prec emax.
Definition ltb : spec_float -> spec_float -> bool := SFltb.

End Float.

(** [e['seconds'] + e['microseconds']/1e6] *)
Definition timestamp (e : entry) : outcome spec_float :=
  (us <- Float.of_int (microseconds e) ;;
   s <- Float.of_int (seconds e) ;;
   Return (Float.add s (Float.div us Float.f1e6)))%out.

(** ** Pairing *)

#[global] Instance value_eq_dec : EqDecision value.
Proof. solve_decision. Defined.

#[global] Instance byte_countable : Countable byte :=
  inj_countable Byte.to_N Byte.of_N Byte.of_to_N.

#[global] Instance value_countable : Countable value :=
  inj_countable'
    (fun v => match v with VInt z => inl z | VBytes b => inr b end)
    (fun s => match s with inl z => VInt z | inr b => VBytes b end)
    (fun v => match v with VInt _ => eq_refl | VBytes _ => eq_refl end).

#[global] Instance entry_eq_dec : EqDecision entry.
Proof. solve_decision. Defined.

Definition key : Type := Z * Z * Z * value * value.

Definition pair_key (e : entry) : key :=
  (signo e, sender e, receiver e, procId e, connId e).

(** The dicts of the list handed to [find_pairs] are distinct objects; one
    is referred to by its position in the list together with its fields.
    The ['pair'] key that [find_pairs] adds to the dicts is kept apart, as
    a map from the position of a dict to the position of its partner. *)
Definition ref : Type := nat * entry.
Abbreviation links := (gmap nat nat).

Definition is_pair (pairs : links) (rx tx : ref) : outcome bool :=
  match pairs !! rx.1 with
  | None =>
      (sent <- timestamp tx.2 ;;
       received <- timestamp rx.2 ;;
       Return (Float.ltb sent received))%out
  | Some _ => Return false
  end.

(** [m[k]] on a dict. *)
Definition getitem {K V} `{Countable K} (m : gmap K V) (k : K) : outcome V :=
  match m !! k with
  | Some v => Return v
  | None => Raise KeyError
  end.

Fixpoint ofold {A S} (f : S -> A -> outcome S) (l : list A) (s : S)
  : outcome S :=
  match l with
  | [] => Return s
  | a :: l' => obind (f s a) (ofold f l')
  end.

Fixpoint ofilter {A} (f : A -> outcome bool) (l : list A) : outcome (list A) :=
  match l with
  | [] => Return []
  | a :: l' =>
      (b <- f a ;; r <- ofilter f l' ;; Return (if b : bool then a :: r else r))%out
  end.

Definition refs (entries : list entry) : list ref :=
  imap (fun i e => (i, e)) entries.

(** [tx = [i for i in entries if i['type'] == ITC_SEND]] and
    [rx = [i for i in entries if i['type'] == ITC_RECV]] *)
Definition tx (entries : list entry) : list ref :=
  filter (fun i : ref => type i.2 = ITC_SEND) (refs entries).
Definition rx (entries : list entry) : list ref :=
  filter (fun i : ref => type i.2 = ITC_RECV) (refs entries).

(** [rx_map[pair_key(entry)].append(entry)] *)
Definition rx_step (rx_map : gmap key (list ref)) (entry : ref)
  : outcome (gmap key (list ref)) :=
  (l <- getitem rx_map (pair_key entry.2) ;;
   Return (<[pair_key entry.2 := l ++ [entry]]> rx_map))%out.

(** The look-up table of all RX signals: one (empty) list for the key of
    every entry, then every RX appended to the list of its key. *)
Definition rx_map_of (entries : list entry)
  : outcome (gmap key (list ref)) :=
  let rx_keys : gset key := list_to_set (map pair_key entries) in
  let rx_map : gmap key (list ref) := gset_to_gmap [] rx_keys in
  ofold rx_step (rx entries) rx_map.

(** The body of [for entry in tx]. *)
Definition pair_step (rx_map : gmap key (list ref)) (pairs : links)
    (entry : ref) : outcome links :=
  (candidates <- getitem rx_map (pair_key entry.2) ;;
   possible_pairs <- ofilter (fun i => is_pair pairs i entry) candidates ;;
   match possible_pairs with
   | first :: _ => Return (<[first.1 := entry.1]> (<[entry.1 := first.1]> pairs))
   | [] => Return pairs
   end)%out.

(** [find_pairs entries pairs] runs the pairing on dicts that carry the
    links [pairs] (none for freshly decoded dicts) and returns the links
    they carry afterwards. *)
Definition find_pairs (entries : list entry) (pairs : links) : outcome links :=
  (rx_map <- rx_map_of entries ;;
   ofold (pair_step rx_map) (tx entries) pairs)%out.

(** [filter_duplicates] *)
Definition filter_duplicates (entries : list entry) (pairs : links)
  : list ref :=
  filter (fun i : ref => type i.2 = ITC_SEND \/ pairs !! i.1 = None)
         (refs entries).

(** ** The [re] module: a backtracking matcher *)

Module Re.

(** Patterns, as far as the token pattern of [filter_ids] needs them.
    Character sets are predicates, so that [re.IGNORECASE] is part of the
    predicate. *)
Inductive re :=
| Eps
| Chr (p : ascii -> bool)
| Seq (a b : re)
| Alt (a b : re)
| Opt (a : re)                    (* a?  greedy *)
| Star (greedy : bool) (a : re)   (* a*  or  a*? *)
| Group (name : string) (a : re)  (* (?P<name>a) *)
| Eos.                            (* $ without re.MULTILINE *)

Definition Plus (a : re) : re := Seq a (Star true a).

(** The groups of a match; a group that took no part is absent. *)
Abbreviation groups := (gmap string string).

Definition orelse {R} (x y : option R) : option R :=
  match x with Some _ => x | None => y end.

(** [exec r s g k]: match [r] at the start of [s], then go on with [k] on
    what is left; alternatives are tried in the order of the pattern and
    the first success is returned. *)
Fixpoint exec {R} (r : re) (s : string) (g : groups)
    (k : string -> groups -> option R) {struct r} : option R :=
  match r with
  | Eps => k s g
  | Chr p =>
      match s with
      | String c s' => if p c then k s' g else None
      | EmptyString => None
      end
  | Seq a b => exec a s g (fun s' g' => exec b s' g' k)
  | Alt a b => orelse (exec a s g k) (exec b s g k)
  | Opt a => orelse (exec a s g k) (k s g)
  | Star greedy a =>
      (fix loop (n : nat) (s : string) (g : groups) {struct n} : option R :=
         let more :=
           match n with
           | O => None
           | S n' =>
               exec a s g
                    (fun s' g' =>
                       if (String.length s' <? String.length s)%nat
                       then loop n' s' g' else None)
           end in
         if greedy then orelse more (k s g) else orelse (k s g) more)
        (String.length s) s g
  | Group name a =>
      exec a s g
           (fun s' g' =>
              k s' (<[name := String.substring
                                0 (String.length s - String.length s') s]> g'))
  | Eos =>
      match s with
      | EmptyString => k s g
      | String "010" EmptyString => k s g
      | _ => None
      end
  end.

(** One match: its groups, what follows it, and whether it is empty. *)
Definition found : Type := groups * string * bool.

(** Try the pattern at the start of [s]; with [must_advance] an empty
    match is refused there. *)
Definition match_here (r : re) (s : string) (must_advance : bool)
  : option found :=
  exec r s ∅
       (fun s' g =>
          let empty := (String.length s' =? String.length s)%nat in
          if must_advance && empty then None else Some (g, s', empty)).

(** [pattern.search] from the start of [s] on: leftmost match. *)
Fixpoint search (r : re) (s : string) (must_advance : bool) : option found :=
  orelse (match_here r s must_advance)
         match s with
         | String _ s' => search r s' false
         | EmptyString => None
         end.

(** The number of characters between [s] and its suffix [s']. *)
Definition consumed (s s' : string) : nat :=
  (String.length s - String.length s')%nat.

(** [re.finditer] from the start of [s] on, the next [skip] positions lying
    inside the previous match: the non-overlapping matches from left to
    right. The search goes on where the previous match ended; after an
    empty match the next one has to advance. *)
Fixpoint finditer_from (r : re) (s : string) (skip : nat) : list groups :=
  let next (k : nat) : list groups :=
    match s with
    | String _ s' => finditer_from r s' k
    | EmptyString => []
    end in
  match skip with
  | S k => next k
  | O =>
      match match_here r s false with
      | Some (g, s', false) => g :: next (consumed s s' - 1)%nat
      | Some (g, _, true) =>
          g :: match match_here r s true with
               | Some (g', s', _) => g' :: next (consumed s s' - 1)%nat
               | None => next 0%nat
               end
      | None => next 0%nat
      end
  end.

Definition finditer (r : re) (s : string) : list groups :=
  finditer_from r s 0.

End Re.

(** ** [filter_ids] *)

Section CharSets.
Import Py.

(** Character sets of the token pattern, under [re.IGNORECASE]. *)
Definition is_char (a : ascii) (c : ascii) : bool := Ascii.eqb a c.
Definition is_prefix_char (c : ascii) : bool := is_char "-" c || is_char "~" c.
Definition is_x (c : ascii) : bool := is_char "x" c || is_char "X" c.
Definition is_hex (c : ascii) : bool :=
  is_digit c || ((97 <=? code c) && (code c <=? 102))
  || ((65 <=? code c) && (code c <=? 70)).
Definition not_comma (c : ascii) : bool := negb (is_char "," c).
Definition not_comma_space (c : ascii) : bool :=
  negb (is_char "," c || is_char " " c).
End CharSets.

(** The token pattern
    [\s*(?P<ex>[-~])?(?:(?P<dec>\d+)(?:\s*-\s*(?P<dec2>\d+))?
      |(?P<hex>0x[0-9a-f]+)(?:\s*-\s*(?P<hex2>0x[0-9a-f]+))?
      |(?P<str>[^, ][^,]*?))\s*(?:,+|$)]. *)
Definition regex : Re.re :=
  let ws := Re.Star true (Re.Chr Py.is_space) in
  let dash := Re.Seq ws (Re.Seq (Re.Chr (is_char "-")) ws) in
  let dec := Re.Plus (Re.Chr Py.is_digit) in
  let hex := Re.Seq (Re.Chr (is_char "0"))
                    (Re.Seq (Re.Chr is_x) (Re.Plus (Re.Chr is_hex))) in
  Re.Seq ws
   (Re.Seq (Re.Opt (Re.Group "ex" (Re.Chr is_prefix_char)))
    (Re.Seq
      (Re.Alt
         (Re.Seq (Re.Group "dec" dec)
                 (Re.Opt (Re.Seq dash (Re.Group "dec2" dec))))
         (Re.Alt
            (Re.Seq (Re.Group "hex" hex)
                    (Re.Opt (Re.Seq dash (Re.Group "hex2" hex))))
            (Re.Group "str"
               (Re.Seq (Re.Chr not_comma_space)
                       (Re.Star false (Re.Chr not_comma))))))
      (Re.Seq ws (Re.Alt (Re.Plus (Re.Chr (is_char ","))) Re.Eos)))).

(** The truth value of [match.group(name)]: a group that matched a
    non-empty string. *)
Definition group (m : Re.groups) (name : string) : option string :=
  match m !! name with
  | Some EmptyString => None
  | o => o
  end.

Section FilterIds.

(** [re_compile pat] stands for [re.compile(pat, re.IGNORECASE)]: [None]
    when it raises, otherwise whether [expr.search] finds a match in a
    string. *)
Variable re_compile : string -> option (string -> bool).

Definition unknown : string := "<unknown>".

(** The [matcher] of one token. *)
Definition matcher_of (idmap : gmap Z string) (m : Re.groups)
  : outcome (Z -> bool) :=
  match group m "str" with
  | Some pat =>
      match re_compile pat with
      | Some expr => Return (fun s => expr (default unknown (idmap !! s)))
      | None => Raise (SystemExit 1)
      end
  | None =>
      match group m "dec" with
      | Some dec =>
          (lo <- Py.int 10 dec ;;
           hi <- match group m "dec2" with
                 | Some dec2 => Py.int 10 dec2
                 | None => Return lo
                 end ;;
           Return (fun s => (lo <=? s) && (s <=? hi)))%out
      | None =>
          (hex <- match m !! "hex" with
                  | Some h => Return h
                  | None => Raise TypeError
                  end ;;
           lo <- Py.int 16 hex ;;
           hi <- match group m "hex2" with
                 | Some hex2 => Py.int 16 hex2
                 | None => Return lo
                 end ;;
           Return (fun s => (lo <=? s) && (s <=? hi)))%out
      end
  end.

Definition keep (matcher : Z -> bool) (ids : gset Z) : gset Z :=
  filter (fun s => matcher s = true) ids.

(** The body of the [for matchNum, match in enumerate(...)] loop. *)
Definition filter_step (idset : gset Z) (idmap : gmap Z string)
    (st : gset Z * gset Z) (tok : nat * Re.groups)
  : outcome (gset Z * gset Z) :=
  let '(selected, unselected) := st in
  let '(matchNum, m) := tok in
  let ex := m !! "ex" in
  let selected :=
    if decide (matchNum = 1%nat /\ ex <> Some "-") then ∅ else selected in
  (matcher <- matcher_of idmap m ;;
   if decide (ex = Some "-") then
     Return (selected ∖ keep matcher selected,
             unselected ∪ keep matcher idset)
   else if decide (ex = Some "~") then
     Return (keep matcher selected, unselected)
   else
     Return (selected ∪ keep matcher idset, unselected))%out.

(** [filter_ids]; an empty (or absent) filter lets all ids go. *)
Definition filter_ids (filter : string) (idset : gset Z)
    (idmap : gmap Z string) : outcome (gset Z * gset Z) :=
  if decide (filter = EmptyString) then Return (idset, ∅)
  else
    ofold (filter_step idset idmap)
          (imap (fun i m => (S i, m)) (Re.finditer regex filter))
          (idset, ∅).

End FilterIds.

(** A regular expression oracle for the simplest patterns: characters
    without a special meaning, an optional leading [^] and an optional
    trailing [$], compared without regard to the case of ASCII letters.
    Other patterns are refused. *)
Module Lit.

Definition special (c : ascii) : bool :=
  existsb (Ascii.eqb c)
          (list_ascii_of_string ".^$*+?{}[]|()" ++ ["092"%char]).

Definition lower (c : ascii) : Z :=
  let n := Py.code c in
  if (65 <=? n) && (n <=? 90) then n + 32 else n.

Definition same (a c : ascii) : bool := lower a =? lower c.

Fixpoint body (pat : string) : option Re.re :=
  match pat with
  | EmptyString => Some Re.Eps
  | String "$" EmptyString => Some Re.Eos
  | String c r =>
      if special c || negb (Py.code c <? 128) then None
      else match body r with
           | Some b => Some (Re.Seq (Re.Chr (same c)) b)
           | None => None
           end
  end.

Definition compile (pat : string) : option (string -> bool) :=
  match pat with
  | String "^" r =>
      match body r with
      | Some b => Some (fun s => bool_decide (is_Some (Re.match_here b s false)))
      | None => None
      end
  | _ =>
      match body pat with
      | Some b => Some (fun s => bool_decide (is_Some (Re.search b s false)))
      | None => None
      end
  end.

End Lit.

(** ** [stream_files]: one poll of one file

    [stream_files] never returns: it polls every input file again and
    again. The model is the body of its loop for one file, from the
    [previous_data] left by the polls before. *)

Inductive output :=
| Print (e : entry)      (* the line printed for a new entry *)
| Stderr (msg : string).

(** The [while i < len(entries)] loop: the entries printed, [truncated] and
    [overlaps]. *)
Fixpoint tail_loop (previous : list entry) (i : nat) (entries : list entry)
    (truncated overlaps : bool) : list entry * bool * bool :=
  match entries with
  | [] => ([], truncated, overlaps)
  | entry :: rest =>
      if negb (seconds entry =? 0)
         && ((length previous <=? i)%nat
             || negb (bool_decide (previous !! i = Some entry)))
      then
        let '(out, t, o) := tail_loop previous (S i) rest truncated overlaps in
        (entry :: out, t, o)
      else if seconds entry =? 0 then tail_loop previous (S i) rest false true
      else tail_loop previous (S i) rest truncated true
  end.

(** What one poll prints for the entries read from [f], after the loop. *)
Definition diff_entries (f : string) (previous entries : list entry)
  : list output :=
  let '(out, truncated, overlaps) := tail_loop previous 0 entries true false in
  map Print out
  ++ (if negb overlaps && negb (length previous =? 0)%nat
      then [Stderr ("Signals may have been lost from input " ++ f ++ ".")]
      else [])
  ++ (if (length previous =? 0)%nat && truncated
      then [Stderr ("Initial signals may have been lost from input " ++ f)]
      else []).

(** The body of [for f in get_input_files(input_files)] for a file with the
    given contents ([None] when the file has disappeared): the output and
    the new [previous_data]. *)
Definition poll_file (fuel : nat) (f : string) (file : option (list byte))
    (previous_data : gmap string (list entry))
  : option (outcome (list output * gmap string (list entry))) :=
  let '(previous, detected) :=
    match previous_data !! f with
    | Some p => (p, [])
    | None => ([], [Stderr ("Detected new input " ++ f)])
    end in
  match file with
  | None => Some (Return (detected, previous_data))
  | Some bytes =>
      match read_binary fuel f true (open bytes) with
      | None => None
      | Some (Raise e, _) => Some (Raise e)
      | Some (Return entries, w) =>
          Some (Return (detected ++ map Stderr (stderr w)
                          ++ diff_entries f previous entries,
                        <[f := entries]> previous_data))
      end
  end.

(** ** Notions used in the statements *)

(** *** Binary files *)

(** The byte stream contains the magic somewhere. *)
Definition contains_magic (bs : list byte) : Prop :=
  exists pre post, bs = pre ++ SHIP ++ post.

(** A computation that leaves the bytes of the file and stderr alone. *)
Definition frame (w w' : world) : Prop :=
  contents w' = contents w /\ stderr w' = stderr w.

Definition record_format (version : Z) : list fcode :=
  if version =? 1 then v1_format else v2_format.

Definition record_size (version : Z) : nat := calcsize (record_format version).

(** The bytes of a field at an offset of a record. *)
Definition field (r : list byte) (offset len : nat) : list byte :=
  take len (drop offset r).

(** The record layouts, field by field with the offsets that the format
    strings of [read_binary] give: a v1 record is
    [type:u16, pad:2 bytes, source:u32, sender:u32, receiver:u32,
     seconds:i32, microseconds:i32, signo:u32, reserved:u32]
    and a v2 record is
    [seconds:i32, microseconds:i32, source:u32, type:u32, sender:u32,
     receiver:u32, signo:u32, procId:4 bytes, connId:4 bytes]. *)
Definition layout_v1 (e : endian) (r : list byte) : entry :=
  {| type := uint e (field r 0 2);
     source := uint e (field r 4 4);
     sender := uint e (field r 8 4);
     receiver := uint e (field r 12 4);
     seconds := sint e (field r 16 4);
     microseconds := sint e (field r 20 4);
     signo := uint e (field r 24 4);
     procId := VBytes [];
     connId := VBytes [] |}.

Definition layout_v2 (e : endian) (r : list byte) : entry :=
  {| seconds := sint e (field r 0 4);
     microseconds := sint e (field r 4 4);
     source := uint e (field r 8 4);
     type := uint e (field r 12 4);
     sender := uint e (field r 16 4);
     receiver := uint e (field r 20 4);
     signo := uint e (field r 24 4);
     procId := VBytes (field r 28 4);
     connId := VBytes (field r 32 4) |}.

Definition layout (version : Z) : endian -> list byte -> entry :=
  if version =? 1 then layout_v1 else layout_v2.

(** Sample files: a little-endian header of a given version, a v2 record
    written at second 5, an unwritten v2 slot, and a v1 record whose sender
    bytes are all [0xff]. *)
Definition le_header (version : byte) : list byte :=
  SHIP ++ [xff; xfe; version; x00].

Definition v2_record_at_5 : list byte := x05 :: repeat x00 35.
Definition v2_unwritten : list byte := repeat x00 36.
Definition v1_record_ff : list byte :=
  repeat x00 8 ++ repeat xff 4 ++ repeat x00 4 ++ [x05; x00; x00; x00]
  ++ repeat x00 12.

(** *** Tail monitor *)

Definition written (e : entry) : bool := negb (seconds e =? 0).

Definition initial_loss (f : string) : output :=
  Stderr ("Initial signals may have been lost from input " ++ f).

Definition invalid_msg (path : string) : string :=
  path ++ " is not a valid ship file".

(** *** Text decoder *)

Definition legacy_token : string :=
  "\xffffff01\xffffff02\xffffff03\xffffff04\xffffff05\xffffff06\xffffff07\xffffff08".

(** *** Pairing *)

(** The receives of a list with a given key, in the order of the list. *)
Definition bucket (k : key) (l : list ref) : list ref :=
  filter (fun r : ref => pair_key r.2 = k) l.

(** [rx_map] holds, for the key of every entry, the receives with that key. *)
Definition rx_map_ok (es : list entry) (m : gmap key (list ref)) : Prop :=
  forall e, e ∈ es -> m !! pair_key e = Some (bucket (pair_key e) (rx es)).

(** The timestamp of [a], as [is_pair] computes it, is strictly smaller than
    the one of [b]. *)
Definition earlier (a b : entry) : Prop :=
  exists ta tb, timestamp a = Return ta /\ timestamp b = Return tb
                /\ Float.ltb ta tb = true.

(** The timestamp of an entry can be computed. *)
Definition timed (e : entry) : Prop := exists t, timestamp e = Return t.

(** A link between the dicts at [i] and [j] joins a send and a receive of
    equal key, the send being earlier. *)
Definition link_ok (es : list entry) (i j : nat) : Prop :=
  exists ei ej,
    es !! i = Some ei /\ es !! j = Some ej /\ pair_key ei = pair_key ej
    /\ ((type ei = ITC_SEND /\ type ej = ITC_RECV /\ earlier ei ej)
        \/ (type ei = ITC_RECV /\ type ej = ITC_SEND /\ earlier ej ei)).

Definition sound (es : list entry) (pairs : links) : Prop :=
  forall i j, pairs !! i = Some j -> link_ok es i j.

(** No send has a receive of its key left that [is_pair] accepts. *)
Definition saturated (es : list entry) (pairs : links) : Prop :=
  forall i j s r,
    es !! i = Some s -> es !! j = Some r ->
    type s = ITC_SEND -> type r = ITC_RECV -> pair_key s = pair_key r ->
    is_pair pairs (j, r) (i, s) = Return false.

(** The receive at [j] is still free for the send at [i]: the two have the
    same key, the receive carries no link, and the timestamp of the send is
    strictly smaller than the one of the receive. *)
Definition free_later (es : list entry) (pairs : links) (i j : nat) : Prop :=
  exists s r,
    es !! i = Some s /\ es !! j = Some r
    /\ type s = ITC_SEND /\ type r = ITC_RECV /\ pair_key s = pair_key r
    /\ pairs !! j = None /\ earlier s r.

(** [i] is the first send of the list that has a free receive, and [j] is
    the first receive of the list that is free for it. *)
Definition first_free (es : list entry) (pairs : links) (i j : nat) : Prop :=
  free_later es pairs i j
  /\ (forall i' j', free_later es pairs i' j' -> (i <= i')%nat)
  /\ (forall j', free_later es pairs i j' -> (j <= j')%nat).

(** The links written when the send at [i] claims the receive at [j]. *)
Definition linked (i j : nat) : links := <[j := i]> (<[i := j]> ∅).

(** A sample event of a fixed key. *)
Definition event (ty secs usecs : Z) : entry :=
  {| type := ty; source := 0; sender := 1; receiver := 2;
     seconds := secs; microseconds := usecs; signo := 7;
     procId := VBytes [x01]; connId := VBytes [] |}.

(** Two lines of a text trace whose seconds are 2^1024. *)
Definition huge_seconds : string :=
  "179769313486231590772930519078902473361797697894230657273430081157732675805500963132708477322407536021120113879871393357658789768814416622492847430639474124377767893424865485276302219601246094119453082952085005768838150682342462881473913110540827237163350510684586298239947245938479716304835356329624224137216".

Definition huge_send : string := huge_seconds ++ ".0 0 0 1 2 0x7".
Definition huge_recv : string := huge_seconds ++ ".1 1 0 1 2 0x7".

(** *** Filter *)

Definition example_filter : string := "-cfm$, 0x17000-0x17fff, -0x17a34".
Definition example_ids : gset Z := {[ 0x17000; 0x17001; 0x17a34; 0x18000 ]}.
Definition example_names : gmap Z string := {[ 0x17000 := "FOO_CFM" ]}.

Definition example_tokens : list Re.groups :=
  [ {[ "ex" := "-"; "str" := "cfm$" ]};
    {[ "hex" := "0x17000"; "hex2" := "0x17fff" ]};
    {[ "ex" := "-"; "hex" := "0x17a34" ]} ].

(** The matchers of the three tokens. *)
Definition by_name (expr : string -> bool) (s : Z) : bool :=
  expr (default unknown (example_names !! s)).
Definition in_range (lo hi s : Z) : bool := (lo <=? s) && (s <=? hi).

(** The outcome of the example as the specification words it: of the four
    ids only [0x17001] is selected. *)
Definition example_expected (r : gset Z * gset Z) : Prop :=
  (0x17000 ∉ r.1) /\ (0x17001 ∈ r.1) /\ (0x17a34 ∉ r.1) /\ (0x18000 ∉ r.1).

(** ** Further functions of the script *)

(** [convert_hex_data], with [args.little_endian] as a parameter: an int is
    returned as it is, four bytes are read as an unsigned int, and anything
    else is marked as -1. *)
Definition convert_hex_data (little_endian : bool) (data : value) : Z :=
  match data with
  | VInt z => z
  | VBytes b =>
      match unpack (if little_endian then LE else BE) [fI] b with
      | Return [VInt z] => z
      | _ => -1
      end
  end.

(** [get_local_boxes]: the mailboxes of this load module. *)
Definition get_local_boxes (entries : list entry) : gset Z :=
  fold_left (fun boxes i =>
               if decide (type i = ITC_SEND) then boxes ∪ {[ sender i ]}
               else if decide (type i = ITC_RECV) then boxes ∪ {[ receiver i ]}
               else boxes)
            entries ∅.

(** [get_all_boxes] *)
Definition get_all_boxes (entries : list entry) : gset Z :=
  fold_left (fun boxes entry => boxes ∪ {[ sender entry ]} ∪ {[ receiver entry ]})
            entries ∅.

(** [get_all_signals] *)
Definition get_all_signals (entries : list entry) : gset Z :=
  list_to_set (map signo entries).

(** ** Notions used in the further properties *)

(** *** Binary files *)

(** What [find_ship_header] makes of the four bytes that follow the magic:
    the byte-order mark and the version. *)
Definition classify (b0 b1 v0 v1 : byte) : bool * endian * Z :=
  let bom := uint LE [b0; b1] in
  let endian := if (bom =? 0xFEFF) || (bom =? 1) then LE else BE in
  let version := uint endian [v0; v1] in
  if (version =? 1) || (version =? 0) then (true, endian, 1)
  else if version =? 2 then (true, endian, 2)
  else (false, endian, 0).

(** A chunk of four bytes that is not the magic. *)
Definition junk (c : list byte) : Prop := length c = 4%nat /\ c <> SHIP.

(** The world after [n] more bytes are read. *)
Definition advance (n : nat) (w : world) : world :=
  {| contents := contents w; cursor := (cursor w + n)%nat; stderr := stderr w |}.

(** The part of [find_ship_header] that follows the scan for the magic. *)
Definition header_tail : io (bool * endian * Z) :=
  b <- read 2 ;;
  bom <- lift (unpack1 LE fH b) ;;
  let endian := if (bom =? 0xFEFF) || (bom =? 1) then LE else BE in
  v <- read 2 ;;
  version <- lift (unpack1 endian fH v) ;;
  if (version =? 1) || (version =? 0) then ret (true, endian, 1)
  else if version =? 2 then ret (true, endian, 2)
  else ret (false, endian, 0).

(** Some chunk of the file at an offset that is a multiple of four is the
    magic. *)
Definition aligned_magic (bs : list byte) : Prop :=
  exists k : nat, take 4 (drop (4 * k) bs) = SHIP.

(** The cursor is at a multiple of four, or at the end of the file. *)
Definition on_chunk (w : world) : Prop :=
  (exists k : nat, cursor w = (4 * k)%nat)
  \/ (length (contents w) <= cursor w)%nat.

(** The fields of an entry fit the C types of the record: the unsigned ones
    32 bits, the two parts of the timestamp 32 bits signed, the two ids at
    most four bytes each. *)
Definition u32 (z : Z) : Prop := 0 <= z < 2 ^ 32.
Definition i32 (z : Z) : Prop := - 2 ^ 31 <= z < 2 ^ 31.
Definition short_bytes (v : value) : Prop :=
  exists b, v = VBytes b /\ (length b <= 4)%nat.

Definition fits (e : entry) : Prop :=
  u32 (type e) /\ u32 (source e) /\ u32 (sender e) /\ u32 (receiver e)
  /\ i32 (seconds e) /\ i32 (microseconds e) /\ u32 (signo e)
  /\ short_bytes (procId e) /\ short_bytes (connId e).

(** *** Pairing *)

(** The links go both ways. *)
Definition mutual (pairs : links) : Prop :=
  forall i j, pairs !! i = Some j -> pairs !! j = Some i.

(** A send linked to the receive at [j] has not passed over a receive of its
    key, later than itself, that comes before [j] in the list: such a
    receive belongs to a send that comes before this one. *)
Definition greedy (es : list entry) (pairs : links) : Prop :=
  forall i j s j' r',
    pairs !! i = Some j -> es !! i = Some s -> type s = ITC_SEND ->
    (j' < j)%nat -> es !! j' = Some r' -> type r' = ITC_RECV ->
    pair_key r' = pair_key s -> earlier s r' ->
    exists i', pairs !! j' = Some i' /\ (i' < i)%nat.

(** The order of the dicts in the list. *)
Definition by_index (a b : ref) : Prop := (a.1 < b.1)%nat.

(** Some binary file decodes to a list that holds the entry. *)
Definition from_binary (e : entry) : Prop :=
  exists fuel path keep_zeros w w' es,
    read_binary fuel path keep_zeros w = Some (Return es, w') /\ e ∈ es.

(** *** Tail monitor *)

(** The entries of a poll that are written and differ from the entry at the
    same position of the previous poll (or have none there), in the order of
    the file. *)
Definition changed (previous entries : list entry) : list entry :=
  (filter (fun r : ref => seconds r.2 <> 0 /\ previous !! r.1 <> Some r.2)
          (refs entries)).*2.

Definition lost (f : string) : output :=
  Stderr ("Signals may have been lost from input " ++ f ++ ".").

(** The same for the entries of a poll from position [i] on. *)
Definition changed_from (previous : list entry) (i : nat)
    (entries : list entry) : list entry :=
  (filter (fun r : ref => seconds r.2 <> 0 /\ previous !! r.1 <> Some r.2)
          (imap (fun j e => ((i + j)%nat, e)) entries)).*2.

(** ** The selection of [__main__]

    The block that applies [--signal-filter] and [--mailbox-filter] to the
    decoded entries. An option that is not given ([None]) and an empty
    string are the same to this code, so both are the empty string here. *)

(** [s.find(c)] for a one-character [c]: the first position, or -1. *)
Fixpoint find (c : ascii) (s : string) : Z :=
  match s with
  | EmptyString => -1
  | String a r =>
      if Ascii.eqb a c then 0
      else let k := find c r in if k <? 0 then -1 else k + 1
  end.

Section Select.

Variable re_compile : string -> option (string -> bool).

(** The entries kept by the two filters. When nothing is left, the call
    [print_stderr(..., file=sys.stderr)] raises [TypeError], since
    [print_stderr] takes one argument. *)
Definition select (signal_filter mailbox_filter : string)
    (signals mailboxes : gmap Z string) (data : list entry)
  : outcome (list entry) :=
  if decide (signal_filter = EmptyString /\ mailbox_filter = EmptyString)
  then Return data
  else
    (s <- filter_ids re_compile signal_filter (get_all_signals data) signals ;;
     let alls := s.1 in
     data' <-
       (if negb (bool_decide (mailbox_filter = EmptyString))
           && (0 <=? find ":" mailbox_filter)
        then
          match Py.split ":" mailbox_filter with
          | [f1; f2] =>
              m1 <- filter_ids re_compile f1 (get_all_boxes data) mailboxes ;;
              m2 <- filter_ids re_compile f2 (get_all_boxes data) mailboxes ;;
              let allm1 := m1.1 in
              let allm2 := m2.1 in
              Return (filter (fun d => (signo d ∈ alls)
                                       /\ ((sender d ∈ allm1)
                                           /\ (receiver d ∈ allm2)
                                           \/ (sender d ∈ allm2)
                                              /\ (receiver d ∈ allm1)))
                             data)
          | _ => Raise ValueError
          end
        else
          m <- filter_ids re_compile mailbox_filter (get_all_boxes data)
                          mailboxes ;;
          let allm := m.1 in
          let exm := m.2 in
          Return (filter (fun d => (signo d ∈ alls)
                                   /\ ((sender d ∈ allm)
                                       \/ (receiver d ∈ allm))
                                   /\ (sender d ∉ exm) /\ (receiver d ∉ exm))
                         data)) ;;
     if decide (data' = []) then Raise TypeError else Return data')%out.

End Select.

(** *** Filter *)

(** A token with the prefix [-]. *)
Definition negated (m : Re.groups) : Prop := m !! "ex" = Some "-".

(** The token matches the id. *)
Definition token_matches (re_compile : string -> option (string -> bool))
    (idmap : gmap Z string) (m : Re.groups) (s : Z) : Prop :=
  exists matcher, matcher_of re_compile idmap m = Return matcher
                  /\ matcher s = true.

(** A sample event between two given mailboxes. *)
Definition event_between (sndr rcv : Z) : entry :=
  {| type := ITC_SEND; source := 0; sender := sndr; receiver := rcv;
     seconds := 5; microseconds := 0; signo := 7;
     procId := VBytes []; connId := VBytes [] |}.

(** ** [print_ship_entries_text]

    The raw text format, which is also the format of the lines that
    [stream_files] prints. *)

(** The digits of [n >= 0] in a base up to 16, most significant first, put
    in front of [acc]; one unit of fuel per digit. *)
Fixpoint numeral (base : Z) (fuel : nat) (n : Z) (acc : string) : string :=
  match fuel with
  | O => acc
  | S fuel' =>
      let acc' := String (Py.hex_digit (n mod base)) acc in
      if n <? base then acc' else numeral base fuel' (n / base) acc'
  end.

Definition digits_of (base n : Z) : string :=
  numeral base (S (Z.to_nat (Z.log2 n))) n EmptyString.

(** ["%u" % z], which Python prints as ["%d"]. *)
Definition fmt_u (z : Z) : string :=
  if z <? 0 then String "-" (digits_of 10 (- z)) else digits_of 10 z.

(** ["%x" % z] *)
Definition fmt_x (z : Z) : string :=
  if z <? 0 then String "-" (digits_of 16 (- z)) else digits_of 16 z.

Fixpoint zeros (n : nat) (s : string) : string :=
  match n with
  | O => s
  | S k => String "0" (zeros k s)
  end.

(** ["%06u" % z]: at least six characters, zeros between the sign and the
    digits. *)
Definition fmt_06u (z : Z) : string :=
  let d := digits_of 10 (Z.abs z) in
  if z <? 0
  then String "-" (zeros (5 - String.length d) d)
  else zeros (6 - String.length d) d.

(** ["".join("\\x%02x" % i for i in data)]: iterating over an int raises
    [TypeError]. *)
Definition escaped (data : value) : outcome string :=
  match data with
  | VBytes b => Return (Py.join (map (fun i => Py.fmt_x02 (byte_to_Z i)) b))
  | VInt _ => Raise TypeError
  end.

(** The line printed for one entry, without the newline that [print]
    adds. *)
Definition text_line (dont_convert_hex_data little_endian : bool)
    (data : entry) : outcome string :=
  let head (ids : string) : string :=
    (fmt_u (seconds data) ++ "." ++ fmt_06u (microseconds data) ++ " "
     ++ fmt_u (type data) ++ " " ++ fmt_u (source data) ++ " "
     ++ fmt_u (sender data) ++ " " ++ fmt_u (receiver data) ++ " "
     ++ "0x" ++ fmt_x (signo data) ++ " " ++ ids)%string in
  if dont_convert_hex_data then
    (p <- escaped (procId data) ;;
     c <- escaped (connId data) ;;
     Return (head (p ++ c)%string))%out
  else
    Return (head (fmt_u (convert_hex_data little_endian (procId data))
                  ++ " "
                  ++ fmt_u (convert_hex_data little_endian (connId data)))%string).

Definition newline : string := String "010" EmptyString.

(** The lines written to stdout, each with its newline. *)
Definition print_ship_entries_text (dont_convert_hex_data little_endian : bool)
    (entries : list entry) : outcome (list string) :=
  omap (fun data =>
          (l <- text_line dont_convert_hex_data little_endian data ;;
           Return (l ++ newline)%string)%out)
       entries.

(** ** [parse_signals] *)

(** The body of the loop for one line. *)
Definition signal_line (signals : gmap Z string) (line : string)
  : outcome (gmap Z string) :=
  (let fields := Py.words line in
   f2 <- item fields 2 ;;
   signo <- Py.int 10 f2 ;;
   match signals !! signo with
   | Some _ => Return signals
   | None => f0 <- item fields 0 ;; Return (<[signo := f0]> signals)
   end)%out.

(** [parse_signals] on the lines of the file. *)
Definition parse_signals (lines : list string) : outcome (gmap Z string) :=
  ofold signal_line lines ∅.

(** *** Text files *)

(** All characters of a string satisfy a test. *)
Fixpoint str_all (P : ascii -> bool) (s : string) : bool :=
  match s with
  | EmptyString => true
  | String c r => P c && str_all P r
  end.

Definition is_not (x : ascii) (c : ascii) : bool := negb (Ascii.eqb c x).

(** A character of a field: no whitespace and no [#]. *)
Definition word_char (c : ascii) : bool := negb (Py.is_space c) && is_not "#" c.

(** A character of a number: a character of a field other than [.]. *)
Definition num_char (c : ascii) : bool := word_char c && is_not "." c.

(** The ids of an entry as the text with converted hex data shows them. *)
Definition converted (little_endian : bool) (e : entry) : entry :=
  {| type := type e; source := source e; sender := sender e;
     receiver := receiver e; seconds := seconds e;
     microseconds := microseconds e; signo := signo e;
     procId := VInt (convert_hex_data little_endian (procId e));
     connId := VInt (convert_hex_data little_endian (connId e)) |}.

(** The ids that [read_binary] gives: both empty (v1) or four bytes each
    (v2). *)
Definition binary_ids (e : entry) : Prop :=
  exists p c, procId e = VBytes p /\ connId e = VBytes c
              /\ (p = [] /\ c = [] \/ length p = 4%nat /\ length c = 4%nat).

(** The signal number that a line of a signal list gives, and its name. *)
Definition names (line : string) (k : Z) (name : string) : Prop :=
  exists f2, Py.words line !! 2%nat = Some f2 /\ Py.int 10 f2 = Return k
             /\ Py.words line !! 0%nat = Some name.

(** * Properties *)

(** ** Outcomes and folds *)

Lemma obind_Return {A B} (m : outcome A) (k : A -> outcome B) b :
  obind m k = Return b -> exists a, m = Return a /\ k a = Return b.
Proof. destruct m; cbn; [eauto|discriminate]. Qed.

Lemma ofold_invariant {A S} (P : S -> Prop) (f : S -> A -> outcome S) l :
  (forall s a s', a ∈ l -> P s -> f s a = Return s' -> P s') ->
  forall s s', P s -> ofold f l s = Return s' -> P s'.
Proof.
  induction l as [|a l IH]; intros Hstep s s' Hs H; cbn in H.
  - now injection H as <-.
  - apply obind_Return in H as (s1 & H1 & H2).
    eapply IH; [| |exact H2].
    + intros ? ? ? Hin. apply Hstep. now apply list_elem_of_further.
    + eapply Hstep; [apply list_elem_of_here|exact Hs|exact H1].
Qed.

Lemma ofold_raises {A S} (f : S -> A -> outcome S) l ex :
  forall s, ofold f l s = Raise ex ->
            exists s' a, a ∈ l /\ f s' a = Raise ex.
Proof.
  induction l as [|a l IH]; intros s H; cbn in H; [discriminate|].
  destruct (f s a) as [s1|ex'] eqn:Ea; cbn in H.
  - destruct (IH s1 H) as (s' & a' & Ha' & Hf).
    exists s', a'. split; [now apply list_elem_of_further|exact Hf].
  - injection H as ->. exists s, a. split; [apply list_elem_of_here|exact Ea].
Qed.

Lemma ofold_total {A S} (f : S -> A -> outcome S) l :
  (forall s a, a ∈ l -> exists s', f s a = Return s') ->
  forall s, exists s', ofold f l s = Return s'.
Proof.
  induction l as [|a l IH]; intros H s; [now exists s|].
  destruct (H s a) as [s1 H1]; [apply list_elem_of_here|].
  cbn. rewrite H1. cbn. apply IH.
  intros ? ? Hin. apply H. now apply list_elem_of_further.
Qed.

Lemma ofold_fixed {A S} (f : S -> A -> outcome S) l s :
  (forall a, a ∈ l -> f s a = Return s) -> ofold f l s = Return s.
Proof.
  induction l as [|a l IH]; intros H; [reflexivity|]. cbn.
  rewrite H by apply list_elem_of_here. cbn. apply IH.
  intros ? Hin. apply H. now apply list_elem_of_further.
Qed.

Lemma ofilter_Return {A} (f : A -> outcome bool) l :
  forall l', ofilter f l = Return l' ->
             forall x, x ∈ l' -> x ∈ l /\ f x = Return true.
Proof.
  induction l as [|a l IH]; intros l' H x Hx; cbn in H.
  - injection H as <-. now apply not_elem_of_nil in Hx.
  - apply obind_Return in H as (b & Hb & H).
    apply obind_Return in H as (r & Hr & H). injection H as <-.
    destruct b.
    + apply elem_of_cons in Hx as [->|Hx].
      * split; [apply list_elem_of_here|exact Hb].
      * destruct (IH r Hr x Hx).
        split; [now apply list_elem_of_further|assumption].
    + destruct (IH r Hr x Hx).
      split; [now apply list_elem_of_further|assumption].
Qed.

Lemma ofilter_all_false {A} (f : A -> outcome bool) l :
  (forall x, x ∈ l -> f x = Return false) -> ofilter f l = Return [].
Proof.
  induction l as [|a l IH]; intros H; [reflexivity|]. cbn.
  rewrite H by apply list_elem_of_here. cbn.
  rewrite IH; [reflexivity|].
  intros x Hx. apply H. now apply list_elem_of_further.
Qed.

Lemma ofilter_raises {A} (f : A -> outcome bool) l ex :
  ofilter f l = Raise ex -> exists x, x ∈ l /\ f x = Raise ex.
Proof.
  induction l as [|a l IH]; intros H; cbn in H; [discriminate|].
  destruct (f a) as [b|ex'] eqn:Ea; cbn in H.
  - destruct (ofilter f l) as [r|ex'] eqn:Er; cbn in H; [discriminate|].
    injection H as ->. destruct IH as (x & Hx & Hfx); [reflexivity|].
    exists x. split; [now apply list_elem_of_further|exact Hfx].
  - injection H as ->. exists a. split; [apply list_elem_of_here|exact Ea].
Qed.

Lemma ofilter_total {A} (f : A -> outcome bool) l :
  (forall x, x ∈ l -> exists b, f x = Return b) ->
  exists l', ofilter f l = Return l'.
Proof.
  induction l as [|a l IH]; intros H; [now exists []|].
  destruct (H a) as [b Hb]; [apply list_elem_of_here|].
  destruct IH as [l' Hl'].
  { intros x Hx. apply H. now apply list_elem_of_further. }
  cbn. rewrite Hb, Hl'. cbn. eauto.
Qed.

(** ** The header scan *)

Ltac io_step H :=
  match type of H with
  | context [match ?m with _ => _ end] =>
      let E := fresh "E" in destruct m eqn:E; try discriminate H
  end.

Lemma chunk_not_magic bs c :
  ~ contains_magic bs -> take 4 (drop c bs) <> SHIP.
Proof.
  intros Hno Heq. apply Hno.
  exists (take c bs), (drop 4 (drop c bs)).
  rewrite <- Heq, take_drop, take_drop. reflexivity.
Qed.

Lemma scan_magic_diverges fuel :
  forall data w,
    ~ contains_magic (contents w) -> data <> SHIP ->
    scan_magic fuel data w = None.
Proof.
  induction fuel as [|fuel IH]; intros data w Hno Hdata; [reflexivity|].
  cbn [scan_magic]. destruct (decide (data = SHIP)) as [->|_]; [done|].
  unfold bind, read. apply IH; [exact Hno|].
  now apply chunk_not_magic.
Qed.

Lemma find_ship_header_diverges fuel w :
  ~ contains_magic (contents w) -> find_ship_header fuel w = None.
Proof.
  intros Hno. unfold find_ship_header, bind at 1, read at 1.
  unfold bind at 1. rewrite scan_magic_diverges; [reflexivity|exact Hno|].
  now apply chunk_not_magic.
Qed.

Lemma scan_magic_frame fuel :
  forall data w r w', scan_magic fuel data w = Some (r, w') -> frame w w'.
Proof.
  induction fuel as [|fuel IH]; intros data w r w' H; [discriminate|].
  cbn [scan_magic] in H. destruct (decide (data = SHIP)).
  - injection H as <- <-. now split.
  - unfold bind, read in H. apply IH in H. exact H.
Qed.

Lemma find_ship_header_frame fuel w r w' :
  find_ship_header fuel w = Some (r, w') -> frame w w'.
Proof.
  unfold find_ship_header, bind at 1, read at 1. unfold bind at 1.
  destruct (scan_magic fuel _ _) as [[[[]|ex] w1]|] eqn:Es; try discriminate.
  - apply scan_magic_frame in Es. destruct Es as [Ec Ee]. cbn in Ec, Ee.
    unfold bind, read, lift, ret. intros H.
    repeat io_step H; injection H as <- <-; split; cbn; congruence.
  - intros H. injection H as <- <-. apply scan_magic_frame in Es. exact Es.
Qed.

Lemma find_ship_header_version fuel w ok e v w' :
  find_ship_header fuel w = Some (Return (ok, e, v), w') ->
  (ok = true /\ (v = 1 \/ v = 2)) \/ (ok = false /\ v = 0).
Proof.
  unfold find_ship_header, bind, lift, ret. intros H.
  repeat io_step H; injection H as <- <- <- <-; auto.
Qed.

Lemma ABCD_no_magic : ~ contains_magic [x41; x42; x43; x44].
Proof.
  intros (pre & post & H).
  do 5 (destruct pre as [|? pre]; [discriminate|]); discriminate.
Qed.

(** C3. The claim says that on a file without the magic the header scan
    stops at the end of the stream and reports an invalid file, so that
    [clear_file] refuses it. The code does not: on every byte stream that
    does not contain [SHIP], whatever the number of iterations allowed, the
    loop of [find_ship_header] is still running, and so are [clear_file]
    and [read_binary], which never get to report anything. *)
Theorem no_magic_never_returns (bs : list byte) (fuel : nat) (path : string)
    (keep_zeros : bool) :
  ~ contains_magic bs ->
  find_ship_header fuel (open bs) = None
  /\ clear_file fuel path (open bs) = None
  /\ read_binary fuel path keep_zeros (open bs) = None.
Proof.
  intros Hno.
  assert (H : find_ship_header fuel (open bs) = None)
    by now apply find_ship_header_diverges.
  unfold clear_file, read_binary, bind. rewrite H. auto.
Qed.

Lemma no_magic_never_returns_witness :
  clear_file 1000 "f" (open [x41; x42; x43; x44]) = None.
Proof.
  apply (no_magic_never_returns [x41; x42; x43; x44] 1000 "f" true).
  exact ABCD_no_magic.
Defined.

(** Where the magic is found the scan does return: with the magic at the
    start of the file one iteration is enough, and the cursor is left just
    past the 8 bytes of the header. *)
Lemma find_ship_header_at_start fuel (b0 b1 v0 v1 : byte) (rest : list byte) :
  exists ok e v w',
    find_ship_header (S fuel) (open (SHIP ++ [b0; b1; v0; v1] ++ rest))
    = Some (Return (ok, e, v), w')
    /\ cursor w' = 8%nat.
Proof.
  unfold find_ship_header, bind, read, lift, ret, unpack1, unpack, open.
  cbn -[Z.eqb uint].
  destruct (decide (_ = SHIP)) as [_|Hne]; [|now elim Hne].
  unfold ret.
  repeat (cbn -[Z.eqb uint orb]; rewrite ?take_0;
          match goal with
          | |- context [if ?c then _ else _] =>
              let E := fresh in destruct c eqn:E; try (cbn in E; discriminate E)
          end);
    cbn -[Z.eqb uint orb]; rewrite ?take_0; cbn; eauto 10.
Qed.


(** The sibling case of an unsupported version: [clear_file] reports the
    file and leaves its bytes alone. *)
Lemma clear_file_invalid_version fuel path w e v w' :
  find_ship_header fuel w = Some (Return (false, e, v), w') ->
  exists w'', clear_file fuel path w = Some (Return tt, w'')
              /\ contents w'' = contents w
              /\ stderr w'' = stderr w ++ [invalid_msg path].
Proof.
  intros H. unfold clear_file, bind at 1. rewrite H. cbn [negb].
  apply find_ship_header_frame in H as [Hc He].
  unfold bind, print_stderr, ret. eexists. split; [reflexivity|].
  cbn. now rewrite Hc, He.
Qed.


(** On a valid header [clear_file] keeps the bytes up to the cursor and
    zeroes the rest. *)
Lemma clear_file_valid fuel path w e v w' :
  find_ship_header fuel w = Some (Return (true, e, v), w') ->
  (cursor w' <= length (contents w))%nat ->
  exists w'', clear_file fuel path w = Some (Return tt, w'')
              /\ contents w''
                 = take (cursor w') (contents w)
                   ++ repeat x00 (length (contents w) - cursor w').
Proof.
  intros H Hle. unfold clear_file, bind at 1. rewrite H. cbn [negb].
  apply find_ship_header_frame in H as [Hc He].
  unfold bind, st_size, tell, write. eexists. split; [reflexivity|].
  cbn. rewrite Hc, repeat_length.
  rewrite drop_ge by lia. now rewrite app_nil_r.
Qed.

(** ** Binary records *)

Ltac explode l :=
  repeat (destruct l as [|? l]; try discriminate).

Lemma iter_unpack_truncated e fmt buf :
  (length buf mod calcsize fmt)%nat <> 0%nat ->
  iter_unpack e fmt buf = Raise StructError.
Proof.
  intros H. unfold iter_unpack.
  destruct (calcsize fmt =? 0)%nat; [reflexivity|].
  destruct (Nat.eqb_spec (length buf mod calcsize fmt) 0);
    [contradiction|reflexivity].
Qed.

Lemma chunks_concat size (recs : list (list byte)) :
  Forall (fun r => length r = size) recs ->
  chunks (length recs) size (concat recs) = recs.
Proof.
  induction 1 as [|r recs Hr _ IH]; [reflexivity|].
  cbn [length chunks concat].
  rewrite take_app_length' by (symmetry; exact Hr).
  rewrite drop_app_length' by (symmetry; exact Hr).
  now rewrite IH.
Qed.

Lemma length_concat_uniform size (recs : list (list byte)) :
  Forall (fun r => length r = size) recs ->
  length (concat recs) = (length recs * size)%nat.
Proof.
  induction 1 as [|r recs Hr _ IH]; [reflexivity|].
  cbn [concat length]. rewrite length_app, IH, Hr. lia.
Qed.

Lemma iter_unpack_records e fmt (recs : list (list byte)) :
  calcsize fmt <> 0%nat ->
  Forall (fun r => length r = calcsize fmt) recs ->
  iter_unpack e fmt (concat recs) = Return (map (unpack_fields e fmt) recs).
Proof.
  intros Hsz Hrecs. unfold iter_unpack.
  destruct (Nat.eqb_spec (calcsize fmt) 0); [contradiction|].
  rewrite (length_concat_uniform _ _ Hrecs).
  rewrite Nat.Div0.mod_mul, Nat.div_mul by exact Hsz. cbn [Nat.eqb].
  now rewrite chunks_concat.
Qed.

Lemma entry_v1_layout e (r : list byte) :
  length r = 32%nat ->
  entry_v1 (unpack_fields e v1_format r) = Some (layout_v1 e r).
Proof. intros H. explode r. reflexivity. Qed.

Lemma entry_v2_layout e (r : list byte) :
  length r = 36%nat ->
  entry_v2 (unpack_fields e v2_format r) = Some (layout_v2 e r).
Proof. intros H. explode r. reflexivity. Qed.

Lemma collect_layout (mk : list value -> option entry) keep_zeros
    (dec : list byte -> list value) (lay : list byte -> entry) recs :
  Forall (fun r => mk (dec r) = Some (lay r)) recs ->
  collect mk keep_zeros (map dec recs)
  = filter (fun x => kept keep_zeros x = true) (map lay recs).
Proof.
  induction 1 as [|r recs Hr _ IH]; [reflexivity|].
  unfold collect in *. cbn [map flat_map]. rewrite Hr, IH.
  destruct (kept keep_zeros (lay r)) eqn:E.
  - now rewrite filter_cons_True by exact E.
  - rewrite filter_cons_False; [reflexivity|]. now rewrite E.
Qed.

(** C4. A file whose bytes after the header are not a multiple of the
    record size is not decoded up to its last complete record:
    [struct.iter_unpack] refuses the whole buffer, and [read_binary] raises
    [struct.error] without returning any record. *)
Theorem truncated_file_raises (fuel : nat) (path : string) (keep_zeros : bool)
    (w w' : world) (e : endian) (v : Z) :
  find_ship_header fuel w = Some (Return (true, e, v), w') ->
  (length (drop (cursor w') (contents w')) mod record_size v)%nat <> 0%nat ->
  exists w'', read_binary fuel path keep_zeros w = Some (Raise StructError, w'').
Proof.
  intros Hh Hlen.
  destruct (find_ship_header_version _ _ _ _ _ _ Hh) as [[_ Hv]|[? _]];
    [|discriminate].
  unfold read_binary, bind at 1. rewrite Hh. cbn [negb].
  destruct Hv as [-> | ->]; cbn [Z.eqb Pos.eqb]; unfold bind, read_all, lift;
    rewrite iter_unpack_truncated by exact Hlen; eexists; reflexivity.
Qed.

Lemma truncated_file_raises_witness :
  exists w, read_binary 1 "f" false
              (open (le_header x02 ++ v2_record_at_5 ++ [x00]))
            = Some (Raise StructError, w).
Proof.
  eapply (truncated_file_raises 1 "f" false _ _ LE 2).
  - vm_compute. reflexivity.
  - vm_compute. discriminate.
Defined.

(** C4, as stated, fails: a v2 file holding one complete record written at
    second 5 and one more byte is not decoded to that record; the decoder
    raises. *)
Lemma truncated_file_counterexample :
  exists w, read_binary 1 "f" false
              (open (le_header x02 ++ v2_record_at_5 ++ [x00]))
            = Some (Raise StructError, w)
  /\ read_binary 1 "f" false (open (le_header x02 ++ v2_record_at_5))
     = Some (Return [layout_v2 LE v2_record_at_5],
             {| contents := le_header x02 ++ v2_record_at_5;
                cursor := 44; stderr := [] |}).
Proof.
  eexists. split.
  - vm_compute. reflexivity.
  - vm_compute. reflexivity.
Qed.

(** C5. The decoder consumes v1 records as 32-byte structures and v2
    records as 36-byte structures (not 24 and 32), with the fields in the
    listed order; in a v1 record source, sender and receiver are unsigned.
    On a file with a valid header followed by whole records, [read_binary]
    returns the layout of every record, dropping the unwritten ones unless
    asked to keep them. *)
Theorem binary_record_layout (fuel : nat) (path : string) (keep_zeros : bool)
    (w w' : world) (e : endian) (v : Z) (recs : list (list byte)) :
  find_ship_header fuel w = Some (Return (true, e, v), w') ->
  drop (cursor w') (contents w') = concat recs ->
  Forall (fun r => length r = record_size v) recs ->
  record_size v = (if v =? 1 then 32%nat else 36%nat)
  /\ exists w'',
      read_binary fuel path keep_zeros w
      = Some (Return (filter (fun x => kept keep_zeros x = true)
                             (map (layout v e) recs)), w'').
Proof.
  intros Hh Hrest Hrecs.
  destruct (find_ship_header_version _ _ _ _ _ _ Hh) as [[_ Hv]|[? _]];
    [|discriminate].
  unfold read_binary, bind at 1. rewrite Hh. cbn [negb].
  destruct Hv as [-> | ->]; (split; [reflexivity|]);
    cbn [Z.eqb Pos.eqb]; unfold bind, read_all, lift; rewrite Hrest.
  - rewrite iter_unpack_records by (exact Hrecs || discriminate).
    eexists. unfold ret. f_equal. f_equal. f_equal.
    apply collect_layout. eapply Forall_impl; [exact Hrecs|].
    intros r Hr. now apply entry_v1_layout.
  - rewrite iter_unpack_records by (exact Hrecs || discriminate).
    eexists. unfold ret. f_equal. f_equal. f_equal.
    apply collect_layout. eapply Forall_impl; [exact Hrecs|].
    intros r Hr. now apply entry_v2_layout.
Qed.

Lemma binary_record_layout_witness :
  exists w, read_binary 1 "f" false
              (open (le_header x02 ++ v2_unwritten ++ v2_record_at_5))
            = Some (Return [layout_v2 LE v2_record_at_5], w).
Proof.
  destruct (binary_record_layout 1 "f" false
              (open (le_header x02 ++ v2_unwritten ++ v2_record_at_5))
              {| contents := le_header x02 ++ v2_unwritten ++ v2_record_at_5;
                 cursor := 8; stderr := [] |}
              LE 2 [v2_unwritten; v2_record_at_5])
    as [_ [w Hw]].
  - vm_compute. reflexivity.
  - vm_compute. reflexivity.
  - repeat constructor.
  - exists w. exact Hw.
Defined.

(** C5, as stated, fails: the formats are 32 and 36 bytes long; a v1 file
    holding 24 bytes of records and a v2 file holding 32 are refused, not
    decoded to one record; and the sender bytes [ff ff ff ff] of a v1
    record are read as 4294967295, not as -1. *)
Lemma binary_record_layout_counterexample :
  calcsize v1_format = 32%nat /\ calcsize v2_format = 36%nat
  /\ fst <$> read_binary 1 "f" true (open (le_header x01 ++ repeat x00 24))
     = Some (Raise StructError)
  /\ fst <$> read_binary 1 "f" true (open (le_header x02 ++ repeat x00 32))
     = Some (Raise StructError)
  /\ sender <$> entry_v1 (unpack_fields LE v1_format v1_record_ff)
     = Some 4294967295.
Proof. repeat split; vm_compute; reflexivity. Qed.

(** ** The tail monitor *)

Lemma tail_loop_first_poll entries :
  forall i t o,
    (tail_loop [] i entries t o).1.2 = t && forallb written entries.
Proof.
  induction entries as [|e entries IH]; intros i t o; cbn [tail_loop forallb].
  - now rewrite andb_true_r.
  - unfold written at 1. cbn [length Nat.leb orb].
    destruct (seconds e =? 0) eqn:E; cbn [negb andb].
    + rewrite IH. now rewrite andb_false_r.
    + specialize (IH (S i) t o).
      destruct (tail_loop [] (S i) entries t o) as [[out t'] o'].
      cbn in *. exact IH.
Qed.

Lemma Stderr_not_in_prints m out : Stderr m ∉ map Print out.
Proof.
  intros H. apply list_elem_of_In, in_map_iff in H.
  destruct H as (? & ? & _). discriminate.
Qed.

Lemma forallb_written entries :
  forallb written entries = true
  <-> Forall (fun e => seconds e <> 0) entries.
Proof.
  rewrite forallb_forall, Forall_forall. unfold written.
  split; intros H e He.
  - apply list_elem_of_In in He. specialize (H e He).
    apply negb_true_iff, Z.eqb_neq in H. exact H.
  - apply list_elem_of_In in He. apply negb_true_iff, Z.eqb_neq. now apply H.
Qed.

Lemma diff_entries_initial_loss f entries :
  initial_loss f ∈ diff_entries f [] entries
  <-> Forall (fun e => seconds e <> 0) entries.
Proof.
  unfold diff_entries.
  pose proof (tail_loop_first_poll entries 0 true false) as Ht.
  destruct (tail_loop [] 0 entries true false) as [[out t] o].
  cbn in Ht. subst t. cbn [length Nat.eqb negb andb].
  rewrite andb_false_r. cbn [app].
  rewrite elem_of_app, <- forallb_written. split.
  - intros [H|H]; [now apply Stderr_not_in_prints in H|].
    destruct (forallb written entries); [reflexivity|].
    now apply not_elem_of_nil in H.
  - intros ->. right. apply list_elem_of_here.
Qed.

Lemma length_append (a b : string) :
  String.length (a ++ b) = (String.length a + String.length b)%nat.
Proof. induction a as [|c a IH]; simpl; [reflexivity|now rewrite IH]. Qed.

Lemma read_binary_stderr fuel path keep_zeros w r w' :
  read_binary fuel path keep_zeros w = Some (r, w') ->
  stderr w' = stderr w \/ stderr w' = stderr w ++ [invalid_msg path].
Proof.
  unfold read_binary, bind at 1.
  destruct (find_ship_header fuel w) as [[[[[ok e] v]|ex] w1]|] eqn:Eh;
    try discriminate.
  - apply find_ship_header_frame in Eh. destruct Eh as [_ Ee].
    destruct ok; cbn [negb].
    + unfold bind, read_all, lift, ret. intros H.
      repeat io_step H; injection H as <- <-; left; cbn; congruence.
    + unfold bind, print_stderr, ret. intros H. injection H as <- <-.
      right. cbn. now rewrite Ee.
  - intros H. injection H as <- <-. left.
    now apply find_ship_header_frame in Eh as [_ ?].
Qed.

Lemma initial_loss_not_invalid f : initial_loss f <> Stderr (invalid_msg f).
Proof.
  unfold initial_loss, invalid_msg. intros H. injection H as H.
  apply (f_equal String.length) in H. rewrite !length_append in H.
  cbn in H. lia.
Qed.

(** C2. On the first poll of a file without a previous snapshot the
    monitor reports the possible loss of the earliest signals exactly when
    the decoded sequence has no [seconds == 0] slot, that is when the ring
    is completely written (or holds no record at all), and not when the
    ring is only partly written. *)
Theorem first_poll_initial_loss (fuel : nat) (f : string) (bytes : list byte)
    (previous_data : gmap string (list entry)) (entries : list entry)
    (w : world) :
  previous_data !! f = None ->
  read_binary fuel f true (open bytes) = Some (Return entries, w) ->
  exists out,
    poll_file fuel f (Some bytes) previous_data
    = Some (Return (out, <[f := entries]> previous_data))
    /\ (initial_loss f ∈ out <-> Forall (fun e => seconds e <> 0) entries).
Proof.
  intros Hnew Hread. unfold poll_file. rewrite Hnew, Hread.
  eexists. split; [reflexivity|].
  rewrite <- diff_entries_initial_loss.
  rewrite !elem_of_app. split; [|intros H; right; right; exact H].
  intros [H|[H|H]]; [| |exact H]; exfalso.
  - apply list_elem_of_singleton in H. discriminate.
  - apply read_binary_stderr in Hread. cbn in Hread.
    destruct Hread as [Hs|Hs]; rewrite Hs in H; cbn in H.
    + now apply not_elem_of_nil in H.
    + apply list_elem_of_singleton in H.
      now apply initial_loss_not_invalid in H.
Qed.

Lemma first_poll_initial_loss_witness :
  exists out,
    poll_file 1 "f" (Some (le_header x02 ++ v2_record_at_5)) ∅
    = Some (Return (out, <["f" := [layout_v2 LE v2_record_at_5]]> ∅))
    /\ (initial_loss "f" ∈ out
        <-> Forall (fun e => seconds e <> 0) [layout_v2 LE v2_record_at_5]).
Proof.
  eapply (first_poll_initial_loss 1 "f" _ ∅).
  - apply lookup_empty.
  - vm_compute. reflexivity.
Defined.

(** C2, as stated, fails: on the first poll of a ring of two unwritten
    slots (all entries t=0) the monitor only announces the new input; no
    loss of initial signals is reported. *)
Lemma first_poll_counterexample :
  let unwritten := layout_v2 LE v2_unwritten in
  poll_file 1 "f" (Some (le_header x02 ++ v2_unwritten ++ v2_unwritten)) ∅
  = Some (Return ([Stderr "Detected new input f"],
                  <["f" := [unwritten; unwritten]]> ∅))
  /\ seconds unwritten = 0
  /\ initial_loss "f" ∉ [Stderr "Detected new input f"].
Proof.
  cbv zeta. split; [vm_compute; reflexivity|].
  split; [vm_compute; reflexivity|].
  intros H. apply list_elem_of_singleton in H. discriminate.
Qed.

(** ** The text decoder *)

(** C8. In the repair path of [read_text] (one trailing field that is not
    32 characters long) the token of eight [\xffffffHH] runs decodes, by
    the low byte of each run, to procId [01 02 03 04] and connId
    [05 06 07 08]. *)
Theorem legacy_repair :
  String.length legacy_token <> 32%nat
  /\ hexdata legacy_token
     = Return (VBytes [x01; x02; x03; x04], VBytes [x05; x06; x07; x08])
  /\ read_line ("5.000001 0 7 100 200 0x1f " ++ legacy_token)
     = Return (Some {| type := 0; source := 7; sender := 100;
                       receiver := 200; seconds := 5; microseconds := 1;
                       signo := 31;
                       procId := VBytes [x01; x02; x03; x04];
                       connId := VBytes [x05; x06; x07; x08] |}).
Proof. repeat split; [discriminate|vm_compute; reflexivity..]. Qed.

(** ** Pairing *)

Lemma elem_of_refs (es : list entry) (i : nat) (e : entry) :
  (i, e) ∈ refs es <-> es !! i = Some e.
Proof.
  unfold refs. rewrite elem_of_lookup_imap. split.
  - intros (j & y & [= -> ->] & H). exact H.
  - intros H. eauto.
Qed.

Lemma elem_of_rx es (r : ref) :
  r ∈ rx es <-> es !! r.1 = Some r.2 /\ type r.2 = ITC_RECV.
Proof.
  unfold rx. rewrite list_elem_of_filter. destruct r as [i e].
  rewrite elem_of_refs. cbn. tauto.
Qed.

Lemma elem_of_tx es (t : ref) :
  t ∈ tx es <-> es !! t.1 = Some t.2 /\ type t.2 = ITC_SEND.
Proof.
  unfold tx. rewrite list_elem_of_filter. destruct t as [i e].
  rewrite elem_of_refs. cbn. tauto.
Qed.

Lemma elem_of_bucket k l (r : ref) :
  r ∈ bucket k l <-> pair_key r.2 = k /\ r ∈ l.
Proof. unfold bucket. now rewrite list_elem_of_filter. Qed.

(** The loop that fills [rx_map] never misses a key, and appends every
    receive to the list of its key. *)
Lemma rx_fold (l : list ref) :
  forall m0 : gmap key (list ref),
    (forall r, r ∈ l -> is_Some (m0 !! pair_key r.2)) ->
    exists m, ofold rx_step l m0 = Return m
              /\ forall k, m !! k = (fun c => c ++ bucket k l) <$> (m0 !! k).
Proof.
  induction l as [|r l IH]; intros m0 Hdom.
  - exists m0. split; [reflexivity|]. intros k. unfold bucket.
    rewrite filter_nil. destruct (m0 !! k); cbn; [|reflexivity].
    now rewrite app_nil_r.
  - destruct (Hdom r) as [c Hc]; [apply list_elem_of_here|].
    cbn [ofold]. unfold rx_step at 1, getitem. rewrite Hc. cbn [obind].
    destruct (IH (<[pair_key r.2 := c ++ [r]]> m0)) as (m & Hm & Hlook).
    { intros r' Hr'. destruct (decide (pair_key r.2 = pair_key r'.2)) as [E|E].
      - rewrite E, lookup_insert_eq. eauto.
      - rewrite lookup_insert_ne by exact E. apply Hdom.
        now apply list_elem_of_further. }
    exists m. split; [exact Hm|]. intros k. rewrite Hlook. unfold bucket.
    destruct (decide (pair_key r.2 = k)) as [E|E].
    + rewrite filter_cons_True by exact E.
      subst k. rewrite lookup_insert_eq, Hc. cbn [fmap option_fmap option_map].
      now rewrite <- app_assoc.
    + rewrite filter_cons_False by exact E.
      now rewrite lookup_insert_ne by exact E.
Qed.

Lemma rx_map_of_spec (es : list entry) :
  exists m, rx_map_of es = Return m /\ rx_map_ok es m.
Proof.
  destruct (rx_fold (rx es)
              (gset_to_gmap [] (list_to_set (map pair_key es))))
    as (m & Hm & Hlook).
  - intros [i e] Hr. apply elem_of_rx in Hr as [Hr _]. cbn in Hr.
    exists []. apply lookup_gset_to_gmap_Some.
    cbn. split; [|reflexivity]. apply elem_of_list_to_set.
    apply list_elem_of_fmap. exists e. split; [reflexivity|].
    eapply list_elem_of_lookup_2, Hr.
  - exists m. split; [exact Hm|]. intros e He. rewrite Hlook.
    assert (Hk : gset_to_gmap ([] : list ref)
                   (list_to_set (map pair_key es) : gset key) !! pair_key e
                 = Some []).
    { apply lookup_gset_to_gmap_Some. split; [|reflexivity].
      apply elem_of_list_to_set, list_elem_of_fmap. eauto. }
    now rewrite Hk.
Qed.

Lemma find_pairs_unfold es pairs :
  exists m, rx_map_ok es m
            /\ find_pairs es pairs = ofold (pair_step m) (tx es) pairs.
Proof.
  destruct (rx_map_of_spec es) as (m & Hm & Hok).
  exists m. split; [exact Hok|]. unfold find_pairs. now rewrite Hm.
Qed.

(** Timestamps raise nothing but [OverflowError]. *)
Lemma of_int_raises z ex : Float.of_int z = Raise ex -> ex = OverflowError.
Proof.
  unfold Float.of_int.
  destruct (binary_normalize _ _ _ _ _); intros H; try discriminate.
  now injection H.
Qed.

Lemma timestamp_raises e ex : timestamp e = Raise ex -> ex = OverflowError.
Proof.
  unfold timestamp.
  destruct (Float.of_int (microseconds e)) eqn:E1; cbn.
  - destruct (Float.of_int (seconds e)) eqn:E2; cbn; [discriminate|].
    intros [= <-]. now apply of_int_raises in E2.
  - intros [= <-]. now apply of_int_raises in E1.
Qed.

Lemma is_pair_raises pairs r t ex :
  is_pair pairs r t = Raise ex -> ex = OverflowError.
Proof.
  unfold is_pair. destruct (pairs !! r.1); [discriminate|].
  destruct (timestamp t.2) eqn:E1; cbn.
  - destruct (timestamp r.2) eqn:E2; cbn; [discriminate|].
    intros [= <-]. now apply timestamp_raises in E2.
  - intros [= <-]. now apply timestamp_raises in E1.
Qed.

Lemma is_pair_true pairs r t :
  is_pair pairs r t = Return true ->
  pairs !! r.1 = None /\ earlier t.2 r.2.
Proof.
  unfold is_pair. destruct (pairs !! r.1); [discriminate|].
  intros H. apply obind_Return in H as (ta & Ha & H).
  apply obind_Return in H as (tb & Hb & H). injection H as H.
  split; [reflexivity|]. now exists ta, tb.
Qed.

Lemma is_pair_total pairs r t :
  timed r.2 -> timed t.2 -> exists b, is_pair pairs r t = Return b.
Proof.
  intros [tr Hr] [tt Ht]. unfold is_pair.
  destruct (pairs !! r.1); [eauto|]. rewrite Ht, Hr. cbn. eauto.
Qed.

(** One send: the look-up succeeds, and the step raises [OverflowError],
    leaves the links alone, or links the send and the first candidate. *)
Lemma pair_step_eq es m pairs (t : ref) :
  rx_map_ok es m -> t ∈ tx es ->
  pair_step m pairs t
  = obind (ofilter (fun i => is_pair pairs i t)
                   (bucket (pair_key t.2) (rx es)))
          (fun possible_pairs =>
             match possible_pairs with
             | first :: _ =>
                 Return (<[first.1 := t.1]> (<[t.1 := first.1]> pairs))
             | [] => Return pairs
             end).
Proof.
  intros Hm Ht. apply elem_of_tx in Ht as [Hl _].
  unfold pair_step, getitem.
  now rewrite Hm by (eapply list_elem_of_lookup_2, Hl).
Qed.

Lemma pair_step_cases es m pairs (t : ref) :
  rx_map_ok es m -> t ∈ tx es ->
  pair_step m pairs t = Raise OverflowError
  \/ pair_step m pairs t = Return pairs
  \/ (exists first rest,
         ofilter (fun i => is_pair pairs i t)
                 (bucket (pair_key t.2) (rx es)) = Return (first :: rest)
         /\ pair_step m pairs t
            = Return (<[first.1 := t.1]> (<[t.1 := first.1]> pairs))).
Proof.
  intros Hm Ht. rewrite (pair_step_eq es m pairs t Hm Ht).
  destruct (ofilter _ _) as [[|first rest]|ex] eqn:Ef; cbn [obind].
  - right. left. reflexivity.
  - right. right. exists first, rest. split; reflexivity.
  - left. apply ofilter_raises in Ef as (x & _ & Hx).
    apply is_pair_raises in Hx. now subst ex.
Qed.

Lemma pair_step_sound es m pairs t pairs' :
  rx_map_ok es m -> t ∈ tx es -> sound es pairs ->
  pair_step m pairs t = Return pairs' -> sound es pairs'.
Proof.
  intros Hm Ht Hs Hstep.
  destruct (pair_step_cases es m pairs t Hm Ht)
    as [E|[E|(first & rest & Ef & E)]];
    rewrite E in Hstep; [discriminate| |]; injection Hstep as <-; [exact Hs|].
  destruct (ofilter_Return _ _ _ Ef first) as [Hin Hp];
    [apply list_elem_of_here|].
  apply elem_of_bucket in Hin as [Hkey Hrx].
  apply elem_of_rx in Hrx as [Hlr Htr].
  apply elem_of_tx in Ht as [Hlt Htt].
  apply is_pair_true in Hp as [_ Hearlier].
  intros i j Hij.
  destruct (decide (first.1 = i)) as [<-|Hn1].
  - rewrite lookup_insert_eq in Hij. injection Hij as <-.
    exists first.2, t.2. repeat split; try assumption. right. auto.
  - rewrite lookup_insert_ne in Hij by exact Hn1.
    destruct (decide (t.1 = i)) as [<-|Hn2].
    + rewrite lookup_insert_eq in Hij. injection Hij as <-.
      exists t.2, first.2. repeat split; try assumption; [now symmetry|].
      left. auto.
    + rewrite lookup_insert_ne in Hij by exact Hn2. now apply Hs.
Qed.

Lemma find_pairs_sound es pairs pairs' :
  sound es pairs -> find_pairs es pairs = Return pairs' -> sound es pairs'.
Proof.
  intros Hs H. destruct (find_pairs_unfold es pairs) as (m & Hm & E).
  rewrite E in H.
  eapply (ofold_invariant (sound es)); [|exact Hs|exact H].
  intros s a s' Ha Hsound Hstep. eapply pair_step_sound; eassumption.
Qed.

Lemma sound_empty es : sound es ∅.
Proof. intros i j H. now rewrite lookup_empty in H. Qed.

Lemma send_recv_distinct : ITC_SEND <> ITC_RECV.
Proof. discriminate. Qed.


Lemma find_pairs_raises es pairs ex :
  find_pairs es pairs = Raise ex -> ex = OverflowError.
Proof.
  intros H. destruct (find_pairs_unfold es pairs) as (m & Hm & E).
  rewrite E in H. apply ofold_raises in H as (s' & t & Ht & H).
  destruct (pair_step_cases es m s' t Hm Ht)
    as [E'|[E'|(first & rest & _ & E')]];
    rewrite E' in H; congruence.
Qed.

Lemma find_pairs_total es pairs :
  Forall timed es -> exists pairs', find_pairs es pairs = Return pairs'.
Proof.
  intros Htimed. destruct (find_pairs_unfold es pairs) as (m & Hm & E).
  rewrite E. apply ofold_total. intros s t Ht.
  rewrite (pair_step_eq es m s t Hm Ht).
  apply elem_of_tx in Ht as [Hl _].
  destruct (ofilter_total (fun i => is_pair s i t)
              (bucket (pair_key t.2) (rx es))) as [l' Hl'].
  - intros r Hr. apply elem_of_bucket in Hr as [_ Hr].
    apply elem_of_rx in Hr as [Hr _].
    rewrite Forall_forall in Htimed.
    apply is_pair_total; apply Htimed; eapply list_elem_of_lookup_2; eassumption.
  - rewrite Hl'. cbn. destruct l'; eauto.
Qed.

Lemma unmatched_send es pairs i s :
  find_pairs es ∅ = Return pairs ->
  es !! i = Some s -> type s = ITC_SEND ->
  (forall r, r ∈ es -> type r = ITC_RECV -> pair_key r <> pair_key s) ->
  bucket (pair_key s) (rx es) = [] /\ pairs !! i = None.
Proof.
  intros Hfp Hi Hs Hno. split.
  - apply elem_of_nil_inv. intros r Hr.
    apply elem_of_bucket in Hr as [Hk Hr].
    apply elem_of_rx in Hr as [Hl Ht].
    eapply Hno; [eapply list_elem_of_lookup_2, Hl|exact Ht|exact Hk].
  - destruct (pairs !! i) as [j|] eqn:Hij; [exfalso|reflexivity].
    pose proof (find_pairs_sound es ∅ pairs (sound_empty es) Hfp) as Hsound.
    apply Hsound in Hij as (ei & ej & Hei & Hej & Hk & Hc).
    assert (ei = s) by congruence. subst ei.
    destruct Hc as [(_ & Ht & _)|(Ht & _ & _)].
    + eapply Hno; [eapply list_elem_of_lookup_2, Hej|exact Ht|now symmetry].
    + rewrite Hs in Ht. now apply send_recv_distinct in Ht.
Qed.







Lemma find_pairs_saturated es pairs :
  saturated es pairs -> find_pairs es pairs = Return pairs.
Proof.
  intros Hsat. destruct (find_pairs_unfold es pairs) as (m & Hm & E).
  rewrite E. apply ofold_fixed. intros t Ht.
  rewrite (pair_step_eq es m pairs t Hm Ht).
  apply elem_of_tx in Ht as [Hl Htt].
  rewrite ofilter_all_false; [reflexivity|].
  intros [j r] Hr. apply elem_of_bucket in Hr as [Hk Hr].
  apply elem_of_rx in Hr as [Hr Htr]. destruct t as [i s]. cbn in *.
  now apply Hsat.
Qed.






(** C6, as stated, fails: with one send at t=1 and two receives of its key
    at t=2 and t=3, the first run links the send and the first receive; the
    second run, finding that receive taken, links the send to the second
    receive as well, so that the links differ. *)
Lemma pairing_not_idempotent :
  let es := [event ITC_SEND 1 0; event ITC_RECV 2 0; event ITC_RECV 3 0] in
  let once : links := {[ 0%nat := 1%nat; 1%nat := 0%nat ]} in
  let twice : links := {[ 0%nat := 2%nat; 1%nat := 0%nat; 2%nat := 0%nat ]} in
  find_pairs es ∅ = Return once
  /\ find_pairs es once = Return twice
  /\ once <> twice.
Proof.
  cbv zeta. split; [vm_compute; reflexivity|].
  split; [vm_compute; reflexivity|].
  intros H. apply (f_equal (fun m : links => m !! 2%nat)) in H.
  vm_compute in H. discriminate.
Qed.

(** C9. Pairing never raises a lookup error: the lookup table holds (at
    least an empty list for) the key of every event, so the only exception
    that [find_pairs] can raise is the [OverflowError] of a timestamp too
    large for a double. On events whose timestamps can be computed it
    returns; a send whose key no receive has finds an empty candidate list
    and is left unpaired. *)
Theorem pairing_total (es : list entry) :
  (forall pairs ex, find_pairs es pairs = Raise ex -> ex = OverflowError)
  /\ (Forall timed es ->
      exists pairs,
        find_pairs es ∅ = Return pairs
        /\ forall i s,
            es !! i = Some s -> type s = ITC_SEND ->
            (forall r, r ∈ es -> type r = ITC_RECV ->
                       pair_key r <> pair_key s) ->
            (exists rx_map, rx_map_of es = Return rx_map
                            /\ rx_map !! pair_key s = Some [])
            /\ pairs !! i = None).
Proof.
  split; [intros pairs ex; apply find_pairs_raises|].
  intros Htimed. destruct (find_pairs_total es ∅ Htimed) as [pairs Hp].
  exists pairs. split; [exact Hp|]. intros i s Hi Hs Hno.
  destruct (unmatched_send es pairs i s Hp Hi Hs Hno) as [Hb Hnone].
  split; [|exact Hnone].
  destruct (rx_map_of_spec es) as (m & Hm & Hok).
  exists m. split; [exact Hm|].
  rewrite Hok by (eapply list_elem_of_lookup_2, Hi). now rewrite Hb.
Qed.

Lemma pairing_total_witness :
  exists pairs,
    find_pairs [event ITC_SEND 5 0] ∅ = Return pairs
    /\ pairs !! 0%nat = None.
Proof.
  destruct (pairing_total [event ITC_SEND 5 0]) as [_ H].
  destruct H as (pairs & Hp & Hun).
  - constructor; [|constructor].
    eexists. vm_compute. reflexivity.
  - exists pairs. split; [exact Hp|].
    apply (Hun 0%nat (event ITC_SEND 5 0)); try reflexivity.
    intros r Hr Ht. apply list_elem_of_singleton in Hr. subst r. discriminate Ht.
Defined.

(** C9, as stated, fails on a decoded trace: two lines of a text trace
    whose seconds are 2^1024 decode to a send and a receive of one key, and
    comparing their timestamps raises [OverflowError]. *)
Lemma pairing_overflow :
  exists es, read_text [huge_send; huge_recv] = Return es
             /\ find_pairs es ∅ = Raise OverflowError.
Proof.
  eexists. split.
  - vm_compute. reflexivity.
  - vm_compute. reflexivity.
Qed.

(** ** The identifier filter *)

Lemma keep_subseteq matcher (ids : gset Z) : keep matcher ids ⊆ ids.
Proof. unfold keep. intros x Hx. now apply elem_of_filter in Hx. Qed.

Lemma filter_step_subset re_compile idset idmap st tok st' :
  st.1 ⊆ idset /\ st.2 ⊆ idset ->
  filter_step re_compile idset idmap st tok = Return st' ->
  st'.1 ⊆ idset /\ st'.2 ⊆ idset.
Proof.
  destruct st as [selected unselected], tok as [matchNum m].
  cbn [fst snd filter_step]. intros [Hs Hu] H.
  apply obind_Return in H as (matcher & _ & H).
  pose proof (keep_subseteq matcher idset) as Hk.
  assert (Hsel : (if decide (matchNum = 1%nat /\ m !! "ex" <> Some "-")
                  then ∅ else selected) ⊆ idset).
  { destruct (decide (matchNum = 1%nat /\ m !! "ex" <> Some "-"));
      [apply empty_subseteq|exact Hs]. }
  revert H Hsel.
  generalize (if decide (matchNum = 1%nat /\ m !! "ex" <> Some "-")
              then ∅ else selected).
  intros sel H Hsel.
  pose proof (keep_subseteq matcher sel) as Hk'.
  destruct (decide (m !! "ex" = Some "-")).
  - injection H as <-. cbn [fst snd]. split.
    + intros x Hx. apply elem_of_difference in Hx as [Hx _]. now apply Hsel.
    + now apply union_least.
  - destruct (decide (m !! "ex" = Some "~")); injection H as <-; cbn [fst snd].
    + split; [now transitivity sel|exact Hu].
    + split; [now apply union_least|exact Hu].
Qed.

(** C10. Whatever the filter expression, the universe of ids, the name map
    and the behaviour of the regular expressions, both sets that
    [filter_ids] returns, the selected and the explicitly excluded ids,
    are subsets of the universe. *)
Theorem filter_ids_subset (re_compile : string -> option (string -> bool))
    (filter : string) (idset : gset Z) (idmap : gmap Z string)
    (selected unselected : gset Z) :
  filter_ids re_compile filter idset idmap = Return (selected, unselected) ->
  selected ⊆ idset /\ unselected ⊆ idset.
Proof.
  unfold filter_ids. destruct (decide (filter = EmptyString)) as [_|_].
  - intros H. injection H as <- <-. split; [reflexivity|apply empty_subseteq].
  - intros H.
    apply (ofold_invariant (fun st => st.1 ⊆ idset /\ st.2 ⊆ idset)) in H.
    + exact H.
    + intros s a s' _. apply filter_step_subset.
    + cbn. split; [reflexivity|apply empty_subseteq].
Qed.

Lemma filter_ids_subset_witness :
  ({[ 5 ]} : gset Z) ⊆ {[ 5; 300 ]} /\ ({[ 300 ]} : gset Z) ⊆ {[ 5; 300 ]}.
Proof.
  apply (filter_ids_subset Lit.compile "0-9, -300" {[ 5; 300 ]} ∅).
  vm_compute. reflexivity.
Defined.

Lemma example_tokenized : Re.finditer regex example_filter = example_tokens.
Proof. vm_compute. reflexivity. Qed.

Section Example.

Variable re_compile : string -> option (string -> bool).
Variable expr : string -> bool.
Hypothesis Hcompile : re_compile "cfm$" = Some expr.
Hypothesis Hfoo : expr "FOO_CFM" = true.
Hypothesis Hunknown : expr "<unknown>" = false.

Lemma matcher_1 :
  matcher_of re_compile example_names {[ "ex" := "-"; "str" := "cfm$" ]}
  = Return (by_name expr).
Proof.
  unfold matcher_of.
  replace (group _ "str") with (Some "cfm$") by (vm_compute; reflexivity).
  now rewrite Hcompile.
Qed.

Lemma matcher_2 :
  matcher_of re_compile example_names
             {[ "hex" := "0x17000"; "hex2" := "0x17fff" ]}
  = Return (in_range 0x17000 0x17fff).
Proof.
  unfold matcher_of.
  replace (group _ "str") with (@None string) by (vm_compute; reflexivity).
  replace (group _ "dec") with (@None string) by (vm_compute; reflexivity).
  replace (group _ "hex2") with (Some "0x17fff") by (vm_compute; reflexivity).
  replace (_ !! "hex") with (Some "0x17000") by (vm_compute; reflexivity).
  reflexivity.
Qed.

Lemma matcher_3 :
  matcher_of re_compile example_names {[ "ex" := "-"; "hex" := "0x17a34" ]}
  = Return (in_range 0x17a34 0x17a34).
Proof.
  unfold matcher_of.
  replace (group _ "str") with (@None string) by (vm_compute; reflexivity).
  replace (group _ "dec") with (@None string) by (vm_compute; reflexivity).
  replace (group _ "hex2") with (@None string) by (vm_compute; reflexivity).
  replace (_ !! "hex") with (Some "0x17a34") by (vm_compute; reflexivity).
  reflexivity.
Qed.

Lemma by_name_spec s :
  by_name expr s = if decide (s = 0x17000) then true else false.
Proof.
  unfold by_name, example_names. case_decide as E.
  - subst s. now rewrite lookup_singleton_eq.
  - rewrite lookup_singleton_ne by congruence. exact Hunknown.
Qed.

Lemma example_steps :
  filter_ids re_compile example_filter example_ids example_names
  = Return
      (let after_cfm := example_ids ∖ keep (by_name expr) example_ids in
       let after_range :=
         after_cfm ∪ keep (in_range 0x17000 0x17fff) example_ids in
       (after_range ∖ keep (in_range 0x17a34 0x17a34) after_range,
        (∅ ∪ keep (by_name expr) example_ids)
        ∪ keep (in_range 0x17a34 0x17a34) example_ids)).
Proof.
  unfold filter_ids. rewrite example_tokenized.
  destruct (decide (example_filter = EmptyString)) as [?|_]; [discriminate|].
  unfold example_tokens. cbn [imap ofold].
  unfold filter_step at 1. rewrite matcher_1.
  replace (_ !! "ex") with (Some "-") by (vm_compute; reflexivity).
  destruct (decide (1%nat = 1%nat /\ Some "-" <> Some "-")) as [[_ ?]|_];
    [congruence|].
  destruct (decide (Some "-" = Some "-")) as [_|?]; [|congruence].
  cbn [obind].
  unfold filter_step at 1. cbn [compose]. rewrite matcher_2.
  replace (_ !! "ex") with (@None string) by (vm_compute; reflexivity).
  destruct (decide (2%nat = 1%nat /\ @None string <> Some "-")) as [[? _]|_];
    [congruence|].
  destruct (decide (@None string = Some "-")) as [?|_]; [congruence|].
  destruct (decide (@None string = Some "~")) as [?|_]; [congruence|].
  cbn [obind].
  unfold filter_step at 1. cbn [compose]. rewrite matcher_3.
  replace (_ !! "ex") with (Some "-") by (vm_compute; reflexivity).
  destruct (decide (3%nat = 1%nat /\ Some "-" <> Some "-")) as [[? _]|_];
    [congruence|].
  destruct (decide (Some "-" = Some "-")) as [_|?]; [|congruence].
  reflexivity.
Qed.

Lemma example_result :
  filter_ids re_compile example_filter example_ids example_names
  = Return ({[ 0x17000; 0x17001; 0x18000 ]}, {[ 0x17000; 0x17a34 ]}).
Proof.
  rewrite example_steps. cbv zeta.
  pose proof by_name_spec as Hname. clear Hcompile Hfoo Hunknown.
  f_equal. f_equal.
  - apply set_eq. intros x. unfold keep, example_ids.
    set_unfold. rewrite !Hname. unfold in_range.
    repeat case_decide; lia.
  - apply set_eq. intros x. unfold keep, example_ids.
    set_unfold. rewrite !Hname. unfold in_range.
    repeat case_decide; lia.
Qed.

End Example.

(** C1. For the filter [-cfm$, 0x17000-0x17fff, -0x17a34] over the
    universe [{0x17000, 0x17001, 0x17a34, 0x18000}], where only 0x17000 has
    a name, ["FOO_CFM"], the evaluation selects 0x17000, 0x17001 and
    0x18000 and records 0x17000 and 0x17a34 as explicitly excluded:
    0x17000 is excluded by its name but the range that follows selects it
    again, 0x17a34 is rejected by the last token, and 0x18000 stays selected
    because a filter that opens with a negation starts from the whole
    universe. The regular expression [cfm$] is only supposed to find a
    match in ["FOO_CFM"] and none in ["<unknown>"]. *)
Theorem filter_example (re_compile : string -> option (string -> bool))
    (expr : string -> bool) :
  re_compile "cfm$" = Some expr ->
  expr "FOO_CFM" = true ->
  expr "<unknown>" = false ->
  filter_ids re_compile example_filter example_ids example_names
  = Return ({[ 0x17000; 0x17001; 0x18000 ]}, {[ 0x17000; 0x17a34 ]}).
Proof. intros Hc Hf Hu. exact (example_result re_compile expr Hc Hf Hu). Qed.

Lemma filter_example_witness :
  filter_ids Lit.compile example_filter example_ids example_names
  = Return ({[ 0x17000; 0x17001; 0x18000 ]}, {[ 0x17000; 0x17a34 ]}).
Proof.
  eapply filter_example.
  - reflexivity.
  - vm_compute. reflexivity.
  - vm_compute. reflexivity.
Defined.

(** C1, as stated, fails: with a regular expression oracle that treats
    [cfm$] as Python does, the evaluation returns a selection in which
    0x17000 and 0x18000 are present, and 0x18000 is not among the
    explicitly excluded ids either. *)
Lemma filter_example_counterexample :
  exists r,
    filter_ids Lit.compile example_filter example_ids example_names = Return r
    /\ ~ example_expected r
    /\ 0x18000 ∈ r.1 ∖ r.2
    /\ 0x17000 ∈ r.1.
Proof.
  exists ({[ 0x17000; 0x17001; 0x18000 ]}, {[ 0x17000; 0x17a34 ]}).
  split; [vm_compute; reflexivity|].
  unfold example_expected. cbn [fst snd].
  split; [intros (_ & _ & _ & H); apply H; set_solver|].
  split; [|set_solver].
  apply elem_of_difference. split; [set_solver|].
  intros H. apply elem_of_union in H as [H|H];
    apply elem_of_singleton in H; discriminate H.
Qed.

(** * Further properties *)

(** ** The header scan, continued *)

Lemma read_spec n w d :
  drop (cursor w) (contents w) = d ->
  exists w1, read n w = Some (Return (take n d), w1)
             /\ drop (cursor w1) (contents w1) = drop n d
             /\ frame w w1.
Proof.
  intros Hd. unfold read. rewrite Hd. eexists. split; [reflexivity|].
  split; [|now split]. cbn [cursor contents].
  rewrite <- drop_drop, Hd, length_take.
  destruct (le_lt_dec n (length d)).
  - now rewrite Nat.min_l.
  - rewrite Nat.min_r by lia. now rewrite drop_all, drop_ge by lia.
Qed.

Lemma read_at n w l rest :
  drop (cursor w) (contents w) = l ++ rest -> length l = n ->
  read n w = Some (Return l, advance n w)
  /\ drop (cursor (advance n w)) (contents (advance n w)) = rest.
Proof.
  intros Hd Hl. unfold read, advance. rewrite Hd. cbn [contents cursor].
  rewrite take_app_length' by (now symmetry). rewrite Hl. split; [reflexivity|].
  rewrite <- drop_drop, Hd. now rewrite drop_app_length' by (now symmetry).
Qed.

Lemma scan_magic_S fuel data w :
  scan_magic (S fuel) data w
  = if decide (data = SHIP) then ret tt w
    else bind (read 4) (scan_magic fuel) w.
Proof. cbn [scan_magic]. now destruct (decide (data = SHIP)). Qed.

Lemma advance_advance n m w : advance n (advance m w) = advance (m + n) w.
Proof. unfold advance. cbn. f_equal. lia. Qed.

Lemma scan_magic_finds chunks :
  forall w data tail,
    data <> SHIP -> Forall junk chunks ->
    drop (cursor w) (contents w) = concat chunks ++ SHIP ++ tail ->
    let w' := advance (4 * length chunks + 4) w in
    scan_magic (S (S (length chunks))) data w = Some (Return tt, w')
    /\ drop (cursor w') (contents w') = tail.
Proof.
  induction chunks as [|c cs IH]; intros w data tail Hdata Hj Hd.
  - cbn [concat app] in Hd.
    destruct (read_at 4 w SHIP tail Hd eq_refl) as [Hr Hd'].
    cbn [length]. rewrite scan_magic_S.
    destruct (decide (data = SHIP)); [contradiction|].
    unfold bind. rewrite Hr, scan_magic_S.
    destruct (decide (SHIP = SHIP)); [|contradiction].
    split; [reflexivity|exact Hd'].
  - apply Forall_cons in Hj as [[Hlen Hne] Hj].
    cbn [concat] in Hd. rewrite <- app_assoc in Hd.
    destruct (read_at 4 w c _ Hd Hlen) as [Hr Hd'].
    cbn [length]. rewrite scan_magic_S.
    destruct (decide (data = SHIP)); [contradiction|].
    unfold bind. rewrite Hr.
    destruct (IH _ c tail Hne Hj Hd') as [Hs Ht].
    rewrite advance_advance in Hs, Ht.
    replace (4 * S (length cs) + 4)%nat with (4 + (4 * length cs + 4))%nat
      by lia.
    split; [exact Hs|exact Ht].
Qed.

Lemma find_ship_header_eq fuel w :
  find_ship_header fuel w
  = bind (read 4) (fun data => bind (scan_magic fuel data)
                                     (fun _ => header_tail)) w.
Proof. reflexivity. Qed.

(** After leading chunks that are not the magic, the scan stops just past
    the magic. *)
Lemma find_ship_header_scan chunks tail :
  Forall junk chunks ->
  let bs := concat chunks ++ SHIP ++ tail in
  let w := advance (4 * length chunks + 4) (open bs) in
  find_ship_header (S (length chunks)) (open bs) = header_tail w
  /\ drop (cursor w) (contents w) = tail.
Proof.
  intros Hj bs w. rewrite find_ship_header_eq.
  destruct chunks as [|c cs].
  - destruct (read_at 4 (open bs) SHIP tail) as [Hr Hd]; [reflexivity..|].
    unfold bind at 1. rewrite Hr. unfold bind at 1. cbn [length].
    rewrite scan_magic_S.
    destruct (decide (SHIP = SHIP)); [|contradiction]. unfold ret at 1.
    split; [reflexivity|exact Hd].
  - apply Forall_cons in Hj as [[Hlen Hne] Hj].
    destruct (read_at 4 (open bs) c (concat cs ++ SHIP ++ tail))
      as [Hr Hd]; [subst bs; cbn; now rewrite <- app_assoc|exact Hlen|].
    unfold bind at 1. rewrite Hr. unfold bind at 1. cbn [length].
    destruct (scan_magic_finds cs _ c _ Hne Hj Hd) as [Hs Ht].
    rewrite Hs. rewrite advance_advance in Ht. subst w.
    rewrite advance_advance. cbn [length].
    replace (4 * S (length cs) + 4)%nat with (4 + (4 * length cs + 4))%nat
      by lia.
    split; [reflexivity|exact Ht].
Qed.

Lemma header_tail_at w b0 b1 v0 v1 rest :
  drop (cursor w) (contents w) = b0 :: b1 :: v0 :: v1 :: rest ->
  header_tail w = Some (Return (classify b0 b1 v0 v1), advance 4 w).
Proof.
  intros Hd. unfold header_tail.
  destruct (read_at 2 w [b0; b1] (v0 :: v1 :: rest) Hd eq_refl) as [Hr1 Hd1].
  destruct (read_at 2 (advance 2 w) [v0; v1] rest Hd1 eq_refl) as [Hr2 _].
  unfold bind at 1. rewrite Hr1. unfold bind at 1, lift at 1.
  change (unpack1 LE fH [b0; b1]) with (Return (uint LE [b0; b1])).
  cbv beta iota zeta. unfold bind at 1. rewrite Hr2.
  unfold bind at 1, lift at 1. unfold classify.
  set (endian := if (uint LE [b0; b1] =? 65279) || (uint LE [b0; b1] =? 1)
                 then LE else BE).
  change (unpack1 endian fH [v0; v1]) with (Return (uint endian [v0; v1])).
  cbv beta iota zeta.
  assert (Ha : advance 2 (advance 2 w) = advance 4 w).
  { unfold advance. cbn. f_equal. lia. }
  rewrite Ha.
  destruct ((uint endian [v0; v1] =? 1) || (uint endian [v0; v1] =? 0));
    [reflexivity|].
  destruct (uint endian [v0; v1] =? 2); reflexivity.
Qed.

(** With fewer than four bytes after the magic, one of the two
    [struct.unpack] calls raises. *)
Lemma header_tail_short w t :
  drop (cursor w) (contents w) = t -> (length t < 4)%nat ->
  exists w', header_tail w = Some (Raise StructError, w') /\ frame w w'.
Proof.
  intros Hd Hl. unfold header_tail.
  destruct (read_spec 2 w t Hd) as (w1 & Hr1 & Hd1 & Hf1).
  destruct (read_spec 2 w1 _ Hd1) as (w2 & Hr2 & _ & Hf2).
  assert (Hf : frame w w2) by (destruct Hf1, Hf2; split; congruence).
  unfold bind at 1. rewrite Hr1. unfold bind at 1, lift at 1.
  destruct t as [|a [|b t]].
  - exists w1. split; [reflexivity|exact Hf1].
  - exists w1. split; [reflexivity|exact Hf1].
  - change (unpack1 LE fH (take 2 (a :: b :: t)))
      with (@Return Z (uint LE [a; b])).
    cbv beta iota zeta. unfold bind at 1. rewrite Hr2.
    unfold bind at 1, lift at 1.
    destruct t as [|c [|d t]]; [| |cbn in Hl; lia].
    + exists w2. split; [|exact Hf].
      now destruct ((uint LE [a; b] =? 65279) || (uint LE [a; b] =? 1)).
    + exists w2. split; [|exact Hf].
      now destruct ((uint LE [a; b] =? 65279) || (uint LE [a; b] =? 1)).
Qed.

Lemma header_tail_returns w : exists r, header_tail w = Some r.
Proof.
  unfold header_tail, bind, read, lift, ret.
  repeat match goal with
         | |- context [match ?m with _ => _ end] => destruct m
         end; eauto.
Qed.

(** *** More iterations do not change a result *)

Lemma scan_magic_mono fuel :
  forall data w r fuel',
    scan_magic fuel data w = Some r -> (fuel <= fuel')%nat ->
    scan_magic fuel' data w = Some r.
Proof.
  induction fuel as [|fuel IH]; intros data w r fuel' H Hle; [discriminate|].
  destruct fuel' as [|fuel']; [lia|].
  rewrite scan_magic_S in *. destruct (decide (data = SHIP)); [exact H|].
  unfold bind, read in *. eapply IH; [exact H|lia].
Qed.

Lemma find_ship_header_mono fuel fuel' w r :
  find_ship_header fuel w = Some r -> (fuel <= fuel')%nat ->
  find_ship_header fuel' w = Some r.
Proof.
  rewrite !find_ship_header_eq. unfold bind at 1 3, read. unfold bind.
  intros H Hle.
  destruct (scan_magic fuel _ _) as [s|] eqn:Es; [|discriminate].
  now rewrite (scan_magic_mono _ _ _ _ _ Es Hle).
Qed.

Lemma read_binary_mono fuel fuel' path keep_zeros w r :
  read_binary fuel path keep_zeros w = Some r -> (fuel <= fuel')%nat ->
  read_binary fuel' path keep_zeros w = Some r.
Proof.
  intros H Hle. unfold read_binary in *. unfold bind at 1 in H. unfold bind at 1.
  destruct (find_ship_header fuel w) as [h|] eqn:Eh; [|discriminate].
  now rewrite (find_ship_header_mono _ _ _ _ Eh Hle).
Qed.

Lemma clear_file_mono fuel fuel' path w r :
  clear_file fuel path w = Some r -> (fuel <= fuel')%nat ->
  clear_file fuel' path w = Some r.
Proof.
  intros H Hle. unfold clear_file in *. unfold bind at 1 in H. unfold bind at 1.
  destruct (find_ship_header fuel w) as [h|] eqn:Eh; [|discriminate].
  now rewrite (find_ship_header_mono _ _ _ _ Eh Hle).
Qed.

(** *** Which files the scan gets through *)

Lemma read_chunk w :
  on_chunk w ->
  exists data w', read 4 w = Some (Return data, w')
                  /\ contents w' = contents w /\ on_chunk w'
                  /\ (data = SHIP -> aligned_magic (contents w)).
Proof.
  intros Hon. eexists _, _. split; [reflexivity|]. cbn [contents cursor].
  split; [reflexivity|].
  destruct Hon as [[k Hk]|Hend].
  - split.
    + destruct (decide (length (take 4 (drop (cursor w) (contents w))) = 4%nat))
        as [E|E].
      * left. exists (S k). cbn [cursor]. rewrite E, Hk. lia.
      * right. cbn [cursor contents]. rewrite length_take, length_drop in *. lia.
    + intros H. exists k. now rewrite <- Hk.
  - rewrite drop_ge by exact Hend. cbn. split; [|discriminate].
    right. cbn. lia.
Qed.

Lemma scan_magic_aligned fuel :
  forall data w r,
    scan_magic fuel data w = Some r -> on_chunk w ->
    data = SHIP \/ aligned_magic (contents w).
Proof.
  induction fuel as [|fuel IH]; intros data w r H Hon; [discriminate|].
  rewrite scan_magic_S in H. destruct (decide (data = SHIP)); [now left|].
  destruct (read_chunk w Hon) as (d & w' & Hr & Hc & Hon' & Hd).
  unfold bind in H. rewrite Hr in H. right.
  destruct (IH _ _ _ H Hon') as [E|E]; [now apply Hd|now rewrite <- Hc].
Qed.

Lemma find_ship_header_aligned fuel bs r :
  find_ship_header fuel (open bs) = Some r -> aligned_magic bs.
Proof.
  rewrite find_ship_header_eq. intros H.
  destruct (read_chunk (open bs)) as (d & w' & Hr & Hc & Hon' & Hd).
  { left. now exists 0%nat. }
  unfold bind at 1 in H. rewrite Hr in H. unfold bind in H.
  destruct (scan_magic fuel d w') as [s|] eqn:Es; [|discriminate].
  destruct (scan_magic_aligned _ _ _ _ Es Hon') as [E|E];
    [now apply Hd|now rewrite Hc in E].
Qed.

Lemma find_ship_header_unaligned fuel bs :
  ~ aligned_magic bs -> find_ship_header fuel (open bs) = None.
Proof.
  intros Hno. destruct (find_ship_header fuel (open bs)) as [r|] eqn:E;
    [|reflexivity].
  elim Hno. eapply find_ship_header_aligned, E.
Qed.

(** A file with the magic on the grid is made of chunks that are not the
    magic, the magic, and the rest. *)
Lemma aligned_magic_split bs :
  aligned_magic bs ->
  exists chunks tail, Forall junk chunks /\ bs = concat chunks ++ SHIP ++ tail.
Proof.
  intros [k Hk]. revert bs Hk.
  induction k as [|k IH]; intros bs Hk.
  - exists [], (drop 4 bs). split; [constructor|].
    cbn [concat app Nat.mul drop] in *. now rewrite <- Hk, take_drop.
  - destruct (decide (take 4 bs = SHIP)) as [E|E].
    + exists [], (drop 4 bs). split; [constructor|].
      cbn [concat app]. now rewrite <- E, take_drop.
    + replace (4 * S k)%nat with (4 + 4 * k)%nat in Hk by lia.
      rewrite <- drop_drop in Hk.
      destruct (IH _ Hk) as (chunks & tail & Hj & Hbs).
      exists (take 4 bs :: chunks), tail. split.
      * constructor; [|exact Hj]. split; [|exact E].
        rewrite length_take. apply Nat.min_l.
        assert (Hl : length (take 4 (drop (4 * k) (drop 4 bs))) = 4%nat)
          by now rewrite Hk.
        rewrite length_take, !length_drop in Hl. lia.
      * cbn [concat]. rewrite <- app_assoc, <- Hbs. now rewrite take_drop.
Qed.

(** X1. The magic is only looked for at offsets that are multiples of four:
    on a file where no such offset holds [SHIP] (the magic may well be
    there, at another offset) the loop of [find_ship_header] is still
    running after any number of iterations, and so are [clear_file] and
    [read_binary]. *)
Theorem magic_off_grid_never_found (bs : list byte) (fuel : nat)
    (path : string) (keep_zeros : bool) :
  ~ aligned_magic bs ->
  find_ship_header fuel (open bs) = None
  /\ clear_file fuel path (open bs) = None
  /\ read_binary fuel path keep_zeros (open bs) = None.
Proof.
  intros Hno.
  assert (H : find_ship_header fuel (open bs) = None)
    by now apply find_ship_header_unaligned.
  unfold clear_file, read_binary, bind. rewrite H. auto.
Qed.

Lemma magic_off_grid_never_found_witness :
  read_binary 1000 "f" false (open (x00 :: le_header x02 ++ v2_record_at_5))
  = None.
Proof.
  apply (magic_off_grid_never_found
           (x00 :: le_header x02 ++ v2_record_at_5) 1000 "f" false).
  intros [k Hk].
  do 12 (destruct k as [|k]; [discriminate Hk|]).
  rewrite drop_ge in Hk by (cbn; lia). discriminate Hk.
Defined.

(** X2. The header scan comes to an end, with a result or an exception,
    exactly on the files that hold the magic at an offset that is a
    multiple of four. *)
Theorem header_scan_ends_iff_aligned (bs : list byte) :
  (exists fuel r, find_ship_header fuel (open bs) = Some r)
  <-> aligned_magic bs.
Proof.
  split.
  - intros (fuel & r & H). eapply find_ship_header_aligned, H.
  - intros H. destruct (aligned_magic_split bs H) as (chunks & tail & Hj & ->).
    destruct (find_ship_header_scan chunks tail Hj) as [Hs _].
    cbv zeta in Hs.
    destruct (header_tail_returns
                (advance (4 * length chunks + 4)
                         (open (concat chunks ++ SHIP ++ tail)))) as [r Hr].
    exists (S (length chunks)), r. now rewrite Hs.
Qed.

Lemma find_ship_header_found (chunks : list (list byte)) (b0 b1 v0 v1 : byte)
    (rest : list byte) (fuel : nat) :
  Forall junk chunks -> (length chunks < fuel)%nat ->
  let bs := concat chunks ++ SHIP ++ b0 :: b1 :: v0 :: v1 :: rest in
  find_ship_header fuel (open bs)
  = Some (Return (classify b0 b1 v0 v1),
          advance (4 * length chunks + 8) (open bs)).
Proof.
  intros Hj Hfuel bs.
  destruct (find_ship_header_scan chunks (b0 :: b1 :: v0 :: v1 :: rest) Hj)
    as [Hs Hd]. cbv zeta in Hs, Hd. fold bs in Hs, Hd.
  rewrite (header_tail_at _ b0 b1 v0 v1 rest Hd), advance_advance in Hs.
  replace (4 * length chunks + 4 + 4)%nat with (4 * length chunks + 8)%nat
    in Hs by lia.
  eapply find_ship_header_mono; [exact Hs|lia].
Qed.

(** X3. When the magic comes after [n] chunks of four bytes that are not
    the magic, [n + 1] iterations (or more) find it; the two bytes after it
    give the byte order and the next two the version, and the cursor is left
    just past these eight bytes. *)
Theorem header_found (chunks : list (list byte)) (b0 b1 v0 v1 : byte)
    (rest : list byte) (fuel : nat) :
  Forall junk chunks -> (length chunks < fuel)%nat ->
  let bs := concat chunks ++ SHIP ++ b0 :: b1 :: v0 :: v1 :: rest in
  find_ship_header fuel (open bs)
  = Some (Return (classify b0 b1 v0 v1),
          advance (4 * length chunks + 8) (open bs)).
Proof. exact (find_ship_header_found chunks b0 b1 v0 v1 rest fuel). Qed.

Lemma header_found_witness :
  find_ship_header 5 (open ([x41; x42; x43; x44] ++ SHIP
                            ++ [xfe; xff; x00; x02; x07]))
  = Some (Return (true, BE, 2),
          {| contents := [x41; x42; x43; x44] ++ SHIP
                         ++ [xfe; xff; x00; x02; x07];
             cursor := 12; stderr := [] |}).
Proof.
  apply (header_found [[x41; x42; x43; x44]] xfe xff x00 x02 [x07] 5).
  - constructor; [|constructor]. split; [reflexivity|discriminate].
  - cbn. lia.
Defined.

(** X4. A file that ends less than four bytes after the magic makes
    [struct.unpack] raise: [find_ship_header] raises [struct.error], and so
    do [read_binary] and [clear_file], which leaves the file as it is. *)
Theorem truncated_header_raises (chunks : list (list byte)) (t : list byte)
    (fuel : nat) (path : string) (keep_zeros : bool) :
  Forall junk chunks -> (length t < 4)%nat -> (length chunks < fuel)%nat ->
  let bs := concat chunks ++ SHIP ++ t in
  exists w, frame (open bs) w
    /\ find_ship_header fuel (open bs) = Some (Raise StructError, w)
    /\ read_binary fuel path keep_zeros (open bs) = Some (Raise StructError, w)
    /\ clear_file fuel path (open bs) = Some (Raise StructError, w).
Proof.
  intros Hj Hl Hfuel bs.
  destruct (find_ship_header_scan chunks t Hj) as [Hs Hd].
  cbv zeta in Hs, Hd. fold bs in Hs, Hd.
  destruct (header_tail_short _ t Hd Hl) as (w & Hw & Hf).
  rewrite Hw in Hs.
  assert (H : find_ship_header fuel (open bs) = Some (Raise StructError, w))
    by (eapply find_ship_header_mono; [exact Hs|lia]).
  exists w. split; [exact Hf|]. split; [exact H|].
  unfold read_binary, clear_file, bind. now rewrite H.
Qed.

Lemma truncated_header_raises_witness :
  exists w, contents w = SHIP ++ [xff; xfe; x02]
    /\ clear_file 1 "f" (open (SHIP ++ [xff; xfe; x02]))
       = Some (Raise StructError, w).
Proof.
  destruct (truncated_header_raises [] [xff; xfe; x02] 1 "f" false)
    as (w & [Hc _] & _ & _ & H).
  - constructor.
  - cbn. lia.
  - cbn. lia.
  - exists w. split; [exact Hc|exact H].
Defined.

(** ** Decoding and clearing whole files *)

Lemma classify_valid b0 b1 v0 v1 e v :
  classify b0 b1 v0 v1 = (true, e, v) -> v = 1 \/ v = 2.
Proof.
  unfold classify.
  repeat match goal with
         | |- context [if ?c then _ else _] => destruct c
         end; intros [= <- <-]; auto.
Qed.

Lemma length_junk chunks :
  Forall junk chunks -> length (concat chunks) = (length chunks * 4)%nat.
Proof.
  intros Hj. apply length_concat_uniform.
  eapply Forall_impl; [exact Hj|]. now intros ? [? _].
Qed.

Lemma length_prefix chunks (h rest : list byte) :
  Forall junk chunks -> length h = 4%nat ->
  length (concat chunks ++ SHIP ++ h ++ rest)
  = (4 * length chunks + 8 + length rest)%nat.
Proof.
  intros Hj Hh. rewrite !length_app, (length_junk _ Hj), Hh. cbn. lia.
Qed.

Lemma drop_prefix chunks (h rest : list byte) :
  Forall junk chunks -> length h = 4%nat ->
  drop (4 * length chunks + 8) (concat chunks ++ SHIP ++ h ++ rest) = rest.
Proof.
  intros Hj Hh.
  replace (concat chunks ++ SHIP ++ h ++ rest)
    with ((concat chunks ++ SHIP ++ h) ++ rest)
    by (now rewrite <- !app_assoc).
  apply drop_app_length'. rewrite !length_app, (length_junk _ Hj), Hh.
  cbn. lia.
Qed.

Lemma take_prefix chunks (h rest : list byte) :
  Forall junk chunks -> length h = 4%nat ->
  take (4 * length chunks + 8) (concat chunks ++ SHIP ++ h ++ rest)
  = concat chunks ++ SHIP ++ h.
Proof.
  intros Hj Hh.
  replace (concat chunks ++ SHIP ++ h ++ rest)
    with ((concat chunks ++ SHIP ++ h) ++ rest)
    by (now rewrite <- !app_assoc).
  apply take_app_length'. rewrite !length_app, (length_junk _ Hj), Hh.
  cbn. lia.
Qed.

Lemma read_binary_records chunks b0 b1 v0 v1 e v recs path keep_zeros :
  Forall junk chunks ->
  classify b0 b1 v0 v1 = (true, e, v) ->
  Forall (fun r => length r = record_size v) recs ->
  let bs := concat chunks ++ SHIP ++ [b0; b1; v0; v1] ++ concat recs in
  read_binary (S (length chunks)) path keep_zeros (open bs)
  = Some (Return (filter (fun x => kept keep_zeros x = true)
                         (map (layout v e) recs)),
          advance (length bs) (open bs)).
Proof.
  intros Hj Hc Hrecs bs.
  pose proof (classify_valid _ _ _ _ _ _ Hc) as Hv.
  pose proof (find_ship_header_found chunks b0 b1 v0 v1 (concat recs)
                (S (length chunks)) Hj (Nat.lt_succ_diag_r _)) as Hf.
  cbv zeta in Hf. change (b0 :: b1 :: v0 :: v1 :: concat recs)
    with ([b0; b1; v0; v1] ++ concat recs) in Hf. fold bs in Hf.
  unfold read_binary, bind at 1. rewrite Hf, Hc. cbn [negb].
  pose proof (drop_prefix chunks [b0; b1; v0; v1] (concat recs) Hj eq_refl)
    as Hd. fold bs in Hd.
  pose proof (length_prefix chunks [b0; b1; v0; v1] (concat recs) Hj eq_refl)
    as Hl. fold bs in Hl.
  destruct Hv as [-> | ->]; cbn [Z.eqb Pos.eqb];
    unfold bind, read_all, lift, ret, advance, open;
    cbn [contents cursor stderr]; rewrite Nat.add_0_l, Hd.
  - rewrite iter_unpack_records by (exact Hrecs || discriminate).
    rewrite (collect_layout entry_v1 keep_zeros _ (layout_v1 e))
      by (eapply Forall_impl; [exact Hrecs|]; intros r Hr;
          now apply entry_v1_layout).
    rewrite Hl. reflexivity.
  - rewrite iter_unpack_records by (exact Hrecs || discriminate).
    rewrite (collect_layout entry_v2 keep_zeros _ (layout_v2 e))
      by (eapply Forall_impl; [exact Hrecs|]; intros r Hr;
          now apply entry_v2_layout).
    rewrite Hl. reflexivity.
Qed.

Lemma read_binary_decoded (chunks : list (list byte)) (b0 b1 v0 v1 : byte)
    (e : endian) (v : Z) (recs : list (list byte)) (fuel : nat)
    (path : string) (keep_zeros : bool) :
  Forall junk chunks ->
  classify b0 b1 v0 v1 = (true, e, v) ->
  Forall (fun r => length r = record_size v) recs ->
  (length chunks < fuel)%nat ->
  let bs := concat chunks ++ SHIP ++ [b0; b1; v0; v1] ++ concat recs in
  read_binary fuel path keep_zeros (open bs)
  = Some (Return (filter (fun x => kept keep_zeros x = true)
                         (map (layout v e) recs)),
          {| contents := bs; cursor := length bs; stderr := [] |}).
Proof.
  intros Hj Hc Hrecs Hfuel bs.
  eapply read_binary_mono; [|exact Hfuel].
  exact (read_binary_records chunks b0 b1 v0 v1 e v recs path keep_zeros
           Hj Hc Hrecs).
Qed.

(** X5. A file made of any number of four-byte chunks that are not the
    magic, the magic, a byte-order mark and a supported version, and whole
    records is decoded from end to end: every record gives its layout, the
    unwritten ones are dropped unless [keep_zeros], the whole file is read
    and nothing is reported. *)
Theorem file_decoded (chunks : list (list byte)) (b0 b1 v0 v1 : byte)
    (e : endian) (v : Z) (recs : list (list byte)) (fuel : nat)
    (path : string) (keep_zeros : bool) :
  Forall junk chunks ->
  classify b0 b1 v0 v1 = (true, e, v) ->
  Forall (fun r => length r = record_size v) recs ->
  (length chunks < fuel)%nat ->
  let bs := concat chunks ++ SHIP ++ [b0; b1; v0; v1] ++ concat recs in
  read_binary fuel path keep_zeros (open bs)
  = Some (Return (filter (fun x => kept keep_zeros x = true)
                         (map (layout v e) recs)),
          {| contents := bs; cursor := length bs; stderr := [] |}).
Proof.
  exact (read_binary_decoded chunks b0 b1 v0 v1 e v recs fuel path keep_zeros).
Qed.

Lemma file_decoded_witness :
  read_binary 2 "f" false
    (open ([x41; x42; x43; x44] ++ SHIP ++ [xfe; xff; x00; x02]
           ++ v2_unwritten ++ v2_record_at_5))
  = Some (Return [layout_v2 BE v2_record_at_5],
          {| contents := [x41; x42; x43; x44] ++ SHIP ++ [xfe; xff; x00; x02]
                         ++ v2_unwritten ++ v2_record_at_5;
             cursor := 84; stderr := [] |}).
Proof.
  apply (file_decoded [[x41; x42; x43; x44]] xfe xff x00 x02 BE 2
           [v2_unwritten; v2_record_at_5] 2 "f" false).
  - constructor; [|constructor]. split; [reflexivity|discriminate].
  - reflexivity.
  - repeat constructor.
  - cbn. lia.
Defined.

Lemma collect_keep mk tuples :
  collect mk false tuples
  = filter (fun e => seconds e <> 0) (collect mk true tuples).
Proof.
  unfold collect. induction tuples as [|t tuples IH]; [reflexivity|].
  cbn [flat_map]. rewrite IH. destruct (mk t) as [e|]; [|reflexivity].
  unfold kept. rewrite orb_true_r, orb_false_r. cbn [app].
  destruct (Z.eqb_spec (seconds e) 0) as [E|E]; cbn [negb app].
  - now rewrite filter_cons_False by (intros H; now apply H).
  - now rewrite filter_cons_True by exact E.
Qed.

(** X6. What [read_binary] returns without [keep_zeros] is what it returns
    with [keep_zeros] less the entries whose seconds are 0, in the same
    order, and the two calls leave the file and stderr in the same state. *)
Theorem read_binary_keep_zeros (fuel : nat) (path : string) (w w' : world)
    (es : list entry) :
  read_binary fuel path true w = Some (Return es, w') ->
  read_binary fuel path false w
  = Some (Return (filter (fun e => seconds e <> 0) es), w').
Proof.
  unfold read_binary, bind, read_all, lift, ret, print_stderr.
  destruct (find_ship_header fuel w) as [[[[[ok e] v]|ex] w1]|]; try discriminate.
  destruct ok; cbn [negb].
  - destruct (v =? 1).
    + destruct (iter_unpack e v1_format _); [|discriminate].
      intros H. injection H as <- <-. now rewrite collect_keep.
    + destruct (v =? 2).
      * destruct (iter_unpack e v2_format _); [|discriminate].
        intros H. injection H as <- <-. now rewrite collect_keep.
      * intros H. injection H as <- <-. reflexivity.
  - intros H. injection H as <- <-. reflexivity.
Qed.

Lemma read_binary_keep_zeros_witness :
  fst <$> read_binary 1 "f" false
            (open (le_header x02 ++ v2_unwritten ++ v2_record_at_5))
  = Some (Return [layout_v2 LE v2_record_at_5]).
Proof.
  rewrite (read_binary_keep_zeros 1 "f"
             (open (le_header x02 ++ v2_unwritten ++ v2_record_at_5))
             {| contents := le_header x02 ++ v2_unwritten ++ v2_record_at_5;
                cursor := 80; stderr := [] |}
             [layout_v2 LE v2_unwritten; layout_v2 LE v2_record_at_5]).
  - vm_compute. reflexivity.
  - vm_compute. reflexivity.
Defined.

(** X7. A version other than 0, 1 and 2 is refused: [read_binary] returns no
    entry and [clear_file] returns without writing; each prints
    "... is not a valid ship file" on stderr. *)
Theorem unsupported_version_refused (chunks : list (list byte))
    (b0 b1 v0 v1 : byte) (e : endian) (v : Z) (rest : list byte) (fuel : nat)
    (path : string) (keep_zeros : bool) :
  Forall junk chunks ->
  classify b0 b1 v0 v1 = (false, e, v) ->
  (length chunks < fuel)%nat ->
  let bs := concat chunks ++ SHIP ++ [b0; b1; v0; v1] ++ rest in
  let w := {| contents := bs; cursor := (4 * length chunks + 8)%nat;
              stderr := [invalid_msg path] |} in
  read_binary fuel path keep_zeros (open bs) = Some (Return [], w)
  /\ clear_file fuel path (open bs) = Some (Return tt, w).
Proof.
  intros Hj Hc Hfuel bs w.
  pose proof (find_ship_header_found chunks b0 b1 v0 v1 rest fuel Hj Hfuel) as Hf.
  cbv zeta in Hf. change (b0 :: b1 :: v0 :: v1 :: rest)
    with ([b0; b1; v0; v1] ++ rest) in Hf. fold bs in Hf.
  split.
  - unfold read_binary, bind at 1. rewrite Hf, Hc. reflexivity.
  - unfold clear_file, bind at 1. rewrite Hf, Hc. reflexivity.
Qed.

Lemma unsupported_version_refused_witness :
  read_binary 1 "f" false (open (le_header x03 ++ v2_record_at_5))
  = Some (Return [],
          {| contents := le_header x03 ++ v2_record_at_5; cursor := 8;
             stderr := ["f is not a valid ship file"] |}).
Proof.
  apply (unsupported_version_refused [] xff xfe x03 x00 LE 0 v2_record_at_5
           1 "f" false).
  - constructor.
  - reflexivity.
  - cbn. lia.
Defined.

Lemma clear_file_cleared (chunks : list (list byte)) (b0 b1 v0 v1 : byte)
    (e : endian) (v : Z) (rest : list byte) (fuel : nat) (path : string) :
  Forall junk chunks ->
  classify b0 b1 v0 v1 = (true, e, v) ->
  (length chunks < fuel)%nat ->
  let pre := concat chunks ++ SHIP ++ [b0; b1; v0; v1] in
  clear_file fuel path (open (pre ++ rest))
  = Some (Return tt,
          {| contents := pre ++ repeat x00 (length rest);
             cursor := length (pre ++ rest); stderr := [] |}).
Proof.
  intros Hj Hc Hfuel pre.
  pose proof (find_ship_header_found chunks b0 b1 v0 v1 rest fuel Hj Hfuel) as Hf.
  cbv zeta in Hf.
  replace (concat chunks ++ SHIP ++ b0 :: b1 :: v0 :: v1 :: rest)
    with (pre ++ rest) in Hf by (subst pre; now rewrite <- !app_assoc).
  assert (Hpre : length pre = (4 * length chunks + 8)%nat).
  { subst pre. rewrite !length_app, (length_junk _ Hj). cbn. lia. }
  unfold clear_file, bind at 1. rewrite Hf, Hc. cbn [negb].
  unfold bind, st_size, tell, write, advance, open.
  cbn [contents cursor stderr]. rewrite Nat.add_0_l, repeat_length.
  rewrite length_app, <- Hpre.
  replace (length pre + length rest - length pre)%nat with (length rest)
    by lia.
  rewrite take_app_length, drop_ge by (rewrite length_app; lia).
  now rewrite app_nil_r.
Qed.

(** X8. [clear_file] on a file with a supported header keeps everything up
    to and including the header, overwrites every byte after it with zero,
    and leaves the length of the file as it was. *)
Theorem clear_file_zeroes (chunks : list (list byte)) (b0 b1 v0 v1 : byte)
    (e : endian) (v : Z) (rest : list byte) (fuel : nat) (path : string) :
  Forall junk chunks ->
  classify b0 b1 v0 v1 = (true, e, v) ->
  (length chunks < fuel)%nat ->
  let pre := concat chunks ++ SHIP ++ [b0; b1; v0; v1] in
  clear_file fuel path (open (pre ++ rest))
  = Some (Return tt,
          {| contents := pre ++ repeat x00 (length rest);
             cursor := length (pre ++ rest); stderr := [] |}).
Proof. exact (clear_file_cleared chunks b0 b1 v0 v1 e v rest fuel path). Qed.

Lemma clear_file_zeroes_witness :
  clear_file 1 "f" (open (le_header x02 ++ v2_record_at_5))
  = Some (Return tt,
          {| contents := le_header x02 ++ repeat x00 36; cursor := 44;
             stderr := [] |}).
Proof.
  apply (clear_file_zeroes [] xff xfe x02 x00 LE 2 v2_record_at_5 1 "f").
  - constructor.
  - reflexivity.
  - cbn. lia.
Defined.

Lemma repeat_concat_zero (size k : nat) :
  repeat x00 (k * size) = concat (repeat (repeat x00 size) k).
Proof.
  induction k as [|k IH]; [reflexivity|].
  cbn [Nat.mul repeat concat]. now rewrite repeat_app, IH.
Qed.

Lemma zero_record_dropped v e :
  v = 1 \/ v = 2 ->
  kept false (layout v e (repeat x00 (record_size v))) = false.
Proof. intros [-> | ->]; destruct e; reflexivity. Qed.

(** X9. A cleared file decodes to nothing: after [clear_file] on a file of
    [k] whole records, [read_binary] returns no entry, and with
    [keep_zeros] it returns [k] entries, all of them the layout of a record
    of zeros. *)
Theorem clear_then_read (chunks : list (list byte)) (b0 b1 v0 v1 : byte)
    (e : endian) (v : Z) (rest : list byte) (k fuel : nat) (path : string) :
  Forall junk chunks ->
  classify b0 b1 v0 v1 = (true, e, v) ->
  length rest = (k * record_size v)%nat ->
  (length chunks < fuel)%nat ->
  let pre := concat chunks ++ SHIP ++ [b0; b1; v0; v1] in
  exists w,
    clear_file fuel path (open (pre ++ rest)) = Some (Return tt, w)
    /\ fst <$> read_binary fuel path false (open (contents w))
       = Some (Return [])
    /\ fst <$> read_binary fuel path true (open (contents w))
       = Some (Return (repeat (layout v e (repeat x00 (record_size v))) k)).
Proof.
  intros Hj Hc Hrest Hfuel pre.
  eexists. split; [exact (clear_file_cleared chunks b0 b1 v0 v1 e v rest fuel
                            path Hj Hc Hfuel)|].
  cbn [contents]. rewrite Hrest, repeat_concat_zero.
  set (zero := repeat x00 (record_size v)).
  assert (Hz : Forall (fun r => length r = record_size v) (repeat zero k)).
  { apply Forall_forall. intros r Hr. apply list_elem_of_In, repeat_spec in Hr.
    subst r. apply repeat_length. }
  pose proof (fun kz => read_binary_decoded chunks b0 b1 v0 v1 e v (repeat zero k)
                          fuel path kz Hj Hc Hz Hfuel) as Hd.
  cbv zeta in Hd.
  replace (concat chunks ++ SHIP ++ [b0; b1; v0; v1] ++ concat (repeat zero k))
    with (pre ++ concat (repeat zero k)) in Hd
    by (subst pre; now rewrite <- !app_assoc).
  rewrite !Hd. cbn [fmap option_fmap option_map fst].
  pose proof (classify_valid _ _ _ _ _ _ Hc) as Hv.
  split; f_equal; f_equal.
  - clear Hd Hz Hrest. induction k as [|k IH]; [reflexivity|].
    cbn [repeat map]. rewrite filter_cons_False; [exact IH|].
    subst zero. now rewrite zero_record_dropped.
  - clear Hd Hz Hrest. induction k as [|k IH]; [reflexivity|].
    cbn [repeat map].
    rewrite filter_cons_True by (unfold kept; apply orb_true_r).
    now rewrite IH.
Qed.

Lemma clear_then_read_witness :
  exists w,
    clear_file 1 "f" (open (le_header x02 ++ v2_record_at_5))
    = Some (Return tt, w)
    /\ fst <$> read_binary 1 "f" false (open (contents w)) = Some (Return []).
Proof.
  destruct (clear_then_read [] xff xfe x02 x00 LE 2 v2_record_at_5 1 1 "f")
    as (w & Hc & Hr & _).
  - constructor.
  - reflexivity.
  - reflexivity.
  - cbn. lia.
  - exists w. split; [exact Hc|exact Hr].
Defined.

(** ** The range of the decoded fields *)

Lemma byte_to_Z_range b : 0 <= byte_to_Z b < 256.
Proof.
  unfold byte_to_Z. pose proof (Byte.to_N_bounded b). lia.
Qed.

Lemma le_uint_range bs : 0 <= le_uint bs < 256 ^ Z.of_nat (length bs).
Proof.
  induction bs as [|b bs IH]; [cbn; lia|].
  cbn [le_uint length]. rewrite Nat2Z.inj_succ, Z.pow_succ_r by lia.
  pose proof (byte_to_Z_range b). lia.
Qed.

Lemma uint_range e bs : 0 <= uint e bs < 256 ^ Z.of_nat (length bs).
Proof.
  destruct e; cbn [uint]; [apply le_uint_range|].
  rewrite <- (length_rev bs). apply le_uint_range.
Qed.

Lemma uint_u32 e bs : (length bs <= 4)%nat -> u32 (uint e bs).
Proof.
  intros H. pose proof (uint_range e bs) as Hr. unfold u32.
  assert (256 ^ Z.of_nat (length bs) <= 256 ^ 4)
    by (apply Z.pow_le_mono_r; lia).
  change (2 ^ 32) with (256 ^ 4). lia.
Qed.

Lemma sint_i32 e bs : (length bs <= 4)%nat -> i32 (sint e bs).
Proof.
  intros H. pose proof (uint_range e bs) as Hr. unfold i32, sint.
  cbv zeta.
  assert (Hm : 2 ^ (8 * Z.of_nat (length bs)) = 256 ^ Z.of_nat (length bs))
    by (rewrite Z.pow_mul_r by lia; reflexivity).
  rewrite Hm.
  assert (Hp : 1 <= 256 ^ Z.of_nat (length bs) <= 256 ^ 4).
  { split; [|apply Z.pow_le_mono_r; lia].
    pose proof (Z.pow_pos_nonneg 256 (Z.of_nat (length bs))). lia. }
  change (256 ^ 4) with 4294967296 in Hp. change (2 ^ 31) with 2147483648.
  revert Hr Hp. generalize (256 ^ Z.of_nat (length bs)) (uint e bs).
  intros m u Hr Hp.
  pose proof (Z.div_mod m 2). pose proof (Z.mod_pos_bound m 2).
  destruct (Z.ltb_spec u (m / 2)); lia.
Qed.

Lemma length_field r offset len : (length (field r offset len) <= len)%nat.
Proof. unfold field. rewrite length_take. lia. Qed.

Lemma layout_fits v e r : fits (layout v e r).
Proof.
  pose proof (length_field r) as Hf.
  assert (Hu : forall o, u32 (uint e (field r o 4)))
    by (intros; apply uint_u32, Hf).
  assert (Hi : forall o, i32 (sint e (field r o 4)))
    by (intros; apply sint_i32, Hf).
  unfold layout. destruct (v =? 1); unfold fits; cbn;
    repeat split; try apply Hu; try apply Hi;
    try (eexists; split; [reflexivity|]; (apply Hf || (cbn; lia))).
  all: pose proof (uint_u32 e (field r 0 2)) as [H1 H2];
    [specialize (Hf 0%nat 2%nat); lia|assumption..].
Qed.

Lemma chunks_spec size : forall k buf,
  length buf = (k * size)%nat ->
  concat (chunks k size buf) = buf
  /\ Forall (fun r => length r = size) (chunks k size buf).
Proof.
  induction k as [|k IH]; intros buf Hl.
  - destruct buf; [split; constructor|discriminate].
  - cbn [chunks concat]. destruct (IH (drop size buf)) as [Hc Hf].
    { rewrite length_drop. lia. }
    rewrite Hc, take_drop. split; [reflexivity|].
    constructor; [|exact Hf]. rewrite length_take. lia.
Qed.

(** What [struct.iter_unpack] accepts is a sequence of whole records. *)
Lemma iter_unpack_Return e fmt buf tuples :
  iter_unpack e fmt buf = Return tuples ->
  exists recs, buf = concat recs
               /\ Forall (fun r => length r = calcsize fmt) recs
               /\ tuples = map (unpack_fields e fmt) recs.
Proof.
  unfold iter_unpack. destruct (Nat.eqb_spec (calcsize fmt) 0); [discriminate|].
  destruct (Nat.eqb_spec (length buf mod calcsize fmt) 0) as [Hm|];
    [|discriminate].
  intros [= <-].
  destruct (chunks_spec (calcsize fmt) (length buf / calcsize fmt) buf)
    as [Hc Hf].
  { pose proof (Nat.div_mod_eq (length buf) (calcsize fmt)). lia. }
  eexists. split; [symmetry; exact Hc|]. split; [exact Hf|reflexivity].
Qed.

Lemma read_binary_inv fuel path keep_zeros w es w' :
  read_binary fuel path keep_zeros w = Some (Return es, w') ->
  exists v e recs,
    (v = 1 \/ v = 2)
    /\ Forall (fun r => length r = record_size v) recs
    /\ es = filter (fun x => kept keep_zeros x = true) (map (layout v e) recs).
Proof.
  unfold read_binary, bind, read_all, lift, ret, print_stderr.
  destruct (find_ship_header fuel w) as [[[[[ok e] v]|ex] w1]|];
    try discriminate.
  destruct ok; cbn [negb].
  - destruct (Z.eqb_spec v 1) as [->|_].
    + destruct (iter_unpack e v1_format _) as [tuples|] eqn:Ei; [|discriminate].
      intros [= <- <-].
      apply iter_unpack_Return in Ei as (recs & _ & Hf & ->).
      exists 1, e, recs. split; [now left|]. split; [exact Hf|].
      apply collect_layout.
      eapply Forall_impl; [exact Hf|]. intros r Hr. now apply entry_v1_layout.
    + destruct (Z.eqb_spec v 2) as [->|_].
      * destruct (iter_unpack e v2_format _) as [tuples|] eqn:Ei;
          [|discriminate].
        intros [= <- <-].
        apply iter_unpack_Return in Ei as (recs & _ & Hf & ->).
        exists 2, e, recs. split; [now right|]. split; [exact Hf|].
        apply collect_layout.
        eapply Forall_impl; [exact Hf|]. intros r Hr. now apply entry_v2_layout.
      * intros [= <- <-]. exists 1, LE, []. split; [now left|].
        split; [constructor|reflexivity].
  - intros [= <- <-]. exists 1, LE, []. split; [now left|].
    split; [constructor|reflexivity].
Qed.

Lemma read_binary_fits fuel path keep_zeros w es w' :
  read_binary fuel path keep_zeros w = Some (Return es, w') -> Forall fits es.
Proof.
  intros H. apply read_binary_inv in H as (v & e & recs & _ & _ & ->).
  apply Forall_forall. intros x Hx.
  apply list_elem_of_filter in Hx as [_ Hx].
  apply list_elem_of_fmap in Hx as (r & -> & _). apply layout_fits.
Qed.

(** X10. Whatever the file, every entry that [read_binary] returns has
    fields of the C types of the record: type, source, sender, receiver and
    signo are in [0, 2^32), seconds and microseconds in [-2^31, 2^31), and
    procId and connId are byte strings of at most four bytes. *)
Theorem decoded_fields_fit (fuel : nat) (path : string) (keep_zeros : bool)
    (w w' : world) (es : list entry) :
  read_binary fuel path keep_zeros w = Some (Return es, w') -> Forall fits es.
Proof. apply read_binary_fits. Qed.

Lemma decoded_fields_fit_witness :
  Forall fits [layout_v2 LE v2_record_at_5].
Proof.
  apply (decoded_fields_fit 1 "f" false
           (open (le_header x02 ++ v2_unwritten ++ v2_record_at_5))
           {| contents := le_header x02 ++ v2_unwritten ++ v2_record_at_5;
              cursor := 80; stderr := [] |}).
  vm_compute. reflexivity.
Defined.

(** ** [convert_hex_data] *)

(** X11. [convert_hex_data] leaves an int as it is; bytes are converted when
    there are exactly four of them, to a number in [0, 2^32) that depends on
    [little_endian] only by the order of the bytes, and are marked as -1
    otherwise. So -1 always stands for a failed conversion, and the empty
    ids of a v1 record are shown as -1. *)
Theorem convert_hex_data_marker (little_endian : bool) (b : list byte)
    (z : Z) :
  convert_hex_data little_endian (VInt z) = z
  /\ (length b = 4%nat
      /\ 0 <= convert_hex_data little_endian (VBytes b) < 2 ^ 32
      /\ convert_hex_data true (VBytes b)
         = convert_hex_data false (VBytes (rev b))
      \/ length b <> 4%nat
         /\ convert_hex_data little_endian (VBytes b) = -1).
Proof.
  split; [reflexivity|].
  unfold convert_hex_data, unpack. rewrite length_rev.
  change (calcsize [fI]) with 4%nat.
  destruct (Nat.eqb_spec (length b) 4) as [E|E]; [left|right; now split].
  split; [exact E|]. cbn [unpack_fields width]. split.
  - apply (uint_u32 (if little_endian then LE else BE)).
    rewrite length_take. lia.
  - rewrite !take_ge by (rewrite ?length_rev; lia). cbn [uint].
    now rewrite rev_involutive.
Qed.

(** ** Timestamps of 32-bit fields *)

Lemma digits2_pos_iter m k :
  digits2_pos (Pos.iter xO m k) = (digits2_pos m + k)%positive.
Proof.
  induction k as [|k IH] using Pos.peano_ind.
  - cbn. lia.
  - rewrite Pos.iter_succ. cbn [digits2_pos]. rewrite IH. lia.
Qed.

Lemma binary_round_aux_exact sx mz ez :
  Zpos (digits2_pos mz) = 53 -> -1074 <= ez <= 971 ->
  binary_round_aux 53 1024 sx (Zpos mz) ez loc_Exact = S754_finite sx mz ez.
Proof.
  intros Hd He. unfold binary_round_aux, shr_fexp, fexp, emin, Zdigits2.
  rewrite Hd.
  replace (Z.max (53 + ez - 53) (3 - 1024 - 53) - ez) with 0 by lia.
  cbn [shr shr_record_of_loc shr_m loc_of_shr_record round_nearest_even].
  rewrite Hd.
  replace (Z.max (53 + ez - 53) (3 - 1024 - 53) - ez) with 0 by lia.
  cbn [shr shr_record_of_loc shr_m].
  destruct (Z.leb_spec ez (1024 - 53)); [reflexivity|lia].
Qed.

Lemma binary_round_small sx m :
  Zpos (digits2_pos m) <= 53 ->
  exists mz ez, binary_round 53 1024 sx m 0 = S754_finite sx mz ez.
Proof.
  intros Hd. unfold binary_round, shl_align, fexp, emin.
  replace (Z.max (Zpos (digits2_pos m) + 0 - 53) (3 - 1024 - 53) - 0)
    with (Zpos (digits2_pos m) - 53) by lia.
  replace (Z.max (Zpos (digits2_pos m) + 0 - 53) (3 - 1024 - 53))
    with (Zpos (digits2_pos m) - 53) by lia.
  destruct (Zpos (digits2_pos m) - 53) as [|p|p] eqn:E; [|lia|].
  - exists m, 0. apply binary_round_aux_exact; lia.
  - exists (Pos.iter xO m p), (Zneg p). apply binary_round_aux_exact.
    + rewrite digits2_pos_iter. lia.
    + lia.
Qed.

Lemma digits2_pos_bound m k :
  0 <= k -> Zpos m < 2 ^ k -> Zpos (digits2_pos m) <= k.
Proof.
  intros Hk H.
  assert (Hs : Zpos (digits2_pos m) = Z.succ (Z.log2 (Zpos m))).
  { assert (Hsz : forall p, digits2_pos p = Pos.size p)
      by (induction p; cbn; congruence).
    destruct m; cbn [digits2_pos Z.log2]; rewrite ?Hsz; lia. }
  rewrite Hs. apply Z.log2_lt_pow2 in H; lia.
Qed.

(** An int of less than 54 bits is converted to a double without error. *)
Lemma of_int_small z :
  - 2 ^ 53 < z < 2 ^ 53 -> exists f, Float.of_int z = Return f.
Proof.
  intros Hz. unfold Float.of_int, Float.prec, Float.emax, binary_normalize.
  destruct z as [|m|m].
  - eauto.
  - destruct (binary_round_small false m) as (mz & ez & ->); [|eauto].
    apply digits2_pos_bound; lia.
  - destruct (binary_round_small true m) as (mz & ez & ->); [|eauto].
    apply digits2_pos_bound; lia.
Qed.

Lemma fits_timed e : fits e -> timed e.
Proof.
  intros (_ & _ & _ & _ & Hs & Hu & _). unfold timed, timestamp, i32 in *.
  destruct (of_int_small (microseconds e)) as [u ->]; [lia|].
  destruct (of_int_small (seconds e)) as [s ->]; [lia|].
  cbn. eauto.
Qed.

(** ** Pairing, continued *)

Lemma refs_sorted_from (es : list entry) :
  forall k, StronglySorted by_index (imap (fun i e => ((k + i)%nat, e)) es)
            /\ Forall (fun x : ref => (k <= x.1)%nat)
                      (imap (fun i e => ((k + i)%nat, e)) es).
Proof.
  induction es as [|e es IH]; intros k; [split; constructor|].
  cbn [imap].
  rewrite (imap_ext _ (fun i e => ((S k + i)%nat, e)))
    by (intros; cbn; f_equal; lia).
  destruct (IH (S k)) as [Hs Hf]. split.
  - constructor; [exact Hs|].
    eapply Forall_impl; [exact Hf|]. intros x Hx. unfold by_index.
    cbn in *. lia.
  - constructor; [cbn; lia|].
    eapply Forall_impl; [exact Hf|]. intros x Hx. cbn in *. lia.
Qed.

Lemma refs_sorted es : StronglySorted by_index (refs es).
Proof. exact (proj1 (refs_sorted_from es 0)). Qed.

Lemma StronglySorted_filter {A} (R : relation A) (P : A -> Prop)
    `{forall x, Decision (P x)} (l : list A) :
  StronglySorted R l -> StronglySorted R (filter P l).
Proof.
  induction 1 as [|x l Hs IH Hf]; [constructor|].
  rewrite filter_cons. destruct (decide (P x)); [|exact IH].
  constructor; [exact IH|].
  apply Forall_forall. intros y Hy. apply list_elem_of_filter in Hy as [_ Hy].
  rewrite Forall_forall in Hf. now apply Hf.
Qed.

Lemma tx_sorted es : StronglySorted by_index (tx es).
Proof. apply StronglySorted_filter, refs_sorted. Qed.

Lemma bucket_sorted k es : StronglySorted by_index (bucket k (rx es)).
Proof. do 2 apply StronglySorted_filter. apply refs_sorted. Qed.

(** The first element that [ofilter] keeps: everything before it was
    refused. *)
Lemma ofilter_first {A} (f : A -> outcome bool) (l : list A) first rest :
  ofilter f l = Return (first :: rest) ->
  exists l1 l2, l = l1 ++ first :: l2
                /\ (forall x, x ∈ l1 -> f x = Return false)
                /\ f first = Return true.
Proof.
  induction l as [|a l IH]; intros H; cbn in H; [discriminate|].
  apply obind_Return in H as (b & Hb & H).
  apply obind_Return in H as (r & Hr & H). injection H as H.
  destruct b.
  - injection H as -> ->. exists [], l. split; [reflexivity|].
    split; [|exact Hb]. intros x Hx. now apply not_elem_of_nil in Hx.
  - subst r. destruct (IH Hr) as (l1 & l2 & -> & Hl1 & Hf).
    exists (a :: l1), l2. split; [reflexivity|]. split; [|exact Hf].
    intros x Hx. apply elem_of_cons in Hx as [->|Hx]; [exact Hb|now apply Hl1].
Qed.

Lemma sorted_before (l1 l2 : list ref) (first x : ref) :
  StronglySorted by_index (l1 ++ first :: l2) ->
  x ∈ l1 ++ first :: l2 -> (x.1 < first.1)%nat -> x ∈ l1.
Proof.
  intros Hs Hx Hlt. apply elem_of_app in Hx as [Hx|Hx]; [exact Hx|].
  apply StronglySorted_app_1_r in Hs.
  apply StronglySorted_inv in Hs as [_ Hf].
  apply elem_of_cons in Hx as [->|Hx]; [lia|].
  rewrite Forall_forall in Hf. specialize (Hf x Hx). unfold by_index in Hf. lia.
Qed.

Lemma lookup_linked (pairs : links) (a b k v : nat) :
  <[a := b]> (<[b := a]> pairs) !! k = Some v ->
  (k = a /\ v = b) \/ (k <> a /\ k = b /\ v = a)
  \/ (k <> a /\ k <> b /\ pairs !! k = Some v).
Proof.
  destruct (decide (a = k)) as [->|Ha].
  - rewrite lookup_insert_eq. intros [= <-]. now left.
  - rewrite lookup_insert_ne by exact Ha.
    destruct (decide (b = k)) as [->|Hb].
    + rewrite lookup_insert_eq. intros [= <-]. right. left. auto.
    + rewrite lookup_insert_ne by exact Hb. intros H. right. right. auto.
Qed.

Lemma lookup_linked_other (pairs : links) (a b k : nat) :
  k <> a -> k <> b -> <[a := b]> (<[b := a]> pairs) !! k = pairs !! k.
Proof. intros Ha Hb. now rewrite !lookup_insert_ne by congruence. Qed.

Section PairFold.

Variable es : list entry.
Variable m : gmap key (list ref).
Hypothesis Hm : rx_map_ok es m.

Lemma send_not_recv i s r :
  es !! i = Some s -> es !! i = Some r ->
  type s = ITC_SEND -> type r = ITC_RECV -> False.
Proof.
  intros Hs Hr Ht1 Ht2. assert (s = r) by congruence. subst.
  rewrite Ht1 in Ht2. discriminate.
Qed.

(** One step of the loop over the sends keeps the invariants of a run that
    started without links. *)
Lemma pair_step_inv (t : ref) (l : list ref) (pairs p1 : links) :
  t ∈ tx es ->
  (forall t', t' ∈ l -> t' ∈ tx es /\ (t.1 < t'.1)%nat) ->
  sound es pairs -> mutual pairs ->
  (forall t', t' ∈ t :: l -> pairs !! t'.1 = None) ->
  (forall i0 j0 s0 t', pairs !! i0 = Some j0 -> es !! i0 = Some s0 ->
                       type s0 = ITC_SEND -> t' ∈ t :: l -> (i0 < t'.1)%nat) ->
  greedy es pairs ->
  pair_step m pairs t = Return p1 ->
  sound es p1 /\ mutual p1
  /\ (forall t', t' ∈ l -> p1 !! t'.1 = None)
  /\ (forall i0 j0 s0 t', p1 !! i0 = Some j0 -> es !! i0 = Some s0 ->
                          type s0 = ITC_SEND -> t' ∈ l -> (i0 < t'.1)%nat)
  /\ greedy es p1.
Proof.
  intros Ht Hl Hsound Hmut Hfree Hbefore Hgreedy Hstep.
  split; [eapply pair_step_sound; eassumption|].
  destruct (pair_step_cases es m pairs t Hm Ht)
    as [E|[E|(first & rest & Ef & E)]];
    rewrite E in Hstep; [discriminate| |]; injection Hstep as <-.
  { split; [exact Hmut|]. split; [|split; [|exact Hgreedy]].
    - intros t' Ht'. apply Hfree. now apply list_elem_of_further.
    - intros i0 j0 s0 t' H1 H2 H3 Ht'. eapply Hbefore; eauto.
      now apply list_elem_of_further. }
  destruct (ofilter_first _ _ _ _ Ef) as (l1 & l2 & Hb & Hl1 & Hp).
  assert (Hin : first ∈ bucket (pair_key t.2) (rx es))
    by (rewrite Hb; apply elem_of_app; right; apply list_elem_of_here).
  apply elem_of_bucket in Hin as [Hkey Hrx].
  apply elem_of_rx in Hrx as [Hlr Htr].
  pose proof Ht as Ht0. apply elem_of_tx in Ht0 as [Hlt Htt].
  apply is_pair_true in Hp as [Hnone Hearlier].
  assert (Hft : pairs !! t.1 = None) by (apply Hfree, list_elem_of_here).
  assert (Hne : first.1 <> t.1).
  { intros Heq. rewrite Heq in Hlr.
    exact (send_not_recv _ _ _ Hlt Hlr Htt Htr). }
  split; [|split; [|split]].
  - (* mutual *)
    intros i j Hij. apply lookup_linked in Hij
      as [[-> ->]|[(Hn & -> & ->)|(Hn1 & Hn2 & Hij)]].
    + rewrite lookup_insert_ne by congruence. apply lookup_insert_eq.
    + apply lookup_insert_eq.
    + pose proof (Hmut _ _ Hij) as Hji.
      rewrite lookup_linked_other; [exact Hji| |]; intros ->; congruence.
  - (* the sends to come are free *)
    intros t' Ht'. destruct (Hl t' Ht') as [Htx Hlt'].
    apply elem_of_tx in Htx as [Hlt1 Htt1].
    rewrite lookup_linked_other.
    + apply Hfree. now apply list_elem_of_further.
    + intros Heq. rewrite Heq in Hlt1.
      exact (send_not_recv _ _ _ Hlt1 Hlr Htt1 Htr).
    + lia.
  - (* the linked sends come before the sends to come *)
    intros i0 j0 s0 t' H1 H2 H3 Ht'. destruct (Hl t' Ht') as [_ Hlt'].
    apply lookup_linked in H1 as [[-> ->]|[(Hn & -> & ->)|(Hn1 & Hn2 & H1)]].
    + exfalso. exact (send_not_recv _ _ _ H2 Hlr H3 Htr).
    + exact Hlt'.
    + eapply Hbefore; eauto. now apply list_elem_of_further.
  - (* greedy *)
    intros i j s j' r' Hij Hi Hs Hlt' Hj' Hr' Hk Hear.
    apply lookup_linked in Hij as [[-> ->]|[(Hn & -> & ->)|(Hn1 & Hn2 & Hij)]].
    + exfalso. exact (send_not_recv _ _ _ Hi Hlr Hs Htr).
    + assert (s = t.2) by congruence. subst s.
      assert (Hin' : (j', r') ∈ bucket (pair_key t.2) (rx es)).
      { apply elem_of_bucket. split; [exact Hk|]. apply elem_of_rx. auto. }
      assert (Hfalse : is_pair pairs (j', r') t = Return false).
      { apply Hl1. eapply sorted_before; [|rewrite <- Hb; exact Hin'|exact Hlt'].
        rewrite <- Hb. apply bucket_sorted. }
      unfold is_pair in Hfalse. cbn [fst snd] in Hfalse.
      destruct (pairs !! j') as [i'|] eqn:Ej'.
      * exists i'. split.
        -- rewrite lookup_linked_other; [exact Ej'|lia|congruence].
        -- destruct (Hsound _ _ Ej') as (ei & ej & Hei & Hej & _ & Hc).
           assert (ei = r') by congruence. subst ei.
           destruct Hc as [(Hty & _)|(_ & Hty & _)];
             [rewrite Hr' in Hty; discriminate|].
           eapply (Hbefore i' j' ej t); [now apply Hmut|exact Hej|exact Hty|].
           apply list_elem_of_here.
      * destruct Hear as (ta & tb & Ha & Hb' & Hltb).
        rewrite Ha, Hb' in Hfalse. cbn in Hfalse. congruence.
    + destruct (Hgreedy i j s j' r' Hij Hi Hs Hlt' Hj' Hr' Hk Hear)
        as (i' & Hi' & Hlti).
      exists i'. split; [|exact Hlti].
      rewrite lookup_linked_other; [exact Hi'| |]; intros ->; congruence.
Qed.

Lemma pair_fold_inv (l : list ref) :
  forall pairs pairs',
    StronglySorted by_index l ->
    (forall t, t ∈ l -> t ∈ tx es) ->
    sound es pairs -> mutual pairs ->
    (forall t, t ∈ l -> pairs !! t.1 = None) ->
    (forall i0 j0 s0 t, pairs !! i0 = Some j0 -> es !! i0 = Some s0 ->
                        type s0 = ITC_SEND -> t ∈ l -> (i0 < t.1)%nat) ->
    greedy es pairs ->
    ofold (pair_step m) l pairs = Return pairs' ->
    mutual pairs' /\ greedy es pairs'.
Proof.
  induction l as [|t l IH]; intros pairs pairs' Hs Htx Hsound Hmut Hfree Hbef
                                   Hgr H.
  - injection H as <-. now split.
  - cbn [ofold] in H. apply obind_Return in H as (p1 & H1 & H2).
    apply StronglySorted_inv in Hs as [Hs Hf]. rewrite Forall_forall in Hf.
    destruct (pair_step_inv t l pairs p1) as (S1 & S2 & S3 & S4 & S5);
      try assumption.
    + apply Htx, list_elem_of_here.
    + intros t' Ht'. split; [now apply Htx, list_elem_of_further|].
      now apply Hf.
    + eapply IH; try eassumption.
      intros t' Ht'. now apply Htx, list_elem_of_further.
Qed.

End PairFold.

Lemma find_pairs_inv es pairs :
  find_pairs es ∅ = Return pairs -> mutual pairs /\ greedy es pairs.
Proof.
  intros H. destruct (find_pairs_unfold es ∅) as (m & Hm & E).
  rewrite E in H.
  eapply (pair_fold_inv es m Hm (tx es) ∅ pairs); try exact H.
  - apply tx_sorted.
  - auto.
  - apply sound_empty.
  - intros i j Hij. now rewrite lookup_empty in Hij.
  - intros. apply lookup_empty.
  - intros i0 j0 s0 t Hij. now rewrite lookup_empty in Hij.
  - intros i j s j' r' Hij. now rewrite lookup_empty in Hij.
Qed.

(** X12. After [find_pairs] on freshly decoded events the links go both
    ways, and no event is the partner of two: if the dict at [i] refers to
    the one at [j], then the one at [j] refers back to [i]. *)
Theorem links_mutual (es : list entry) (pairs : links) :
  find_pairs es ∅ = Return pairs ->
  (forall i j, pairs !! i = Some j -> pairs !! j = Some i)
  /\ (forall i i' j, pairs !! i = Some j -> pairs !! i' = Some j -> i = i').
Proof.
  intros H. apply find_pairs_inv in H as [Hmut _]. split; [exact Hmut|].
  intros i i' j Hi Hi'. apply Hmut in Hi, Hi'. congruence.
Qed.

Lemma links_mutual_witness : linked 0 1 !! 1%nat = Some 0%nat.
Proof.
  refine (proj1 (links_mutual [event ITC_SEND 5 0; event ITC_RECV 6 0]
                   (linked 0 1) _) 0%nat 1%nat _).
  - vm_compute. reflexivity.
  - vm_compute. reflexivity.
Defined.

(** X13. "Select first match": a send is linked to the first receive in the
    list that has its key, a later timestamp and no partner yet. If it is
    linked to the receive at [j] while a receive of its key, later than the
    send, stands before [j] in the list, then that receive is the partner of
    a send that stands before this one. *)
Theorem first_match_taken (es : list entry) (pairs : links) (i j j' : nat)
    (s r' : entry) :
  find_pairs es ∅ = Return pairs ->
  pairs !! i = Some j -> es !! i = Some s -> type s = ITC_SEND ->
  (j' < j)%nat -> es !! j' = Some r' -> type r' = ITC_RECV ->
  pair_key r' = pair_key s -> earlier s r' ->
  exists i', pairs !! j' = Some i' /\ (i' < i)%nat.
Proof.
  intros H. apply find_pairs_inv in H as [_ Hgr]. apply Hgr.
Qed.

Lemma first_match_taken_witness :
  exists i',
    (<[3%nat := 1%nat]> (<[1%nat := 3%nat]> (linked 0 2))) !! 2%nat = Some i'
    /\ (i' < 1)%nat.
Proof.
  apply (first_match_taken
           [event ITC_SEND 1 0; event ITC_SEND 2 0; event ITC_RECV 5 0;
            event ITC_RECV 6 0]
           _ 1 3 2 (event ITC_SEND 2 0) (event ITC_RECV 5 0)).
  - vm_compute. reflexivity.
  - vm_compute. reflexivity.
  - reflexivity.
  - reflexivity.
  - lia.
  - reflexivity.
  - reflexivity.
  - reflexivity.
  - unfold earlier. eexists _, _. split.
    + vm_compute. reflexivity.
    + split.
      * vm_compute. reflexivity.
      * vm_compute. reflexivity.
Defined.

Lemma elem_of_filter_duplicates es pairs i e :
  (i, e) ∈ filter_duplicates es pairs
  <-> es !! i = Some e /\ (type e = ITC_SEND \/ pairs !! i = None).
Proof.
  unfold filter_duplicates. rewrite list_elem_of_filter, elem_of_refs.
  cbn. tauto.
Qed.

Lemma filter_duplicates_dropped es pairs i e :
  sound es pairs -> es !! i = Some e ->
  ((i, e) ∉ filter_duplicates es pairs
   <-> type e = ITC_RECV
       /\ exists j s, pairs !! i = Some j /\ es !! j = Some s
                      /\ type s = ITC_SEND /\ pair_key s = pair_key e
                      /\ earlier s e
                      /\ (j, s) ∈ filter_duplicates es pairs).
Proof.
  intros Hsound Hi. rewrite elem_of_filter_duplicates. split.
  - intros Hn. destruct (pairs !! i) as [j|] eqn:Hij; [|elim Hn; auto].
    destruct (Hsound _ _ Hij) as (ei & ej & Hei & Hej & Hk & Hc).
    assert (ei = e) by congruence. subst ei.
    destruct Hc as [(Ht & _)|(Ht & Hs & He)]; [elim Hn; auto|].
    split; [exact Ht|]. exists j, ej. repeat split; auto.
    apply elem_of_filter_duplicates. auto.
  - intros (Ht & j & s & Hij & _) [_ [Hs|Hn]].
    + rewrite Ht in Hs. discriminate.
    + congruence.
Qed.

(** X14. After pairing, [filter_duplicates] drops exactly the receives that
    were paired, and for each of them it keeps the send it was paired with:
    an event is dropped if and only if it is a receive whose partner is a
    send of the same key with an earlier timestamp, and that send is
    kept. *)
Theorem duplicates_dropped (es : list entry) (pairs : links) (i : nat)
    (e : entry) :
  find_pairs es ∅ = Return pairs -> es !! i = Some e ->
  ((i, e) ∉ filter_duplicates es pairs
   <-> type e = ITC_RECV
       /\ exists j s, pairs !! i = Some j /\ es !! j = Some s
                      /\ type s = ITC_SEND /\ pair_key s = pair_key e
                      /\ earlier s e
                      /\ (j, s) ∈ filter_duplicates es pairs).
Proof.
  intros H. apply filter_duplicates_dropped.
  eapply find_pairs_sound; [apply sound_empty|exact H].
Qed.

Lemma duplicates_dropped_witness :
  ((1%nat, event ITC_RECV 6 0)
     ∉ filter_duplicates [event ITC_SEND 5 0; event ITC_RECV 6 0] (linked 0 1))
  /\ ((0%nat, event ITC_SEND 5 0)
        ∈ filter_duplicates [event ITC_SEND 5 0; event ITC_RECV 6 0]
            (linked 0 1)).
Proof.
  pose proof (duplicates_dropped [event ITC_SEND 5 0; event ITC_RECV 6 0]
                (linked 0 1) 1 (event ITC_RECV 6 0)) as H.
  assert (H1 : find_pairs [event ITC_SEND 5 0; event ITC_RECV 6 0] ∅
               = Return (linked 0 1)) by (vm_compute; reflexivity).
  specialize (H H1 eq_refl).
  split.
  - apply H. split; [reflexivity|].
    exists 0%nat, (event ITC_SEND 5 0).
    split; [vm_compute; reflexivity|].
    split; [reflexivity|]. split; [reflexivity|]. split; [reflexivity|].
    split.
    + unfold earlier. eexists _, _. split.
      * vm_compute. reflexivity.
      * split.
        -- vm_compute. reflexivity.
        -- vm_compute. reflexivity.
    + apply elem_of_filter_duplicates. split; [reflexivity|now left].
  - apply elem_of_filter_duplicates. split; [reflexivity|now left].
Defined.

Lemma from_binary_timed e : from_binary e -> timed e.
Proof.
  intros (fuel & path & kz & w & w' & es & H & He).
  apply fits_timed. apply read_binary_fits in H.
  rewrite Forall_forall in H. now apply H.
Qed.

(** X15. Pairing never raises on events that were decoded from binary files:
    their seconds and microseconds are 32-bit integers, which convert to
    doubles. This holds for any list made of such events, so also for the
    sorted concatenation of several files. *)
Theorem binary_events_pair (es : list entry) (pairs : links) :
  Forall from_binary es -> exists pairs', find_pairs es pairs = Return pairs'.
Proof.
  intros H. apply find_pairs_total.
  eapply Forall_impl; [exact H|]. apply from_binary_timed.
Qed.

Lemma binary_events_pair_witness :
  exists pairs', find_pairs [layout_v2 LE v2_record_at_5] ∅ = Return pairs'.
Proof.
  apply (binary_events_pair [layout_v2 LE v2_record_at_5] ∅).
  constructor; [|constructor].
  exists 1%nat, "f", false,
    (open (le_header x02 ++ v2_unwritten ++ v2_record_at_5)),
    {| contents := le_header x02 ++ v2_unwritten ++ v2_record_at_5;
       cursor := 80; stderr := [] |},
    [layout_v2 LE v2_record_at_5].
  split.
  - vm_compute. reflexivity.
  - apply list_elem_of_here.
Defined.

(** ** A second run of the pairing *)

Lemma ofold_app {A S} (f : S -> A -> outcome S) (l1 l2 : list A) (s : S) :
  ofold f (l1 ++ l2) s = obind (ofold f l1 s) (ofold f l2).
Proof.
  revert s. induction l1 as [|a l1 IH]; intros s; [reflexivity|].
  cbn [app ofold]. destruct (f s a); cbn [obind]; [apply IH|reflexivity].
Qed.

Lemma ofilter_each {A} (f : A -> outcome bool) (l : list A) :
  forall l', ofilter f l = Return l' ->
             forall x, x ∈ l -> exists b, f x = Return b.
Proof.
  induction l as [|a l IH]; intros l' H x Hx; [now apply not_elem_of_nil in Hx|].
  cbn in H. apply obind_Return in H as (b & Hb & H).
  apply obind_Return in H as (r & Hr & _).
  apply elem_of_cons in Hx as [->|Hx]; [eauto|]. eapply IH; eassumption.
Qed.

Lemma ofilter_keeps {A} (f : A -> outcome bool) (l : list A) :
  forall l', ofilter f l = Return l' ->
             forall x, x ∈ l -> f x = Return true -> x ∈ l'.
Proof.
  induction l as [|a l IH]; intros l' H x Hx Hf;
    [now apply not_elem_of_nil in Hx|].
  cbn in H. apply obind_Return in H as (b & Hb & H).
  apply obind_Return in H as (r & Hr & H). injection H as <-.
  apply elem_of_cons in Hx as [->|Hx].
  - rewrite Hf in Hb. injection Hb as <-. apply list_elem_of_here.
  - specialize (IH r Hr x Hx Hf).
    destruct b; [now apply list_elem_of_further|exact IH].
Qed.

Lemma is_pair_taken pairs (r t : ref) v :
  pairs !! r.1 = Some v -> is_pair pairs r t = Return false.
Proof. intros H. unfold is_pair. now rewrite H. Qed.

Lemma is_pair_free pairs (r t : ref) b :
  pairs !! r.1 = None -> is_pair pairs r t = Return b ->
  timed t.2 /\ timed r.2.
Proof.
  intros Hn H. unfold is_pair in H. rewrite Hn in H.
  apply obind_Return in H as (ta & Ha & H).
  apply obind_Return in H as (tb & Hb & _).
  split; eexists; eassumption.
Qed.

Lemma is_pair_free_true pairs (r t : ref) :
  pairs !! r.1 = None -> earlier t.2 r.2 -> is_pair pairs r t = Return true.
Proof.
  intros Hn (ta & tb & Ha & Hb & Hlt). unfold is_pair.
  rewrite Hn, Ha, Hb. cbn [obind]. now rewrite Hlt.
Qed.

Lemma is_pair_free_false pairs (r t : ref) :
  timed t.2 -> timed r.2 -> ~ earlier t.2 r.2 ->
  is_pair pairs r t = Return false.
Proof.
  intros [ta Ha] [tb Hb] Hne. unfold is_pair.
  destruct (pairs !! r.1); [reflexivity|].
  rewrite Ha, Hb. cbn [obind].
  destruct (Float.ltb ta tb) eqn:Hlt; [|reflexivity].
  elim Hne. now exists ta, tb.
Qed.

Section SecondRun.

Variable es : list entry.
Variable m : gmap key (list ref).
Hypothesis Hm : rx_map_ok es m.

(** The loop only adds keys to the dicts. *)
Lemma pair_step_grows (pairs p1 : links) (t : ref) :
  t ∈ tx es -> pair_step m pairs t = Return p1 ->
  forall k, p1 !! k = None -> pairs !! k = None.
Proof.
  intros Ht H k Hk.
  destruct (pair_step_cases es m pairs t Hm Ht)
    as [E|[E|(first & rest & _ & E)]];
    rewrite E in H; [discriminate| |]; injection H as <-; [exact Hk|].
  apply lookup_insert_None in Hk as [Hk _].
  now apply lookup_insert_None in Hk as [Hk _].
Qed.

Lemma pair_fold_grows (l : list ref) (pairs p : links) :
  (forall t, t ∈ l -> t ∈ tx es) ->
  ofold (pair_step m) l pairs = Return p ->
  forall k, p !! k = None -> pairs !! k = None.
Proof.
  intros Hl H.
  apply (ofold_invariant
           (fun s : links => forall k, s !! k = None -> pairs !! k = None)
           (pair_step m) l) with (s := pairs); [|auto|exact H].
  intros s a s' Ha Hs Hstep k Hk. apply Hs.
  eapply pair_step_grows; [apply Hl, Ha|exact Hstep|exact Hk].
Qed.

(** A link is only ever written on a receive that has none, and on the send
    of the step. *)
Lemma pair_step_keeps (pairs p1 : links) (t : ref) (k v : nat) :
  t ∈ tx es -> pair_step m pairs t = Return p1 ->
  pairs !! k = Some v -> t.1 <> k -> p1 !! k = Some v.
Proof.
  intros Ht H Hk Hne.
  destruct (pair_step_cases es m pairs t Hm Ht)
    as [E|[E|(first & rest & Ef & E)]];
    rewrite E in H; [discriminate| |]; injection H as <-; [exact Hk|].
  destruct (ofilter_first _ _ _ _ Ef) as (_ & _ & _ & _ & Hp).
  apply is_pair_true in Hp as [Hnone _].
  rewrite !lookup_insert_ne; [exact Hk|exact Hne|congruence].
Qed.

Lemma pair_fold_keeps (l : list ref) (k v : nat) :
  forall pairs p,
    (forall t, t ∈ l -> t ∈ tx es /\ t.1 <> k) ->
    ofold (pair_step m) l pairs = Return p ->
    pairs !! k = Some v -> p !! k = Some v.
Proof.
  induction l as [|a l IH]; intros pairs p Hl H Hk.
  - injection H as <-. exact Hk.
  - cbn [ofold] in H. apply obind_Return in H as (p1 & H1 & H2).
    destruct (Hl a (list_elem_of_here _ _)) as [Ha Hne].
    eapply IH; [|exact H2|].
    + intros t Ht. now apply Hl, list_elem_of_further.
    + eapply pair_step_keeps; eassumption.
Qed.

(** A run that returns the links it started with has linked nothing. *)
Lemma pair_fold_same (l : list ref) (pairs : links) :
  (forall t, t ∈ l -> t ∈ tx es) ->
  ofold (pair_step m) l pairs = Return pairs ->
  forall t, t ∈ l -> pair_step m pairs t = Return pairs.
Proof.
  induction l as [|a l IH]; intros Hl H t Ht;
    [now apply not_elem_of_nil in Ht|].
  cbn [ofold] in H. apply obind_Return in H as (p1 & H1 & H2).
  assert (Ha : a ∈ tx es) by apply Hl, list_elem_of_here.
  assert (Hl' : forall t, t ∈ l -> t ∈ tx es)
    by (intros t' Ht'; now apply Hl, list_elem_of_further).
  assert (p1 = pairs) as ->.
  { destruct (pair_step_cases es m pairs a Hm Ha)
      as [E|[E|(first & rest & Ef & E)]];
      rewrite E in H1; [discriminate| |]; injection H1 as <-; [reflexivity|].
    exfalso.
    destruct (ofilter_first _ _ _ _ Ef) as (_ & _ & _ & _ & Hp).
    apply is_pair_true in Hp as [Hnone _].
    pose proof (pair_fold_grows l _ _ Hl' H2 first.1 Hnone) as Hc.
    now rewrite lookup_insert_eq in Hc. }
  apply elem_of_cons in Ht as [->|Ht]; [exact H1|]. now apply IH.
Qed.

(** In a run that returns, the timestamps of a send and of every receive of
    its key that is left without a link were computed. *)
Lemma pair_fold_timed (l : list ref) :
  forall pairs p,
    (forall t, t ∈ l -> t ∈ tx es) ->
    ofold (pair_step m) l pairs = Return p ->
    forall t r, t ∈ l -> r ∈ bucket (pair_key t.2) (rx es) ->
                p !! r.1 = None -> timed t.2 /\ timed r.2.
Proof.
  induction l as [|a l IH]; intros pairs p Hl H t r Ht Hr Hn;
    [now apply not_elem_of_nil in Ht|].
  cbn [ofold] in H. apply obind_Return in H as (p1 & H1 & H2).
  assert (Ha : a ∈ tx es) by apply Hl, list_elem_of_here.
  assert (Hl' : forall t, t ∈ l -> t ∈ tx es)
    by (intros t' Ht'; now apply Hl, list_elem_of_further).
  apply elem_of_cons in Ht as [->|Ht]; [|eapply IH; eassumption].
  pose proof (pair_fold_grows l _ _ Hl' H2 _ Hn) as Hn1.
  pose proof (pair_step_grows _ _ _ Ha H1 _ Hn1) as Hn0.
  rewrite (pair_step_eq es m pairs a Hm Ha) in H1.
  apply obind_Return in H1 as (l' & Hf & _).
  destruct (ofilter_each _ _ _ Hf r Hr) as [b Hb].
  eapply is_pair_free; eassumption.
Qed.

Variable first_run : links.
Hypothesis Htimed :
  forall t r, t ∈ tx es -> r ∈ bucket (pair_key t.2) (rx es) ->
              first_run !! r.1 = None -> timed t.2 /\ timed r.2.

Lemma pair_step_returns (pairs : links) (t : ref) :
  t ∈ tx es -> (forall k, pairs !! k = None -> first_run !! k = None) ->
  exists p1, pair_step m pairs t = Return p1.
Proof.
  intros Ht Hsub. rewrite (pair_step_eq es m pairs t Hm Ht).
  destruct (ofilter_total (fun i => is_pair pairs i t)
              (bucket (pair_key t.2) (rx es))) as [l' Hl'].
  - intros r Hr. destruct (pairs !! r.1) as [v|] eqn:E.
    + exists false. eapply is_pair_taken, E.
    + destruct (Htimed t r Ht Hr (Hsub _ E)). now apply is_pair_total.
  - rewrite Hl'. cbn. destruct l'; eauto.
Qed.

Lemma pair_fold_returns (l : list ref) :
  forall pairs,
    (forall t, t ∈ l -> t ∈ tx es) ->
    (forall k, pairs !! k = None -> first_run !! k = None) ->
    exists p, ofold (pair_step m) l pairs = Return p.
Proof.
  induction l as [|a l IH]; intros pairs Hl Hsub; [now exists pairs|].
  assert (Ha : a ∈ tx es) by apply Hl, list_elem_of_here.
  destruct (pair_step_returns pairs a Ha Hsub) as [p1 H1].
  destruct (IH p1) as [p H2].
  - intros t Ht. now apply Hl, list_elem_of_further.
  - intros k Hk. apply Hsub. eapply pair_step_grows; eassumption.
  - exists p. cbn [ofold]. now rewrite H1.
Qed.

Lemma no_free_saturated :
  (forall i j, ~ free_later es first_run i j) -> saturated es first_run.
Proof.
  intros Hno i j s r Hi Hj Hs Hr Hk.
  destruct (first_run !! j) as [v|] eqn:E;
    [now apply (is_pair_taken first_run (j, r) (i, s) v)|].
  destruct (Htimed (i, s) (j, r)) as [Ts Tr].
  - now apply elem_of_tx.
  - apply elem_of_bucket. split; [now symmetry|]. now apply elem_of_rx.
  - exact E.
  - apply is_pair_free_false; [exact Ts|exact Tr|].
    intros He. apply (Hno i j). exists s, r. auto 10.
Qed.

Lemma same_no_free :
  ofold (pair_step m) (tx es) first_run = Return first_run ->
  forall i j, ~ free_later es first_run i j.
Proof.
  intros H i j (s & r & Hi & Hj & Hs & Hr & Hk & Hn & He).
  assert (Ht : (i, s) ∈ tx es) by now apply elem_of_tx.
  pose proof (pair_fold_same (tx es) first_run (fun _ H => H) H _ Ht) as H1.
  destruct (pair_step_cases es m first_run (i, s) Hm Ht)
    as [E|[E|(first & rest & Ef & E)]].
  - rewrite E in H1. discriminate.
  - clear E. rewrite (pair_step_eq es m first_run (i, s) Hm Ht) in H1.
    apply obind_Return in H1 as (l' & Hf & H1).
    assert (Hin : (j, r) ∈ l').
    { eapply ofilter_keeps; [exact Hf| |].
      - apply elem_of_bucket. split; [now symmetry|]. now apply elem_of_rx.
      - now apply is_pair_free_true. }
    destruct l' as [|first rest]; [now apply not_elem_of_nil in Hin|].
    injection H1 as H1.
    assert (Hfirst : first ∈ first :: rest) by apply list_elem_of_here.
    apply (ofilter_Return _ _ _ Hf) in Hfirst as [_ Hp].
    apply is_pair_true in Hp as [Hnone _].
    rewrite <- H1, lookup_insert_eq in Hnone. discriminate.
  - rewrite E in H1. injection H1 as H1.
    destruct (ofilter_first _ _ _ _ Ef) as (_ & _ & _ & _ & Hp).
    apply is_pair_true in Hp as [Hnone _].
    rewrite <- H1, lookup_insert_eq in Hnone. discriminate.
Qed.

Lemma first_free_linked (i j : nat) (p : links) :
  first_free es first_run i j ->
  ofold (pair_step m) (tx es) first_run = Return p ->
  p !! i = Some j /\ p !! j = Some i.
Proof.
  intros ((s & r & Hi & Hj & Hs & Hr & Hk & Hn & He) & Hmin_i & Hmin_j) H.
  assert (Ht : (i, s) ∈ tx es) by now apply elem_of_tx.
  destruct (list_elem_of_split _ _ Ht) as (l1 & l2 & Hsplit).
  pose proof (tx_sorted es) as Hsorted. rewrite Hsplit in Hsorted.
  assert (Hin : forall t, t ∈ l1 ++ (i, s) :: l2 -> t ∈ tx es)
    by (intros t Hin; now rewrite Hsplit).
  (* the sends before [i] find nothing *)
  assert (H1 : ofold (pair_step m) l1 first_run = Return first_run).
  { apply ofold_fixed. intros t Ht1.
    assert (Htx : t ∈ tx es) by (apply Hin, elem_of_app; now left).
    rewrite (pair_step_eq es m first_run t Hm Htx).
    rewrite ofilter_all_false; [reflexivity|].
    intros r' Hr'. destruct (first_run !! r'.1) as [v|] eqn:E;
      [eapply is_pair_taken, E|].
    destruct (Htimed t r' Htx Hr' E) as [Tt Tr].
    apply is_pair_free_false; [exact Tt|exact Tr|]. intros He'.
    apply elem_of_bucket in Hr' as [Hk' Hr'].
    apply elem_of_rx in Hr' as [Hlr Htr]. apply elem_of_tx in Htx as [Hlt Htt].
    assert (Hle : (i <= t.1)%nat).
    { apply (Hmin_i t.1 r'.1). exists t.2, r'.2. auto 10. }
    assert (Hlt' : by_index t (i, s)).
    { eapply StronglySorted_app_1_elem_of;
        [exact Hsorted|exact Ht1|apply list_elem_of_here]. }
    unfold by_index in Hlt'. cbn in Hlt'. lia. }
  (* the send at [i] takes the receive at [j] *)
  assert (H2 : pair_step m first_run (i, s)
               = Return (<[j := i]> (<[i := j]> first_run))).
  { destruct (pair_step_cases es m first_run (i, s) Hm Ht)
      as [E|[E|(first & rest & Ef & E)]].
    - destruct (pair_step_returns first_run (i, s) Ht (fun _ H => H))
        as [p1 Hp1]. congruence.
    - exfalso. rewrite (pair_step_eq es m first_run (i, s) Hm Ht) in E.
      apply obind_Return in E as (l' & Hf & E).
      assert (Hjr : (j, r) ∈ l').
      { eapply ofilter_keeps; [exact Hf| |].
        - apply elem_of_bucket. split; [now symmetry|]. now apply elem_of_rx.
        - now apply is_pair_free_true. }
      destruct l' as [|first rest]; [now apply not_elem_of_nil in Hjr|].
      injection E as E.
      assert (Hfirst : first ∈ first :: rest) by apply list_elem_of_here.
      apply (ofilter_Return _ _ _ Hf) in Hfirst as [_ Hp].
      apply is_pair_true in Hp as [Hnone _].
      rewrite <- E, lookup_insert_eq in Hnone. discriminate.
    - rewrite E. cbn [fst snd].
      assert (first.1 = j) as ->; [|reflexivity].
      destruct (ofilter_first _ _ _ _ Ef) as (b1 & b2 & Hb & Hb1 & Hp).
      pose proof (bucket_sorted (pair_key s) es) as Hbs.
      cbn [snd] in Hb. rewrite Hb in Hbs.
      assert (Hfin : first ∈ bucket (pair_key s) (rx es))
        by (rewrite Hb; apply elem_of_app; right; apply list_elem_of_here).
      apply elem_of_bucket in Hfin as [Hfk Hfr].
      apply elem_of_rx in Hfr as [Hfl Hft].
      apply is_pair_true in Hp as [Hfn Hfe].
      assert (Hle : (j <= first.1)%nat).
      { apply Hmin_j. exists s, first.2. auto 10. }
      destruct (decide (j = first.1)) as [Heq|Hne]; [now symmetry|].
      exfalso.
      assert (Hjr : (j, r) ∈ b1).
      { eapply sorted_before; [exact Hbs| |cbn; lia].
        rewrite <- Hb. apply elem_of_bucket.
        split; [now symmetry|]. now apply elem_of_rx. }
      apply Hb1 in Hjr.
      rewrite (is_pair_free_true first_run (j, r) (i, s) Hn He) in Hjr.
      discriminate. }
  assert (Hij : i <> j).
  { intros ->. assert (s = r) by congruence. subst r.
    rewrite Hs in Hr. discriminate. }
  rewrite Hsplit, ofold_app, H1 in H. cbn [obind ofold] in H.
  rewrite H2 in H. cbn [obind] in H.
  split.
  - eapply (pair_fold_keeps l2 i j); [|exact H|].
    + intros t Ht2. split.
      * apply Hin, elem_of_app. right. now apply list_elem_of_further.
      * apply StronglySorted_app_1_r in Hsorted.
        apply StronglySorted_inv in Hsorted as [_ Hf].
        rewrite Forall_forall in Hf. specialize (Hf t Ht2).
        unfold by_index in Hf. cbn in Hf. lia.
    + rewrite lookup_insert_ne by congruence. apply lookup_insert_eq.
  - eapply (pair_fold_keeps l2 j i); [|exact H|apply lookup_insert_eq].
    intros t Ht2.
    assert (Htx : t ∈ tx es).
    { apply Hin, elem_of_app. right. now apply list_elem_of_further. }
    split; [exact Htx|]. intros Heq.
    apply elem_of_tx in Htx as [Hlt Htt]. rewrite Heq in Hlt.
    assert (t.2 = r) by congruence. subst r.
    rewrite Htt in Hr. discriminate.
Qed.

End SecondRun.

(** C6. Pairing is a function of the events and of the links that they
    already carry, but it is not idempotent. After a first run on freshly
    decoded events, a second run on the same events returns, and it returns
    exactly the links of the first run if and only if no send is left with
    a receive of its key that carries no link and has a strictly later
    timestamp. When sends are left with such a receive, the first of them
    in the list is linked by the second run to the first such receive of
    the list, and that receive to the send. The receives keep the links
    that the first run gave them. *)
Theorem pairing_second_run (es : list entry) (pairs : links) :
  find_pairs es ∅ = Return pairs ->
  exists pairs2,
    find_pairs es pairs = Return pairs2
    /\ (pairs2 = pairs <-> forall i j, ~ free_later es pairs i j)
    /\ (forall i j, first_free es pairs i j ->
                    pairs2 !! i = Some j /\ pairs2 !! j = Some i)
    /\ (forall j r i, es !! j = Some r -> type r = ITC_RECV ->
                      pairs !! j = Some i -> pairs2 !! j = Some i).
Proof.
  intros H1.
  destruct (find_pairs_unfold es ∅) as (m & Hm & E1).
  destruct (find_pairs_unfold es pairs) as (m' & Hm' & E2).
  rewrite E1 in H1.
  assert (Htimed : forall t r, t ∈ tx es -> r ∈ bucket (pair_key t.2) (rx es) ->
                               pairs !! r.1 = None -> timed t.2 /\ timed r.2).
  { intros t r Ht Hr Hn.
    eapply (pair_fold_timed es m Hm (tx es) ∅ pairs); eauto. }
  destruct (pair_fold_returns es m' Hm' pairs Htimed (tx es) pairs)
    as [pairs2 H2]; [auto|auto|].
  exists pairs2. rewrite E2. split; [exact H2|].
  split; [split|split].
  - intros ->. eapply same_no_free; eassumption.
  - intros Hno.
    pose proof (find_pairs_saturated es pairs
                  (no_free_saturated es pairs Htimed Hno)) as Hs.
    rewrite E2, H2 in Hs. now injection Hs.
  - intros i j Hf. eapply first_free_linked; eassumption.
  - intros j r i Hj Hr Hji.
    eapply (pair_fold_keeps es m' Hm' (tx es) j i); [|exact H2|exact Hji].
    intros t Ht. split; [exact Ht|]. intros Heq.
    apply elem_of_tx in Ht as [Hlt Htt]. rewrite Heq in Hlt.
    assert (t.2 = r) by congruence. subst r.
    rewrite Htt in Hr. discriminate.
Qed.

Lemma pairing_second_run_witness :
  exists pairs2,
    find_pairs [event ITC_SEND 1 0; event ITC_RECV 2 0; event ITC_RECV 3 0]
               (linked 0 1) = Return pairs2
    /\ pairs2 <> linked 0 1
    /\ pairs2 !! 0%nat = Some 2%nat /\ pairs2 !! 2%nat = Some 0%nat
    /\ pairs2 !! 1%nat = Some 0%nat.
Proof.
  destruct (pairing_second_run
              [event ITC_SEND 1 0; event ITC_RECV 2 0; event ITC_RECV 3 0]
              (linked 0 1)) as (pairs2 & H2 & Hiff & Hfirst & Hkeep).
  { vm_compute. reflexivity. }
  assert (Hfree : free_later
                    [event ITC_SEND 1 0; event ITC_RECV 2 0; event ITC_RECV 3 0]
                    (linked 0 1) 0 2).
  { exists (event ITC_SEND 1 0), (event ITC_RECV 3 0).
    split; [reflexivity|]. split; [reflexivity|]. split; [reflexivity|].
    split; [reflexivity|]. split; [reflexivity|].
    split; [vm_compute; reflexivity|].
    unfold earlier. eexists _, _. split.
    - vm_compute. reflexivity.
    - split.
      + vm_compute. reflexivity.
      + vm_compute. reflexivity. }
  assert (Hfirst' : first_free
                      [event ITC_SEND 1 0; event ITC_RECV 2 0;
                       event ITC_RECV 3 0] (linked 0 1) 0 2).
  { split; [exact Hfree|]. split; [lia|].
    intros j' (s & r & _ & Hj & _ & Hr & _ & Hn & _).
    destruct j' as [|[|j']]; [|vm_compute in Hn; discriminate Hn|lia].
    cbn in Hj. injection Hj as <-. discriminate Hr. }
  destruct (Hfirst 0%nat 2%nat Hfirst') as [H02 H20].
  exists pairs2. split; [exact H2|]. split; [|split; [exact H02|]].
  - intros Heq. exact (proj1 Hiff Heq 0%nat 2%nat Hfree).
  - split; [exact H20|].
    apply (Hkeep 1%nat (event ITC_RECV 2 0) 0%nat); reflexivity.
Defined.

(** ** The tail monitor, continued *)

Lemma filter_all_length {A} (P : A -> Prop) `{forall x, Decision (P x)}
    (l : list A) :
  length (filter P l) = length l -> filter P l = l.
Proof.
  induction l as [|x l IH]; [reflexivity|].
  rewrite filter_cons. destruct (decide (P x)); cbn [length]; intros Hl.
  - f_equal. apply IH. lia.
  - pose proof (length_filter P l). lia.
Qed.

Lemma refs_snd es : (refs es).*2 = es.
Proof.
  unfold refs. rewrite fmap_imap.
  rewrite (imap_ext _ (fun _ e => e)) by reflexivity.
  induction es as [|e es IH]; [reflexivity|]. cbn [imap]. f_equal.
  rewrite <- IH at 2. now apply imap_ext.
Qed.

Lemma changed_from_cons previous i e es :
  changed_from previous i (e :: es)
  = if decide (seconds e <> 0 /\ previous !! i <> Some e)
    then e :: changed_from previous (S i) es
    else changed_from previous (S i) es.
Proof.
  unfold changed_from. cbn [imap].
  rewrite (imap_ext _ (fun j e => ((S i + j)%nat, e)))
    by (intros; cbn; f_equal; lia).
  replace (i + 0)%nat with i by lia. rewrite filter_cons. cbn [fst snd].
  now destruct (decide (seconds e <> 0 /\ previous !! i <> Some e)).
Qed.

Lemma length_changed_from previous i es :
  (length (changed_from previous i es) <= length es)%nat.
Proof.
  unfold changed_from. rewrite length_fmap.
  etransitivity; [apply length_filter|]. now rewrite length_imap.
Qed.

Lemma changed_from_0 previous es : changed_from previous 0 es = changed previous es.
Proof. reflexivity. Qed.

Lemma tail_loop_spec previous entries :
  forall i t o,
    tail_loop previous i entries t o
    = (changed_from previous i entries, t && forallb written entries,
       o || negb (length (changed_from previous i entries)
                  =? length entries)%nat).
Proof.
  induction entries as [|e es IH]; intros i t o.
  - cbn. now rewrite andb_true_r, orb_false_r.
  - cbn [tail_loop forallb length]. rewrite !IH, changed_from_cons. clear IH.
    pose proof (length_changed_from previous (S i) es) as Hrest.
    change (written e) with (negb (seconds e =? 0)).
    destruct (Z.eqb_spec (seconds e) 0) as [E|E]; cbn [negb andb].
    + rewrite decide_False by tauto. rewrite andb_false_r. f_equal.
      destruct (Nat.eqb_spec (length (changed_from previous (S i) es))
                             (S (length es))); [lia|].
      now rewrite orb_true_r.
    + destruct (Nat.leb_spec (length previous) i) as [Hle|Hlt]; cbn [orb].
      * rewrite decide_True
          by (split; [exact E|]; rewrite lookup_ge_None_2 by lia;
              discriminate).
        reflexivity.
      * destruct (decide (previous !! i = Some e)) as [Hp|Hp].
        -- rewrite bool_decide_eq_true_2 by exact Hp. cbn [negb].
           rewrite decide_False by tauto. f_equal.
           destruct (Nat.eqb_spec (length (changed_from previous (S i) es))
                                  (S (length es))); [lia|].
           now rewrite orb_true_r.
        -- rewrite bool_decide_eq_false_2 by exact Hp. cbn [negb].
           rewrite decide_True by tauto. reflexivity.
Qed.

Lemma changed_all previous entries :
  length (changed previous entries) = length entries
  <-> changed previous entries = entries.
Proof.
  split; [|now intros ->]. unfold changed. rewrite length_fmap.
  intros H. rewrite filter_all_length; [apply refs_snd|].
  transitivity (length entries); [exact H|].
  symmetry. unfold refs. apply length_imap.
Qed.

Lemma diff_entries_eq f previous entries :
  diff_entries f previous entries
  = map Print (changed previous entries)
    ++ (if decide (previous <> [] /\ changed previous entries = entries)
        then [lost f] else [])
    ++ (if decide (previous = []
                   /\ Forall (fun e => seconds e <> 0) entries)
        then [initial_loss f] else []).
Proof.
  unfold diff_entries. rewrite tail_loop_spec, changed_from_0.
  cbn [andb orb]. f_equal. f_equal.
  - destruct (Nat.eqb_spec (length (changed previous entries))
                           (length entries)) as [E|E]; cbn [negb andb].
    + apply changed_all in E.
      destruct previous as [|p previous]; cbn [length Nat.eqb negb].
      * rewrite decide_False by (intros [? _]; congruence). reflexivity.
      * now rewrite decide_True by (split; [discriminate|exact E]).
    + rewrite decide_False; [reflexivity|].
      intros [_ H]. apply changed_all in H. contradiction.
  - destruct previous as [|p previous]; cbn [length Nat.eqb andb].
    + destruct (forallb written entries) eqn:E.
      * rewrite decide_True; [reflexivity|].
        split; [reflexivity|now apply forallb_written].
      * rewrite decide_False; [reflexivity|].
        intros [_ H]. apply forallb_written in H. congruence.
    + now rewrite decide_False by (intros [? _]; discriminate).
Qed.

(** X16. What one poll prints: the entries that are written and differ from
    the entry at the same position of the previous poll, in the order of
    the file; then "Signals may have been lost" when there was a previous
    poll and every entry of this one is printed (none is left as it was and
    none is unwritten); then "Initial signals may have been lost" when
    there was no previous entry and no slot is unwritten. *)
Theorem poll_output (f : string) (previous entries : list entry) :
  diff_entries f previous entries
  = map Print (changed previous entries)
    ++ (if decide (previous <> [] /\ changed previous entries = entries)
        then [lost f] else [])
    ++ (if decide (previous = []
                   /\ Forall (fun e => seconds e <> 0) entries)
        then [initial_loss f] else []).
Proof. apply diff_entries_eq. Qed.

Lemma changed_same entries : changed entries entries = [].
Proof.
  unfold changed. replace (filter _ (refs entries)) with (@nil ref);
    [reflexivity|].
  symmetry. apply elem_of_nil_inv. intros [i e] H.
  apply list_elem_of_filter in H as [[_ Hn] H]. apply elem_of_refs in H.
  cbn in Hn. contradiction.
Qed.

Lemma diff_entries_same f entries :
  diff_entries f entries entries
  = if decide (entries = []) then [initial_loss f] else [].
Proof.
  rewrite diff_entries_eq, changed_same. cbn [map app].
  destruct entries as [|e es].
  - rewrite decide_False by (intros [? _]; congruence).
    rewrite decide_True by (split; [reflexivity|constructor]).
    now rewrite decide_True by reflexivity.
  - rewrite decide_False by (intros [_ ?]; discriminate).
    rewrite decide_False by (intros [? _]; discriminate).
    now rewrite decide_False by discriminate.
Qed.

(** X17. A poll that decodes the same entries as the poll before prints
    nothing, unless there is no entry at all: then it reports, at every
    poll, that initial signals may have been lost. *)
Theorem unchanged_poll_silent (f : string) (entries : list entry) :
  diff_entries f entries entries
  = if decide (entries = []) then [initial_loss f] else [].
Proof. apply diff_entries_same. Qed.

(** X18. Polling a file twice without a change in between: the second poll
    prints none of its entries and leaves the snapshot as the first poll
    made it. Its output is what [read_binary] reports on stderr, and the
    message about initial signals when the file holds no record. *)
Theorem second_poll_silent (fuel : nat) (f : string) (bytes : list byte)
    (previous_data : gmap string (list entry)) (entries : list entry)
    (w : world) :
  read_binary fuel f true (open bytes) = Some (Return entries, w) ->
  let snapshot := <[f := entries]> previous_data in
  (exists out, poll_file fuel f (Some bytes) previous_data
               = Some (Return (out, snapshot)))
  /\ poll_file fuel f (Some bytes) snapshot
     = Some (Return (map Stderr (stderr w)
                       ++ (if decide (entries = []) then [initial_loss f]
                           else []),
                     snapshot)).
Proof.
  intros Hread snapshot. split.
  - unfold poll_file. rewrite Hread.
    destruct (previous_data !! f); eexists; reflexivity.
  - unfold poll_file, snapshot. rewrite lookup_insert_eq, Hread.
    rewrite diff_entries_same, insert_insert_eq. reflexivity.
Qed.

Lemma second_poll_silent_witness :
  poll_file 1 "f" (Some (le_header x02 ++ v2_record_at_5))
            (<["f" := [layout_v2 LE v2_record_at_5]]> ∅)
  = Some (Return ([], <["f" := [layout_v2 LE v2_record_at_5]]> ∅)).
Proof.
  apply (second_poll_silent 1 "f" (le_header x02 ++ v2_record_at_5) ∅
           [layout_v2 LE v2_record_at_5]
           {| contents := le_header x02 ++ v2_record_at_5; cursor := 44;
              stderr := [] |}).
  vm_compute. reflexivity.
Defined.

(** ** The identifier filter, continued *)

Lemma elem_of_keep matcher (ids : gset Z) s :
  s ∈ keep matcher ids <-> matcher s = true /\ s ∈ ids.
Proof. unfold keep. now rewrite elem_of_filter. Qed.

Section Excluded.

Variable re_compile : string -> option (string -> bool).
Variable idset : gset Z.
Variable idmap : gmap Z string.

Lemma filter_step_excluded st tok st' :
  filter_step re_compile idset idmap st tok = Return st' ->
  forall s, s ∈ st'.2
            <-> s ∈ st.2
                \/ (s ∈ idset /\ negated tok.2
                    /\ token_matches re_compile idmap tok.2 s).
Proof.
  destruct st as [sel unsel], tok as [n m]. unfold filter_step.
  intros H. apply obind_Return in H as (matcher & Hm & H).
  unfold negated, token_matches. cbn [fst snd]. rewrite Hm.
  destruct (decide (m !! "ex" = Some "-")) as [E|E].
  - injection H as <-. cbn [snd]. intros s.
    rewrite elem_of_union, elem_of_keep. split.
    + intros [Hs|[Hs Hi]]; [now left|]. right. eauto 6.
    + intros [Hs|(Hi & _ & mt & [= <-] & Hs)]; auto.
  - assert (st'.2 = unsel) as ->
        by (destruct (decide (m !! "ex" = Some "~"));
            injection H as <-; reflexivity).
    intros s. split; [now left|]. intros [Hs|(_ & Hn & _)]; [exact Hs|].
    contradiction.
Qed.

Lemma filter_fold_excluded (l : list (nat * Re.groups)) :
  forall st st',
    ofold (filter_step re_compile idset idmap) l st = Return st' ->
    forall s, s ∈ st'.2
              <-> s ∈ st.2
                  \/ (s ∈ idset
                      /\ exists tok, tok ∈ l /\ negated tok.2
                                     /\ token_matches re_compile idmap tok.2 s).
Proof.
  induction l as [|tok l IH]; intros st st' H s.
  - injection H as <-. split; [now left|].
    intros [Hs|(_ & tok & Ht & _)]; [exact Hs|]. now apply not_elem_of_nil in Ht.
  - cbn [ofold] in H. apply obind_Return in H as (st1 & H1 & H2).
    rewrite (IH _ _ H2), (filter_step_excluded _ _ _ H1). split.
    + intros [[Hs|(Hi & Hn & Hm)]|(Hi & t & Ht & Hn & Hm)].
      * now left.
      * right. split; [exact Hi|]. exists tok. split; [left|]; auto.
      * right. split; [exact Hi|]. exists t. split; [now right|]; auto.
    + intros [Hs|(Hi & t & Ht & Hn & Hm)]; [now left; left|].
      apply elem_of_cons in Ht as [->|Ht]; [left; right; auto|].
      right. eauto.
Qed.

Lemma filter_ids_excluded filter sel unsel :
  filter_ids re_compile filter idset idmap = Return (sel, unsel) ->
  forall s, s ∈ unsel
            <-> s ∈ idset
                /\ exists m, m ∈ Re.finditer regex filter /\ negated m
                             /\ token_matches re_compile idmap m s.
Proof.
  unfold filter_ids. destruct (decide (filter = EmptyString)) as [->|_].
  - intros [= <- <-] s. split; [intros H; now apply not_elem_of_empty in H|].
    intros (_ & m & Hm & _). vm_compute in Hm. now apply not_elem_of_nil in Hm.
  - intros H s. rewrite (filter_fold_excluded _ _ _ H s). cbn [snd]. split.
    + intros [Hs|(Hi & [n m] & Ht & Hn & Hm)];
        [now apply not_elem_of_empty in Hs|].
      split; [exact Hi|]. exists m. split; [|auto].
      apply elem_of_lookup_imap in Ht as (i & y & [= _ ->] & Hy).
      eapply list_elem_of_lookup_2, Hy.
    + intros (Hi & m & Hm & Hn & Hmt). right. split; [exact Hi|].
      apply list_elem_of_lookup_1 in Hm as [i Hi'].
      exists (S i, m). split; [|auto].
      apply elem_of_lookup_imap. eauto.
Qed.

End Excluded.

(** X19. The second set that [filter_ids] returns, the ids that were
    excluded on purpose, holds exactly the ids of the universe that some
    token with the prefix [-] matches, wherever that token stands in the
    filter and whatever the tokens after it select. *)
Theorem excluded_ids (re_compile : string -> option (string -> bool))
    (filter : string) (idset : gset Z) (idmap : gmap Z string)
    (sel unsel : gset Z) :
  filter_ids re_compile filter idset idmap = Return (sel, unsel) ->
  forall s, s ∈ unsel
            <-> s ∈ idset
                /\ exists m, m ∈ Re.finditer regex filter /\ negated m
                             /\ token_matches re_compile idmap m s.
Proof. apply filter_ids_excluded. Qed.

Lemma excluded_ids_witness :
  (0x17a34 ∈ example_ids)
  /\ exists m, m ∈ Re.finditer regex example_filter /\ negated m
               /\ token_matches Lit.compile example_names m 0x17a34.
Proof.
  apply (excluded_ids Lit.compile example_filter example_ids example_names
           {[ 0x17000; 0x17001; 0x18000 ]} {[ 0x17000; 0x17a34 ]}).
  - vm_compute. reflexivity.
  - set_solver.
Defined.

Lemma filter_ids_last re_compile filter idset idmap toks m st :
  filter <> EmptyString ->
  Re.finditer regex filter = toks ++ [m] ->
  filter_ids re_compile filter idset idmap = Return st ->
  exists st0,
    filter_step re_compile idset idmap st0 (S (length toks), m) = Return st.
Proof.
  intros Hne Htoks. unfold filter_ids.
  destruct (decide (filter = EmptyString)); [contradiction|].
  rewrite Htoks, imap_app, ofold_app. cbn [imap ofold].
  intros H. apply obind_Return in H as (st0 & _ & H).
  apply obind_Return in H as (st1 & H & [= <-]).
  exists st0. now rewrite Nat.add_0_r in H.
Qed.

(** X20. The last token of a filter has the final word on the ids it
    matches: when it has the prefix [-] none of them is selected, when it
    has the prefix [~] nothing else is selected, and otherwise every id of
    the universe that it matches is selected. *)
Theorem last_token_decides (re_compile : string -> option (string -> bool))
    (filter : string) (idset : gset Z) (idmap : gmap Z string)
    (toks : list Re.groups) (m : Re.groups) (sel unsel : gset Z) :
  filter <> EmptyString ->
  Re.finditer regex filter = toks ++ [m] ->
  filter_ids re_compile filter idset idmap = Return (sel, unsel) ->
  exists matcher,
    matcher_of re_compile idmap m = Return matcher
    /\ (if decide (m !! "ex" = Some "-")
        then forall s, matcher s = true -> s ∉ sel
        else if decide (m !! "ex" = Some "~")
             then forall s, s ∈ sel -> matcher s = true
             else forall s, s ∈ idset -> matcher s = true -> s ∈ sel).
Proof.
  intros Hne Htoks H.
  destruct (filter_ids_last _ _ _ _ _ _ _ Hne Htoks H) as ([sel0 unsel0] & Hs).
  unfold filter_step in Hs.
  apply obind_Return in Hs as (matcher & Hm & Hs).
  exists matcher. split; [exact Hm|].
  destruct (decide (m !! "ex" = Some "-")).
  - injection Hs as <- _. intros s Hs Hin.
    apply elem_of_difference in Hin as [Hin Hn]. apply Hn.
    apply elem_of_keep. auto.
  - destruct (decide (m !! "ex" = Some "~")); injection Hs as <- _.
    + intros s Hin. now apply elem_of_keep in Hin as [? _].
    + intros s Hi Hs. apply elem_of_union. right. apply elem_of_keep. auto.
Qed.

Lemma last_token_decides_witness :
  exists matcher,
    matcher_of Lit.compile example_names {[ "ex" := "-"; "hex" := "0x17a34" ]}
    = Return matcher
    /\ forall s, matcher s = true
                 -> s ∉ ({[ 0x17000; 0x17001; 0x18000 ]} : gset Z).
Proof.
  destruct (last_token_decides Lit.compile example_filter example_ids
              example_names
              [ {[ "ex" := "-"; "str" := "cfm$" ]};
                {[ "hex" := "0x17000"; "hex2" := "0x17fff" ]} ]
              {[ "ex" := "-"; "hex" := "0x17a34" ]}
              {[ 0x17000; 0x17001; 0x18000 ]} {[ 0x17000; 0x17a34 ]})
    as (matcher & Hm & Hs).
  - discriminate.
  - vm_compute. reflexivity.
  - vm_compute. reflexivity.
  - exists matcher. split; [exact Hm|].
    destruct (decide (_ = Some "-")) as [_|Hn] in Hs; [exact Hs|].
    elim Hn. vm_compute. reflexivity.
Defined.

(** ** Mailboxes and signals of a trace *)

Lemma elem_of_get_all_boxes es b :
  b ∈ get_all_boxes es
  <-> exists e, e ∈ es /\ (sender e = b \/ receiver e = b).
Proof.
  unfold get_all_boxes.
  assert (H : forall acc : gset Z,
             b ∈ fold_left (fun boxes entry =>
                              boxes ∪ {[ sender entry ]} ∪ {[ receiver entry ]})
                           es acc
             <-> b ∈ acc \/ exists e, e ∈ es
                                      /\ (sender e = b \/ receiver e = b)).
  { induction es as [|e es IH]; intros acc; cbn [fold_left].
    - split; [now left|]. intros [H|(e & He & _)]; [exact H|].
      now apply not_elem_of_nil in He.
    - rewrite IH. split.
      + intros [H|(x & Hx & H)].
        * apply elem_of_union in H as [H|H].
          -- apply elem_of_union in H as [H|H]; [now left|].
             apply elem_of_singleton in H. right. exists e.
             split; [left|]; auto.
          -- apply elem_of_singleton in H. right. exists e.
             split; [left|]; auto.
        * right. exists x. split; [now right|exact H].
      + intros [H|(x & Hx & H)]; [left; rewrite !elem_of_union; auto|].
        apply elem_of_cons in Hx as [->|Hx]; [|right; eauto].
        left. rewrite !elem_of_union, !elem_of_singleton.
        destruct H as [<-|<-]; auto. }
  rewrite H. split; [|now right].
  intros [Hb|Hb]; [now apply not_elem_of_empty in Hb|exact Hb].
Qed.

Lemma elem_of_get_local_boxes es b :
  b ∈ get_local_boxes es
  <-> exists e, e ∈ es /\ (type e = ITC_SEND /\ sender e = b
                           \/ type e = ITC_RECV /\ receiver e = b).
Proof.
  unfold get_local_boxes.
  assert (H : forall acc : gset Z,
             b ∈ fold_left
                   (fun boxes i =>
                      if decide (type i = ITC_SEND) then boxes ∪ {[ sender i ]}
                      else if decide (type i = ITC_RECV)
                           then boxes ∪ {[ receiver i ]} else boxes)
                   es acc
             <-> b ∈ acc
                 \/ exists e, e ∈ es
                              /\ (type e = ITC_SEND /\ sender e = b
                                  \/ type e = ITC_RECV /\ receiver e = b)).
  { induction es as [|e es IH]; intros acc; cbn [fold_left].
    - split; [now left|]. intros [H|(e & He & _)]; [exact H|].
      now apply not_elem_of_nil in He.
    - rewrite IH. split.
      + intros [H|(x & Hx & H)].
        * destruct (decide (type e = ITC_SEND)) as [Es|Es].
          -- apply elem_of_union in H as [H|H]; [now left|].
             apply elem_of_singleton in H. right. exists e.
             split; [left|]; auto.
          -- destruct (decide (type e = ITC_RECV)) as [Er|Er]; [|now left].
             apply elem_of_union in H as [H|H]; [now left|].
             apply elem_of_singleton in H. right. exists e.
             split; [left|]; auto.
        * right. exists x. split; [now right|exact H].
      + intros [H|(x & Hx & H)].
        * left. destruct (decide (type e = ITC_SEND));
            [|destruct (decide (type e = ITC_RECV))];
            rewrite ?elem_of_union; auto.
        * apply elem_of_cons in Hx as [->|Hx]; [|right; eauto].
          left. destruct H as [[Ht <-]|[Ht <-]].
          -- rewrite decide_True by exact Ht.
             rewrite elem_of_union, elem_of_singleton. auto.
          -- rewrite decide_False by (rewrite Ht; discriminate).
             rewrite decide_True by exact Ht.
             rewrite elem_of_union, elem_of_singleton. auto. }
  rewrite H. split; [|now right].
  intros [Hb|Hb]; [now apply not_elem_of_empty in Hb|exact Hb].
Qed.

(** X21. The mailboxes of a trace: [get_all_boxes] holds the senders and
    the receivers of all entries, [get_local_boxes] the senders of the
    sends and the receivers of the receives, so every local mailbox is among
    all mailboxes, and an entry that is neither a send nor a receive adds
    no local mailbox. [get_all_signals] holds the signal numbers. *)
Theorem boxes_and_signals (es : list entry) (b : Z) :
  (b ∈ get_all_boxes es
   <-> exists e, e ∈ es /\ (sender e = b \/ receiver e = b))
  /\ (b ∈ get_local_boxes es
      <-> exists e, e ∈ es /\ (type e = ITC_SEND /\ sender e = b
                               \/ type e = ITC_RECV /\ receiver e = b))
  /\ (b ∈ get_all_signals es <-> exists e, e ∈ es /\ signo e = b)
  /\ get_local_boxes es ⊆ get_all_boxes es.
Proof.
  split; [apply elem_of_get_all_boxes|].
  split; [apply elem_of_get_local_boxes|]. split.
  - unfold get_all_signals. rewrite elem_of_list_to_set, list_elem_of_fmap.
    split; intros (e & H1 & H2); exists e; auto.
  - intros x Hx. apply elem_of_get_local_boxes in Hx as (e & He & H).
    apply elem_of_get_all_boxes. exists e. split; [exact He|]. tauto.
Qed.

(** ** The selection of [__main__] *)

Lemma filter_iff_in {A} (P1 P2 : A -> Prop)
    `{!forall x, Decision (P1 x), !forall x, Decision (P2 x)} (l : list A) :
  (forall x, x ∈ l -> P1 x <-> P2 x) -> filter P1 l = filter P2 l.
Proof.
  induction l as [|a l IH]; intros Hiff; [reflexivity|].
  assert (Ha : P1 a <-> P2 a) by (apply Hiff, list_elem_of_here).
  assert (Hl : filter P1 l = filter P2 l)
    by (apply IH; intros x Hx; apply Hiff; now apply list_elem_of_further).
  rewrite !filter_cons, Hl.
  destruct (decide (P1 a)), (decide (P2 a)); tauto.
Qed.

Lemma sender_receiver_in_boxes data d :
  d ∈ data -> sender d ∈ get_all_boxes data /\ receiver d ∈ get_all_boxes data.
Proof.
  intros Hd. split; apply elem_of_get_all_boxes; exists d; auto.
Qed.

Lemma select_signal_only re_compile signal_filter signals mailboxes data alls ex :
  signal_filter <> EmptyString ->
  filter_ids re_compile signal_filter (get_all_signals data) signals
  = Return (alls, ex) ->
  select re_compile signal_filter EmptyString signals mailboxes data
  = if decide (filter (fun d => signo d ∈ alls) data = [])
    then Raise TypeError
    else Return (filter (fun d => signo d ∈ alls) data).
Proof.
  intros Hne Hf. unfold select.
  rewrite decide_False by (intros [? _]; contradiction).
  rewrite Hf. cbn [obind fst andb negb].
  rewrite bool_decide_eq_true_2 by reflexivity. cbn [negb andb].
  unfold filter_ids at 1. rewrite decide_True by reflexivity.
  cbn [obind fst snd].
  rewrite (filter_iff_in _ (fun d => signo d ∈ alls)); [reflexivity|].
  intros d Hd. destruct (sender_receiver_in_boxes data d Hd) as [Hs Hr].
  split; [now intros [? _]|]. intros H. split; [exact H|].
  split; [now left|]. split; apply not_elem_of_empty.
Qed.

(** X22. With [--signal-filter] alone, the entries that go on are those
    whose signal number the filter selects, in their order; the mailboxes
    play no part. When no entry is left the script does not print its
    message and exit with 1: calling [print_stderr] with [file=] raises
    [TypeError]. *)
Theorem signal_filter_alone (re_compile : string -> option (string -> bool))
    (signal_filter : string) (signals mailboxes : gmap Z string)
    (data : list entry) (alls ex : gset Z) :
  signal_filter <> EmptyString ->
  filter_ids re_compile signal_filter (get_all_signals data) signals
  = Return (alls, ex) ->
  select re_compile signal_filter EmptyString signals mailboxes data
  = if decide (filter (fun d => signo d ∈ alls) data = [])
    then Raise TypeError
    else Return (filter (fun d => signo d ∈ alls) data).
Proof. apply select_signal_only. Qed.

Lemma signal_filter_alone_witness :
  select Lit.compile "8" EmptyString ∅ ∅ [event ITC_SEND 5 0]
  = Raise TypeError.
Proof.
  rewrite (signal_filter_alone Lit.compile "8" ∅ ∅ [event ITC_SEND 5 0] ∅ ∅).
  - vm_compute. reflexivity.
  - discriminate.
  - vm_compute. reflexivity.
Defined.

Lemma select_excluded re_compile signal_filter mailbox_filter signals
    mailboxes data data' d m :
  find ":" mailbox_filter < 0 ->
  select re_compile signal_filter mailbox_filter signals mailboxes data
  = Return data' ->
  d ∈ data' -> m ∈ Re.finditer regex mailbox_filter -> negated m ->
  ~ token_matches re_compile mailboxes m (sender d)
  /\ ~ token_matches re_compile mailboxes m (receiver d).
Proof.
  intros Hcolon Hsel Hd Hm Hn. unfold select in Hsel.
  destruct (decide (signal_filter = EmptyString
                    /\ mailbox_filter = EmptyString)) as [[_ ->]|_].
  { vm_compute in Hm. now apply not_elem_of_nil in Hm. }
  apply obind_Return in Hsel as (s & _ & Hsel).
  apply obind_Return in Hsel as (data1 & H1 & Hsel).
  destruct (decide (data1 = [])); [discriminate|]. injection Hsel as ->.
  destruct (Z.leb_spec 0 (find ":" mailbox_filter)) as [?|_]; [lia|].
  rewrite andb_false_r in H1.
  apply obind_Return in H1 as ([allm exm] & Hf & [= <-]).
  apply list_elem_of_filter in Hd as [(_ & _ & Hs & Hr) Hd].
  destruct (sender_receiver_in_boxes data d Hd) as [Hbs Hbr].
  cbn [snd] in Hs, Hr.
  split; intros Ht.
  - apply Hs. apply (filter_ids_excluded _ _ _ _ _ _ Hf). eauto.
  - apply Hr. apply (filter_ids_excluded _ _ _ _ _ _ Hf). eauto.
Qed.

(** X23. A mailbox filter without [:] never lets through an entry whose
    sender or receiver matches one of its tokens with the prefix [-]:
    unlike the selection, which a later token can widen again, the
    exclusion of a mailbox holds wherever its token stands. *)
Theorem excluded_mailbox_dropped
    (re_compile : string -> option (string -> bool))
    (signal_filter mailbox_filter : string)
    (signals mailboxes : gmap Z string) (data data' : list entry)
    (d : entry) (m : Re.groups) :
  find ":" mailbox_filter < 0 ->
  select re_compile signal_filter mailbox_filter signals mailboxes data
  = Return data' ->
  d ∈ data' -> m ∈ Re.finditer regex mailbox_filter -> negated m ->
  ~ token_matches re_compile mailboxes m (sender d)
  /\ ~ token_matches re_compile mailboxes m (receiver d).
Proof. apply select_excluded. Qed.

Lemma excluded_mailbox_dropped_witness :
  select Lit.compile EmptyString "-1, 1-4" ∅ ∅
         [event_between 1 2; event_between 3 4]
  = Return [event_between 3 4]
  /\ ~ token_matches Lit.compile ∅ {[ "ex" := "-"; "dec" := "1" ]} 3
  /\ ~ token_matches Lit.compile ∅ {[ "ex" := "-"; "dec" := "1" ]} 4.
Proof.
  assert (H : select Lit.compile EmptyString "-1, 1-4" ∅ ∅
                     [event_between 1 2; event_between 3 4]
              = Return [event_between 3 4]) by (vm_compute; reflexivity).
  split; [exact H|].
  apply (excluded_mailbox_dropped Lit.compile EmptyString "-1, 1-4" ∅ ∅
           [event_between 1 2; event_between 3 4] [event_between 3 4]
           (event_between 3 4) {[ "ex" := "-"; "dec" := "1" ]}).
  - vm_compute. reflexivity.
  - exact H.
  - apply list_elem_of_here.
  - vm_compute. apply list_elem_of_here.
  - vm_compute. reflexivity.
Defined.

(** ** Strings: the built-ins on well-formed fields *)

Lemma append_cons c (a b : string) :
  (String c a ++ b)%string = String c (a ++ b).
Proof. reflexivity. Qed.

Lemma append_nil_l (b : string) : ("" ++ b)%string = b.
Proof. reflexivity. Qed.

Lemma append_nil_r (s : string) : (s ++ "")%string = s.
Proof.
  induction s as [|c s IH]; [reflexivity|]. rewrite append_cons. now f_equal.
Qed.

Lemma append_assoc (a b c : string) :
  ((a ++ b) ++ c)%string = (a ++ b ++ c)%string.
Proof.
  induction a as [|x a IH]; [reflexivity|]. rewrite !append_cons.
  now f_equal.
Qed.

Lemma str_all_app P (a b : string) :
  str_all P (a ++ b) = str_all P a && str_all P b.
Proof.
  induction a as [|c a IH]; [reflexivity|]. rewrite append_cons.
  cbn [str_all]. now rewrite IH, andb_assoc.
Qed.

Lemma str_all_impl (P Q : ascii -> bool) s :
  (forall c, P c = true -> Q c = true) ->
  str_all P s = true -> str_all Q s = true.
Proof.
  intros H. induction s as [|c s IH]; cbn; [reflexivity|].
  intros [Hc Hs]%andb_true_iff. now rewrite (H c Hc), IH.
Qed.

Lemma word_char_not_space c : word_char c = true -> Py.is_space c = false.
Proof. unfold word_char. now intros [H%negb_true_iff _]%andb_true_iff. Qed.

Lemma int_space_space c : Py.int_space c = true -> Py.is_space c = true.
Proof. destruct c as [[] [] [] [] [] [] [] []]; vm_compute; congruence. Qed.

Lemma word_char_not_int_space c :
  word_char c = true -> Py.int_space c = false.
Proof.
  intros H%word_char_not_space.
  destruct (Py.int_space c) eqn:E; [|reflexivity].
  apply int_space_space in E. congruence.
Qed.

Lemma num_char_word c : num_char c = true -> word_char c = true.
Proof. unfold num_char. now intros [H _]%andb_true_iff. Qed.

Lemma rev_app_rev_app s :
  forall a b, String.rev_app (String.rev_app s a) b
              = String.rev_app a (s ++ b)%string.
Proof.
  induction s as [|c s IH]; intros a b; [reflexivity|].
  cbn [String.rev_app]. now rewrite IH.
Qed.

Lemma rev_rev s : String.rev (String.rev s) = s.
Proof.
  unfold String.rev. rewrite rev_app_rev_app. cbn [String.rev_app].
  apply append_nil_r.
Qed.

Lemma str_all_rev_app P s :
  forall a, str_all P (String.rev_app s a) = str_all P s && str_all P a.
Proof.
  induction s as [|c s IH]; intros a; cbn; [reflexivity|].
  rewrite IH. cbn. now rewrite andb_assoc, (andb_comm (P c)).
Qed.

Lemma lstrip_word s :
  str_all word_char s = true -> Py.lstrip s = s.
Proof.
  destruct s as [|c s]; [reflexivity|]. cbn.
  intros [Hc _]%andb_true_iff. now rewrite (word_char_not_int_space c Hc).
Qed.

(** Stripping leaves a string without whitespace as it is. *)
Lemma strip_word s :
  str_all word_char s = true -> Py.rstrip (Py.lstrip s) = s.
Proof.
  intros H. rewrite (lstrip_word s H). unfold Py.rstrip.
  rewrite lstrip_word; [apply rev_rev|].
  unfold String.rev. now rewrite str_all_rev_app, H.
Qed.

(** *** [split] on one character *)

Lemma prefix_char x c r :
  String.prefix (String x EmptyString) (String c r) = Ascii.eqb c x.
Proof.
  cbn. destruct (ascii_dec x c) as [->|Hne].
  - rewrite Ascii.eqb_refl. now destruct r.
  - symmetry. apply Ascii.eqb_neq. congruence.
Qed.

Lemma split_aux_none x s :
  str_all (is_not x) s = true ->
  Py.split_aux (String x EmptyString) 0 s = (s, []).
Proof.
  induction s as [|c s IH]; [reflexivity|].
  cbn [str_all Py.split_aux]. intros [Hc Hs]%andb_true_iff.
  rewrite prefix_char. unfold is_not in Hc. apply negb_true_iff in Hc.
  now rewrite Hc, (IH Hs).
Qed.

Lemma split_none x s :
  str_all (is_not x) s = true -> Py.split (String x EmptyString) s = [s].
Proof. intros H. unfold Py.split. now rewrite split_aux_none. Qed.

(** The first piece is what stands before the first separator. *)
Lemma split_aux_first x a b :
  str_all (is_not x) a = true ->
  Py.split_aux (String x EmptyString) 0 (a ++ String x b)
  = (a, Py.split (String x EmptyString) b).
Proof.
  induction a as [|c a IH]; intros H.
  - rewrite append_nil_l. cbn [Py.split_aux].
    rewrite prefix_char, Ascii.eqb_refl. reflexivity.
  - cbn [str_all] in H. apply andb_true_iff in H as [Hc Ha].
    rewrite append_cons. cbn [Py.split_aux]. rewrite prefix_char.
    unfold is_not in Hc. apply negb_true_iff in Hc.
    now rewrite Hc, (IH Ha).
Qed.

Lemma split_once x a b :
  str_all (is_not x) a = true -> str_all (is_not x) b = true ->
  Py.split (String x EmptyString) (a ++ String x b) = [a; b].
Proof.
  intros Ha Hb. unfold Py.split at 1. rewrite split_aux_first by exact Ha.
  now rewrite split_none.
Qed.

(** *** [split()] on whitespace *)

Lemma words_aux_word tok :
  forall cur sp rest,
    str_all word_char tok = true -> Py.is_space sp = true ->
    (is_Some cur \/ tok <> EmptyString) ->
    Py.words_aux cur (tok ++ String sp rest)
    = (default EmptyString cur ++ tok)%string :: Py.words_aux None rest.
Proof.
  induction tok as [|c tok IH]; intros cur sp rest Htok Hsp Hne.
  - destruct Hne as [[w ->]|Hne]; [|contradiction].
    rewrite append_nil_l. cbn [Py.words_aux].
    rewrite Hsp, append_nil_r. reflexivity.
  - cbn [str_all] in Htok. apply andb_true_iff in Htok as [Hc Htok].
    rewrite append_cons. cbn [Py.words_aux].
    rewrite (word_char_not_space c Hc).
    rewrite IH by (try assumption; left; eauto).
    f_equal. unfold default at 1. cbn [from_option id].
    now rewrite append_assoc.
Qed.

Lemma words_aux_spaces s :
  str_all Py.is_space s = true -> Py.words_aux None s = [].
Proof.
  induction s as [|c s IH]; [reflexivity|]. cbn.
  intros [Hc Hs]%andb_true_iff. now rewrite Hc, IH.
Qed.

(** *** Numerals *)

Lemma small_cases k :
  0 <= k < 16 ->
  k = 0 \/ k = 1 \/ k = 2 \/ k = 3 \/ k = 4 \/ k = 5 \/ k = 6 \/ k = 7
  \/ k = 8 \/ k = 9 \/ k = 10 \/ k = 11 \/ k = 12 \/ k = 13 \/ k = 14
  \/ k = 15.
Proof. lia. Qed.

Ltac each_digit k H :=
  apply small_cases in H;
  repeat (destruct H as [H|H]; [subst k|]); [..|subst k].

Lemma hex_digit_num_char k : 0 <= k < 16 -> num_char (Py.hex_digit k) = true.
Proof. intros H. each_digit k H; reflexivity. Qed.

Lemma hex_digit_val k :
  0 <= k < 16 ->
  Ascii.eqb (Py.hex_digit k) "_" = false
  /\ Py.digit_val (Py.hex_digit k) = Some k.
Proof. intros H. each_digit k H; split; reflexivity. Qed.

Lemma digits_step base a prev k s :
  0 <= k < base -> base <= 16 ->
  Py.digits base a prev (String (Py.hex_digit k) s)
  = Py.digits base (base * a + k) true s.
Proof.
  intros Hk Hb. destruct (hex_digit_val k) as [H1 H2]; [lia|].
  cbn [Py.digits]. rewrite H1, H2.
  now destruct (Z.ltb_spec k base); [|lia].
Qed.

Lemma numeral_S base fuel n acc :
  numeral base (S fuel) n acc
  = if n <? base then String (Py.hex_digit (n mod base)) acc
    else numeral base fuel (n / base) (String (Py.hex_digit (n mod base)) acc).
Proof. reflexivity. Qed.

Lemma digits_numeral base fuel :
  1 < base <= 16 ->
  forall n s prev,
    0 <= n < base ^ Z.of_nat (S fuel) ->
    Py.digits base 0 prev (numeral base (S fuel) n s)
    = Py.digits base n true s.
Proof.
  intros Hb. induction fuel as [|fuel IH]; intros n s prev Hn.
  - change (base ^ Z.of_nat 1) with (base ^ 1) in Hn. rewrite Z.pow_1_r in Hn.
    rewrite numeral_S. destruct (Z.ltb_spec n base); [|lia].
    rewrite Z.mod_small by lia. rewrite digits_step by lia. f_equal. lia.
  - rewrite numeral_S.
    destruct (Z.ltb_spec n base).
    + rewrite Z.mod_small by lia. rewrite digits_step by lia. f_equal. lia.
    + rewrite IH.
      * rewrite digits_step by (try apply Z.mod_pos_bound; lia).
        f_equal. pose proof (Z.div_mod n base). lia.
      * split; [apply Z.div_pos; lia|].
        apply Z.div_lt_upper_bound; [lia|].
        rewrite (Nat2Z.inj_succ (S fuel)), Z.pow_succ_r in Hn by lia. lia.
Qed.

Lemma fuel_enough base n :
  1 < base -> 0 <= n -> n < base ^ Z.of_nat (S (Z.to_nat (Z.log2 n))).
Proof.
  intros Hb Hn. rewrite Nat2Z.inj_succ, Z2Nat.id by apply Z.log2_nonneg.
  destruct (Z.eq_dec n 0) as [->|Hz].
  - cbn. lia.
  - pose proof (Z.log2_spec n ltac:(lia)) as [_ H].
    assert (2 ^ Z.succ (Z.log2 n) <= base ^ Z.succ (Z.log2 n)); [|lia].
    apply Z.pow_le_mono_l. lia.
Qed.

Lemma digits_digits_of base n prev :
  1 < base <= 16 -> 0 <= n ->
  Py.digits base 0 prev (digits_of base n) = Some n.
Proof.
  intros Hb Hn. unfold digits_of. rewrite digits_numeral.
  - reflexivity.
  - exact Hb.
  - split; [exact Hn|]. apply fuel_enough; lia.
Qed.

Lemma numeral_chars base fuel :
  1 < base <= 16 ->
  forall n s, str_all num_char s = true ->
              str_all num_char (numeral base fuel n s) = true.
Proof.
  intros Hb. induction fuel as [|fuel IH]; intros n s Hs; [exact Hs|].
  rewrite numeral_S.
  assert (Hc : str_all num_char (String (Py.hex_digit (n mod base)) s) = true).
  { cbn [str_all]. rewrite Hs, hex_digit_num_char; [reflexivity|].
    pose proof (Z.mod_pos_bound n base). lia. }
  destruct (n <? base); [exact Hc|]. now apply IH.
Qed.

Lemma numeral_head base fuel :
  1 < base <= 16 ->
  forall n s, exists k rest,
    0 <= k < 16 /\ numeral base (S fuel) n s = String (Py.hex_digit k) rest.
Proof.
  intros Hb. induction fuel as [|fuel IH]; intros n s.
  - exists (n mod base), s. split; [pose proof (Z.mod_pos_bound n base); lia|].
    rewrite numeral_S. now destruct (n <? base).
  - rewrite numeral_S.
    destruct (n <? base); [|apply IH].
    exists (n mod base), s. split; [pose proof (Z.mod_pos_bound n base); lia|].
    reflexivity.
Qed.

(** *** [int] on what the formats print *)

Ltac concretize :=
  repeat match goal with
         | |- context [Py.hex_digit ?k] =>
             let v := eval vm_compute in (Py.hex_digit k) in
             change (Py.hex_digit k) with v
         end.

Lemma str_all_cons P c s : str_all P (String c s) = P c && str_all P s.
Proof. reflexivity. Qed.

Lemma int10_digits k r z :
  0 <= k < 16 ->
  str_all word_char (String (Py.hex_digit k) r) = true ->
  Py.digits 10 0 false (String (Py.hex_digit k) r) = Some z ->
  Py.int 10 (String (Py.hex_digit k) r) = Return z
  /\ Py.int 10 (String "-" (String (Py.hex_digit k) r)) = Return (- z).
Proof.
  intros Hk Hw Hd. unfold Py.int. rewrite strip_word by exact Hw.
  rewrite strip_word by (rewrite str_all_cons; now rewrite Hw).
  revert Hd. each_digit k Hk; concretize; intros Hd;
    destruct r as [|x r]; cbv beta iota zeta;
    change (10 =? 16) with false; cbn [andb]; rewrite Hd; split; reflexivity.
Qed.

Lemma int16_digits k r z :
  0 <= k < 16 ->
  str_all word_char (String (Py.hex_digit k) r) = true ->
  Py.digits 16 0 false (String (Py.hex_digit k) r) = Some z ->
  Py.int 16 (String "0" (String "x" (String (Py.hex_digit k) r))) = Return z.
Proof.
  intros Hk Hw Hd. unfold Py.int.
  rewrite strip_word
    by (rewrite (str_all_cons _ "0"), (str_all_cons _ "x"); now rewrite Hw).
  revert Hd. each_digit k Hk; concretize; intros Hd;
    cbv beta iota zeta; change (16 =? 16) with true;
    change (Ascii.eqb "x" "x") with true; cbn [andb orb]; now rewrite Hd.
Qed.

Lemma digits_of_head base n :
  1 < base <= 16 ->
  exists k rest, 0 <= k < 16 /\ digits_of base n = String (Py.hex_digit k) rest.
Proof. intros Hb. apply numeral_head, Hb. Qed.

Lemma digits_of_chars base n :
  1 < base <= 16 -> str_all num_char (digits_of base n) = true.
Proof. intros Hb. now apply numeral_chars. Qed.

Lemma num_chars_word s :
  str_all num_char s = true -> str_all word_char s = true.
Proof. apply str_all_impl, num_char_word. Qed.

Lemma fmt_u_chars z : str_all num_char (fmt_u z) = true.
Proof.
  unfold fmt_u. destruct (z <? 0); [cbn [str_all]|];
    now rewrite digits_of_chars by lia.
Qed.

Lemma fmt_x_chars z : str_all num_char (fmt_x z) = true.
Proof.
  unfold fmt_x. destruct (z <? 0); [cbn [str_all]|];
    now rewrite digits_of_chars by lia.
Qed.

Lemma fmt_u_nonempty z : fmt_u z <> EmptyString.
Proof.
  unfold fmt_u. destruct (z <? 0); [discriminate|].
  destruct (digits_of_head 10 z) as (k & r & _ & ->); [lia|discriminate].
Qed.

Lemma fmt_x_nonempty z : fmt_x z <> EmptyString.
Proof.
  unfold fmt_x. destruct (z <? 0); [discriminate|].
  destruct (digits_of_head 16 z) as (k & r & _ & ->); [lia|discriminate].
Qed.

(** [int] reads back what ["%u"] prints. *)
Lemma int_fmt_u z : Py.int 10 (fmt_u z) = Return z.
Proof.
  unfold fmt_u. destruct (Z.ltb_spec z 0).
  - pose proof (digits_of_chars 10 (- z) ltac:(lia)) as Hc.
    pose proof (digits_digits_of 10 (- z) false ltac:(lia) ltac:(lia)) as Hd.
    destruct (digits_of_head 10 (- z)) as (k & r & Hk & E); [lia|].
    rewrite E in *.
    destruct (int10_digits k r (- z) Hk (num_chars_word _ Hc) Hd) as [_ ->].
    f_equal. lia.
  - pose proof (digits_of_chars 10 z ltac:(lia)) as Hc.
    pose proof (digits_digits_of 10 z false ltac:(lia) ltac:(lia)) as Hd.
    destruct (digits_of_head 10 z) as (k & r & Hk & E); [lia|].
    rewrite E in *.
    now destruct (int10_digits k r z Hk (num_chars_word _ Hc) Hd) as [-> _].
Qed.

(** [int(_, 16)] reads back what ["0x%x"] prints for a number that is not
    negative. *)
Lemma int_fmt_x z :
  0 <= z -> Py.int 16 (String "0" (String "x" (fmt_x z))) = Return z.
Proof.
  intros Hz. unfold fmt_x. destruct (Z.ltb_spec z 0); [lia|].
  pose proof (digits_of_chars 16 z ltac:(lia)) as Hc.
  pose proof (digits_digits_of 16 z false ltac:(lia) ltac:(lia)) as Hd.
  destruct (digits_of_head 16 z) as (k & r & Hk & E); [lia|].
  rewrite E in *.
  exact (int16_digits k r z Hk (num_chars_word _ Hc) Hd).
Qed.

Lemma zeros_chars n s :
  str_all num_char s = true -> str_all num_char (zeros n s) = true.
Proof.
  intros Hs. induction n as [|n IH]; [exact Hs|].
  cbn [zeros str_all]. now rewrite IH.
Qed.

Lemma digits_zeros n :
  forall prev s,
    Py.digits 10 0 prev (zeros n s)
    = Py.digits 10 0 (prev || negb (n =? 0)%nat) s.
Proof.
  induction n as [|n IH]; intros prev s.
  - cbn. now rewrite orb_false_r.
  - cbn [zeros]. change "0"%char with (Py.hex_digit 0).
    rewrite digits_step by lia. change (10 * 0 + 0) with 0. rewrite IH.
    cbn. now rewrite orb_true_r.
Qed.

Lemma zeros_head n base z :
  1 < base <= 16 ->
  exists k rest,
    0 <= k < 16 /\ zeros n (digits_of base z) = String (Py.hex_digit k) rest.
Proof.
  intros Hb. destruct n as [|n]; [now apply digits_of_head|].
  exists 0, (zeros n (digits_of base z)). split; [lia|reflexivity].
Qed.

Lemma fmt_06u_chars z : str_all num_char (fmt_06u z) = true.
Proof.
  unfold fmt_06u. destruct (z <? 0); [cbn [str_all]|];
    now rewrite zeros_chars by (apply digits_of_chars; lia).
Qed.

(** [int] reads back what ["%06u"] prints. *)
Lemma int_fmt_06u z : Py.int 10 (fmt_06u z) = Return z.
Proof.
  unfold fmt_06u.
  assert (Hd : forall n prev,
             Py.digits 10 0 prev (zeros n (digits_of 10 (Z.abs z)))
             = Some (Z.abs z)).
  { intros n prev. rewrite digits_zeros. apply digits_digits_of; lia. }
  assert (Hc : forall n,
             str_all word_char (zeros n (digits_of 10 (Z.abs z))) = true).
  { intros n. apply num_chars_word, zeros_chars, digits_of_chars. lia. }
  destruct (Z.ltb_spec z 0).
  - set (n := (5 - String.length (digits_of 10 (Z.abs z)))%nat).
    specialize (Hd n false). specialize (Hc n).
    destruct (zeros_head n 10 (Z.abs z)) as (k & r & Hk & E); [lia|].
    rewrite E in *.
    destruct (int10_digits k r _ Hk Hc Hd) as [_ ->]. f_equal. lia.
  - set (n := (6 - String.length (digits_of 10 (Z.abs z)))%nat).
    specialize (Hd n false). specialize (Hc n).
    destruct (zeros_head n 10 (Z.abs z)) as (k & r & Hk & E); [lia|].
    rewrite E in *.
    destruct (int10_digits k r _ Hk Hc Hd) as [-> _]. f_equal. lia.
Qed.

(** *** The escapes of the ids *)

Lemma byte_of_to_Z b : Py.byte_of_Z (byte_to_Z b) = b.
Proof. destruct b; reflexivity. Qed.

Lemma unicode_escape_x02 b rest :
  Py.unicode_escape (Py.fmt_x02 (byte_to_Z b) ++ rest)
  = Py.emit (byte_to_Z b) (Py.unicode_escape rest).
Proof. destruct b; reflexivity. Qed.

Lemma fmt_x02_chars b : str_all word_char (Py.fmt_x02 (byte_to_Z b)) = true.
Proof. destruct b; reflexivity. Qed.

Lemma join_cons (s : string) l : Py.join (s :: l) = (s ++ Py.join l)%string.
Proof. reflexivity. Qed.

Lemma escaped_join bs :
  Py.unicode_escape (Py.join (map (fun i => Py.fmt_x02 (byte_to_Z i)) bs))
  = Return bs.
Proof.
  induction bs as [|b bs IH]; [reflexivity|].
  cbn [map]. rewrite join_cons, unicode_escape_x02, IH.
  unfold Py.emit. cbn [obind]. now rewrite byte_of_to_Z.
Qed.

Lemma escaped_chars bs :
  str_all word_char (Py.join (map (fun i => Py.fmt_x02 (byte_to_Z i)) bs))
  = true.
Proof.
  induction bs as [|b bs IH]; [reflexivity|].
  cbn [map]. now rewrite join_cons, str_all_app, fmt_x02_chars, IH.
Qed.

(** Two ids of four bytes each make a field of 32 characters, which
    [read_text] cuts in the middle. *)
Lemma hexdata_escaped p c :
  length p = 4%nat -> length c = 4%nat ->
  hexdata (Py.join (map (fun i => Py.fmt_x02 (byte_to_Z i)) p)
           ++ Py.join (map (fun i => Py.fmt_x02 (byte_to_Z i)) c))
  = Return (VBytes p, VBytes c).
Proof.
  intros Hp Hc.
  pose proof (escaped_join p) as Ep. pose proof (escaped_join c) as Ec.
  revert Ep Ec.
  destruct p as [|p1 [|p2 [|p3 [|p4 [|? ?]]]]]; try discriminate Hp.
  destruct c as [|c1 [|c2 [|c3 [|c4 [|? ?]]]]]; try discriminate Hc.
  intros Ep Ec. unfold hexdata.
  set (P := Py.join (map _ [p1; p2; p3; p4])) in *.
  set (Q := Py.join (map _ [c1; c2; c3; c4])) in *.
  replace (String.length (P ++ Q) =? 32)%nat with true by reflexivity.
  replace (Py.str_take 16 (P ++ Q)) with P by reflexivity.
  replace (Py.str_drop 16 (P ++ Q)) with Q by reflexivity.
  unfold Py.escaped_bytes. rewrite Ep, Ec. reflexivity.
Qed.

(** *** One line of a text trace *)

(** [read_line] on a line whose fields are known. *)
Lemma read_line_fields (line f0 A B f1 f2 f3 f4 f5 : string)
    (extra : list string) (secs usecs ty src sndr rcv sig : Z)
    (ids : value * value) :
  Py.split "#" line = [line] -> line <> EmptyString ->
  Py.words line = f0 :: f1 :: f2 :: f3 :: f4 :: f5 :: extra ->
  Py.split "." f0 = [A; B] ->
  Py.int 10 A = Return secs -> Py.int 10 B = Return usecs ->
  Py.int 10 f1 = Return ty -> Py.int 10 f2 = Return src ->
  Py.int 10 f3 = Return sndr -> Py.int 10 f4 = Return rcv ->
  Py.int 16 f5 = Return sig ->
  match extra with
  | [f6] => hexdata f6
  | [f6; f7] =>
      (p <- Py.int 10 f6 ;; c <- Py.int 10 f7 ;; Return (VInt p, VInt c))%out
  | _ => Return (VBytes [], VBytes [])
  end = Return ids ->
  read_line line
  = Return (Some {| type := ty; source := src; sender := sndr;
                    receiver := rcv; seconds := secs; microseconds := usecs;
                    signo := sig; procId := ids.1; connId := ids.2 |}).
Proof.
  intros Hsplit Hne Hwords Hdot HA HB H1 H2 H3 H4 H5 Hids.
  unfold read_line. rewrite Hsplit. cbn [hd].
  destruct (decide (line = EmptyString)); [contradiction|].
  rewrite Hwords. unfold item.
  change ((f0 :: f1 :: f2 :: f3 :: f4 :: f5 :: extra) !! 0%nat) with (Some f0).
  change ((f0 :: f1 :: f2 :: f3 :: f4 :: f5 :: extra) !! 1%nat) with (Some f1).
  change ((f0 :: f1 :: f2 :: f3 :: f4 :: f5 :: extra) !! 2%nat) with (Some f2).
  change ((f0 :: f1 :: f2 :: f3 :: f4 :: f5 :: extra) !! 3%nat) with (Some f3).
  change ((f0 :: f1 :: f2 :: f3 :: f4 :: f5 :: extra) !! 4%nat) with (Some f4).
  change ((f0 :: f1 :: f2 :: f3 :: f4 :: f5 :: extra) !! 5%nat) with (Some f5).
  cbn [obind]. rewrite Hdot.
  change ([A; B] !! 0%nat) with (Some A).
  change ([A; B] !! 1%nat) with (Some B).
  cbn [obind]. rewrite HA. cbn [obind]. rewrite HB. cbn [obind].
  rewrite H1. cbn [obind]. rewrite H2. cbn [obind].
  rewrite H3. cbn [obind]. rewrite H4. cbn [obind].
  rewrite H5. cbn [obind].
  destruct extra as [|f6 [|f7 [|f8 extra]]]; cbn [length Nat.eqb].
  - rewrite Hids. reflexivity.
  - change ([f0; f1; f2; f3; f4; f5; f6] !! 6%nat) with (Some f6).
    cbn [obind]. rewrite Hids. reflexivity.
  - change ([f0; f1; f2; f3; f4; f5; f6; f7] !! 6%nat) with (Some f6).
    change ([f0; f1; f2; f3; f4; f5; f6; f7] !! 7%nat) with (Some f7).
    cbn [obind]. cbn [obind] in Hids.
    destruct (Py.int 10 f6) as [p|]; [|discriminate]. cbn [obind] in *.
    destruct (Py.int 10 f7) as [c|]; [|discriminate]. cbn [obind] in *.
    injection Hids as <-. reflexivity.
  - rewrite Hids. reflexivity.
Qed.

Lemma word_char_not_hash c : word_char c = true -> is_not "#" c = true.
Proof. unfold word_char. now intros [_ H]%andb_true_iff. Qed.

Lemma num_char_not_dot c : num_char c = true -> is_not "." c = true.
Proof. unfold num_char. now intros [_ H]%andb_true_iff. Qed.

Lemma word_no_hash s :
  str_all word_char s = true -> str_all (is_not "#") s = true.
Proof. apply str_all_impl, word_char_not_hash. Qed.

(** The fields of a line in the raw text format. *)
Lemma line_fields (A B C1 C2 C3 C4 H tail : string) :
  str_all num_char A = true -> str_all num_char B = true ->
  str_all word_char C1 = true -> str_all word_char C2 = true ->
  str_all word_char C3 = true -> str_all word_char C4 = true ->
  str_all word_char H = true ->
  C1 <> EmptyString -> C2 <> EmptyString -> C3 <> EmptyString ->
  C4 <> EmptyString ->
  str_all (is_not "#") tail = true ->
  let line := (A ++ "." ++ B ++ " " ++ C1 ++ " " ++ C2 ++ " " ++ C3 ++ " "
               ++ C4 ++ " " ++ "0x" ++ H ++ " " ++ tail)%string in
  Py.words line
  = (A ++ "." ++ B)%string :: C1 :: C2 :: C3 :: C4 :: ("0x" ++ H)%string
      :: Py.words_aux None tail
  /\ Py.split "." (A ++ "." ++ B) = [A; B]
  /\ Py.split "#" line = [line]
  /\ line <> EmptyString.
Proof.
  intros HA HB H1 H2 H3 H4 HH N1 N2 N3 N4 Ht line.
  assert (Hf0 : str_all word_char (A ++ "." ++ B) = true).
  { rewrite !str_all_app, (num_chars_word _ HA), (num_chars_word _ HB).
    reflexivity. }
  assert (Hf5 : str_all word_char ("0x" ++ H) = true)
    by (rewrite str_all_app, HH; reflexivity).
  split; [|split; [|split]].
  - unfold Py.words, line.
    change (A ++ "." ++ B ++ " " ++ C1 ++ " " ++ C2 ++ " " ++ C3 ++ " " ++ C4
            ++ " " ++ "0x" ++ H ++ " " ++ tail)%string
      with (A ++ ("." ++ B) ++ String " "
              (C1 ++ String " "
                 (C2 ++ String " "
                    (C3 ++ String " "
                       (C4 ++ String " "
                          ("0x" ++ H ++ String " " tail))))))%string.
    rewrite <- (append_assoc A), <- (append_assoc "0x" H).
    rewrite (words_aux_word _ None) by
      (try assumption; try reflexivity; right; destruct A; discriminate).
    rewrite (words_aux_word C1 None) by (try assumption; auto).
    rewrite (words_aux_word C2 None) by (try assumption; auto).
    rewrite (words_aux_word C3 None) by (try assumption; auto).
    rewrite (words_aux_word C4 None) by (try assumption; auto).
    rewrite (words_aux_word _ None) by
      (try assumption; try reflexivity; right; discriminate).
    reflexivity.
  - change (A ++ "." ++ B)%string with (A ++ String "." B)%string.
    apply split_once.
    + eapply str_all_impl; [apply num_char_not_dot|exact HA].
    + eapply str_all_impl; [apply num_char_not_dot|exact HB].
  - apply split_none. unfold line.
    rewrite !str_all_app, Ht.
    rewrite (word_no_hash _ (num_chars_word _ HA)).
    rewrite (word_no_hash _ (num_chars_word _ HB)).
    rewrite (word_no_hash _ H1), (word_no_hash _ H2), (word_no_hash _ H3).
    rewrite (word_no_hash _ H4), (word_no_hash _ HH). reflexivity.
  - unfold line. destruct A; discriminate.
Qed.

(** A line of the raw text format is read back field by field. *)
Lemma read_formatted (e : entry) (tail : string) (ids : value * value) :
  0 <= signo e ->
  str_all (is_not "#") tail = true ->
  match Py.words_aux None tail with
  | [f6] => hexdata f6
  | [f6; f7] =>
      (p <- Py.int 10 f6 ;; c <- Py.int 10 f7 ;; Return (VInt p, VInt c))%out
  | _ => Return (VBytes [], VBytes [])
  end = Return ids ->
  read_line (fmt_u (seconds e) ++ "." ++ fmt_06u (microseconds e) ++ " "
             ++ fmt_u (type e) ++ " " ++ fmt_u (source e) ++ " "
             ++ fmt_u (sender e) ++ " " ++ fmt_u (receiver e) ++ " "
             ++ "0x" ++ fmt_x (signo e) ++ " " ++ tail)
  = Return (Some {| type := type e; source := source e; sender := sender e;
                    receiver := receiver e; seconds := seconds e;
                    microseconds := microseconds e; signo := signo e;
                    procId := ids.1; connId := ids.2 |}).
Proof.
  intros Hsig Htail Hids.
  destruct (line_fields (fmt_u (seconds e)) (fmt_06u (microseconds e))
              (fmt_u (type e)) (fmt_u (source e)) (fmt_u (sender e))
              (fmt_u (receiver e)) (fmt_x (signo e)) tail)
    as (Hw & Hdot & Hhash & Hne);
    try apply fmt_u_chars; try apply fmt_06u_chars;
    try (apply num_chars_word; apply fmt_u_chars);
    try (apply num_chars_word; apply fmt_x_chars);
    try apply fmt_u_nonempty; try exact Htail.
  cbv zeta in Hw, Hhash, Hne.
  eapply read_line_fields; try eassumption.
  - apply int_fmt_u.
  - apply int_fmt_06u.
  - apply int_fmt_u.
  - apply int_fmt_u.
  - apply int_fmt_u.
  - apply int_fmt_u.
  - apply (int_fmt_x (signo e) Hsig).
Qed.

Lemma entry_eta (e : entry) :
  {| type := type e; source := source e; sender := sender e;
     receiver := receiver e; seconds := seconds e;
     microseconds := microseconds e; signo := signo e;
     procId := procId e; connId := connId e |} = e.
Proof. now destruct e. Qed.

Lemma read_formatted_entry (e : entry) (tail : string) (ids : value * value) :
  0 <= signo e ->
  str_all (is_not "#") tail = true ->
  match Py.words_aux None tail with
  | [f6] => hexdata f6
  | [f6; f7] =>
      (p <- Py.int 10 f6 ;; c <- Py.int 10 f7 ;; Return (VInt p, VInt c))%out
  | _ => Return (VBytes [], VBytes [])
  end = Return ids ->
  procId e = ids.1 -> connId e = ids.2 ->
  read_line (fmt_u (seconds e) ++ "." ++ fmt_06u (microseconds e) ++ " "
             ++ fmt_u (type e) ++ " " ++ fmt_u (source e) ++ " "
             ++ fmt_u (sender e) ++ " " ++ fmt_u (receiver e) ++ " "
             ++ "0x" ++ fmt_x (signo e) ++ " " ++ tail)
  = Return (Some e).
Proof.
  intros Hsig Htail Hids Hp Hc.
  rewrite (read_formatted e tail ids Hsig Htail Hids), <- Hp, <- Hc.
  now rewrite entry_eta.
Qed.

(** With the hex data as it is: an entry whose ids are both empty or of four
    bytes each is read back as it was. *)
Lemma text_line_raw (little_endian : bool) (e : entry) :
  0 <= signo e -> binary_ids e ->
  exists l, text_line true little_endian e = Return l
            /\ read_line (l ++ newline) = Return (Some e).
Proof.
  intros Hsig (p & c & Hp & Hc & Hcase). unfold text_line.
  rewrite Hp, Hc. cbn [escaped obind]. eexists. split; [reflexivity|].
  rewrite !append_assoc.
  destruct Hcase as [[-> ->]|[Lp Lc]].
  - apply (read_formatted_entry e _ (VBytes [], VBytes []));
      [exact Hsig|reflexivity|reflexivity|exact Hp|exact Hc].
  - apply (read_formatted_entry e _ (VBytes p, VBytes c));
      [exact Hsig| | |exact Hp|exact Hc].
    + rewrite !str_all_app, !(word_no_hash _ (escaped_chars _)). reflexivity.
    + rewrite <- append_assoc.
      rewrite (words_aux_word _ None "010" EmptyString).
      * cbn [default Py.words_aux]. rewrite append_nil_l.
        now apply hexdata_escaped.
      * now rewrite str_all_app, !escaped_chars.
      * reflexivity.
      * right. destruct p; [discriminate Lp|]. discriminate.
Qed.

(** With the hex data converted: the ids are read back as the numbers that
    were printed. *)
Lemma text_line_converted (little_endian : bool) (e : entry) :
  0 <= signo e ->
  exists l, text_line false little_endian e = Return l
            /\ read_line (l ++ newline)
               = Return (Some (converted little_endian e)).
Proof.
  intros Hsig. unfold text_line. eexists. split; [reflexivity|].
  rewrite !append_assoc. unfold converted.
  set (u1 := convert_hex_data little_endian (procId e)).
  set (u2 := convert_hex_data little_endian (connId e)).
  change (VInt u1) with (VInt u1, VInt u2).1.
  change (VInt u2) with (VInt u1, VInt u2).2 at 2.
  apply read_formatted; [exact Hsig| |].
  - rewrite !str_all_app.
    rewrite !(word_no_hash _ (num_chars_word _ (fmt_u_chars _))). reflexivity.
  - change (fmt_u u1 ++ " " ++ fmt_u u2 ++ newline)%string
      with (fmt_u u1 ++ String " " (fmt_u u2 ++ String "010" ""))%string.
    rewrite (words_aux_word _ None)
      by (try apply num_chars_word, fmt_u_chars; try reflexivity;
          right; apply fmt_u_nonempty).
    rewrite (words_aux_word _ None)
      by (try apply num_chars_word, fmt_u_chars; try reflexivity;
          right; apply fmt_u_nonempty).
    cbn [default Py.words_aux]. rewrite !append_nil_l, !int_fmt_u.
    reflexivity.
Qed.

(** Lines that are read back one by one are read back as a file. *)
Lemma print_read_back (dont_convert little_endian : bool)
    (g : entry -> entry) (es : list entry) :
  Forall (fun e => exists l,
              text_line dont_convert little_endian e = Return l
              /\ read_line (l ++ newline) = Return (Some (g e))) es ->
  exists lines,
    print_ship_entries_text dont_convert little_endian es = Return lines
    /\ length lines = length es
    /\ read_text lines = Return (map g es).
Proof.
  unfold print_ship_entries_text.
  induction 1 as [|e es (l & Hl & Hr) _ (lines & Hp & Hlen & Ht)].
  - exists []. repeat split.
  - exists ((l ++ newline)%string :: lines). cbn [omap map read_text length].
    rewrite Hl. cbn [obind]. rewrite Hp. cbn [obind].
    rewrite Hr. cbn [obind]. rewrite Ht. cbn [obind]. now rewrite Hlen.
Qed.

(** ** The raw text format, written and read *)

Lemma layout_binary_ids v e r :
  v = 1 \/ v = 2 -> length r = record_size v -> binary_ids (layout v e r).
Proof.
  intros [-> | ->] Hr.
  - exists [], []. repeat split. now left.
  - exists (field r 28 4), (field r 32 4). repeat split. right.
    change (record_size 2) with 36%nat in Hr.
    unfold field. rewrite !length_take, !length_drop. lia.
Qed.

Lemma read_binary_printable fuel path keep_zeros w es w' :
  read_binary fuel path keep_zeros w = Some (Return es, w') ->
  Forall (fun e => 0 <= signo e /\ binary_ids e) es.
Proof.
  intros H. apply read_binary_inv in H as (v & e & recs & Hv & Hl & ->).
  apply Forall_forall. intros x Hx.
  apply list_elem_of_filter in Hx as [_ Hx].
  apply list_elem_of_fmap in Hx as (r & -> & Hr).
  rewrite Forall_forall in Hl. split.
  - pose proof (layout_fits v e r) as (_ & _ & _ & _ & _ & _ & [Hs _] & _).
    exact Hs.
  - apply layout_binary_ids; auto.
Qed.

(** X24. What [--text --dont_convert_hex_data] (or the tail monitor with
    that option) prints for the entries of a binary file is a text trace
    that [read_text] reads back as exactly these entries: one line per
    entry, every field recovered, the ids included. *)
Theorem text_output_read_back (fuel : nat) (path : string)
    (keep_zeros little_endian : bool) (w w' : world) (es : list entry) :
  read_binary fuel path keep_zeros w = Some (Return es, w') ->
  exists lines,
    print_ship_entries_text true little_endian es = Return lines
    /\ length lines = length es
    /\ read_text lines = Return es.
Proof.
  intros H. apply read_binary_printable in H.
  destruct (print_read_back true little_endian id es)
    as (lines & Hp & Hl & Hr).
  - eapply Forall_impl; [exact H|]. intros e [Hs Hi].
    now apply text_line_raw.
  - exists lines. rewrite map_id in Hr. auto.
Qed.

Lemma text_output_read_back_witness :
  exists lines,
    print_ship_entries_text true false [layout_v2 LE v2_record_at_5]
    = Return lines
    /\ length lines = 1%nat
    /\ read_text lines = Return [layout_v2 LE v2_record_at_5].
Proof.
  apply (text_output_read_back 1 "f" false false
           (open (le_header x02 ++ v2_unwritten ++ v2_record_at_5))
           {| contents := le_header x02 ++ v2_unwritten ++ v2_record_at_5;
              cursor := 80; stderr := [] |}).
  vm_compute. reflexivity.
Defined.

(** X25. The default text output (hex data converted) of any entries whose
    signal numbers are not negative is read back by [read_text] with every
    numeric field as it was and the ids as the numbers that
    [convert_hex_data] gave; entries whose ids are ints already (read from
    such a text) are read back unchanged. *)
Theorem converted_output_read_back (little_endian : bool)
    (es : list entry) :
  Forall (fun e => 0 <= signo e) es ->
  exists lines,
    print_ship_entries_text false little_endian es = Return lines
    /\ read_text lines = Return (map (converted little_endian) es)
    /\ map (converted little_endian) (map (converted little_endian) es)
       = map (converted little_endian) es.
Proof.
  intros H.
  destruct (print_read_back false little_endian (converted little_endian) es)
    as (lines & Hp & Hl & Hr).
  - eapply Forall_impl; [exact H|]. intros e Hs.
    now apply text_line_converted.
  - exists lines. split; [exact Hp|]. split; [exact Hr|].
    rewrite map_map. apply map_ext. reflexivity.
Qed.

Lemma converted_output_read_back_witness :
  exists lines,
    print_ship_entries_text false false [layout_v2 LE v2_record_at_5]
    = Return lines
    /\ read_text lines
       = Return [converted false (layout_v2 LE v2_record_at_5)].
Proof.
  destruct (converted_output_read_back false [layout_v2 LE v2_record_at_5])
    as (lines & Hp & Hr & _).
  - constructor; [|constructor]. vm_compute. discriminate.
  - exists lines. split; [exact Hp|exact Hr].
Defined.

(** ** Comments and blank lines of a text trace *)

Lemma is_space_not_hash c : Py.is_space c = true -> is_not "#" c = true.
Proof.
  intros H. unfold is_not. apply negb_true_iff.
  destruct (Ascii.eqb_spec c "#") as [->|]; [discriminate H|reflexivity].
Qed.

Lemma hd_split_comment (l c : string) :
  str_all (is_not "#") l = true ->
  hd EmptyString (Py.split "#" (l ++ String "#" c)) = l.
Proof.
  intros H. unfold Py.split. now rewrite (split_aux_first "#" l c H).
Qed.

Lemma read_line_comment (l c : string) :
  str_all (is_not "#") l = true ->
  read_line (l ++ String "#" c) = read_line l.
Proof.
  intros H. unfold read_line.
  now rewrite (hd_split_comment l c H), (split_none "#" l H).
Qed.

Lemma read_line_blank (l : string) :
  str_all Py.is_space l = true -> l <> EmptyString ->
  read_line l = Raise IndexError.
Proof.
  intros H Hne. unfold read_line.
  rewrite split_none by (eapply str_all_impl; [apply is_space_not_hash|exact H]).
  cbn [hd]. destruct (decide (l = EmptyString)); [contradiction|].
  unfold Py.words. now rewrite words_aux_spaces.
Qed.

Lemma read_text_app before :
  forall after es,
    read_text before = Return es ->
    read_text (before ++ after)
    = obind (read_text after) (fun es' => Return (es ++ es')).
Proof.
  induction before as [|l before IH]; intros after es H.
  - injection H as <-. cbn [app]. now destruct (read_text after).
  - cbn [read_text app] in *.
    destruct (read_line l) as [o|]; [|discriminate]. cbn [obind] in *.
    destruct (read_text before) as [es0|] eqn:E; [|discriminate].
    cbn [obind] in H. injection H as <-.
    rewrite (IH after es0 eq_refl).
    destruct (read_text after); [|reflexivity]. cbn [obind].
    now destruct o.
Qed.

(** X26. In a text trace everything from the first [#] of a line on is
    ignored, and a line that starts with [#] is skipped. *)
Theorem comment_ignored (l c : string) :
  str_all (is_not "#") l = true ->
  read_line (l ++ String "#" c) = read_line l
  /\ read_line (String "#" c) = Return None.
Proof.
  intros H. split; [now apply read_line_comment|].
  exact (read_line_comment EmptyString c eq_refl).
Qed.

Lemma comment_ignored_witness :
  read_line "5.000001 0 7 100 200 0x1f # note"
  = read_line "5.000001 0 7 100 200 0x1f ".
Proof.
  apply (comment_ignored "5.000001 0 7 100 200 0x1f " " note").
  reflexivity.
Defined.

(** X27. A line of a text trace that holds only whitespace, such as an empty
    line with its newline, or whitespace before a [#], is not skipped: it
    makes [read_text] raise [IndexError], whatever lines follow. *)
Theorem blank_line_raises (l c : string) (before after : list string)
    (es : list entry) :
  str_all Py.is_space l = true -> l <> EmptyString ->
  read_text before = Return es ->
  read_text (before ++ l :: after) = Raise IndexError
  /\ read_text (before ++ (l ++ String "#" c)%string :: after)
     = Raise IndexError.
Proof.
  intros H Hne Hb.
  assert (Hh : str_all (is_not "#") l = true)
    by (eapply str_all_impl; [apply is_space_not_hash|exact H]).
  rewrite !(read_text_app before _ es Hb). cbn [read_text].
  rewrite read_line_comment by exact Hh.
  rewrite read_line_blank by assumption. split; reflexivity.
Qed.

Lemma blank_line_raises_witness :
  read_text [("5.000001 0 7 100 200 0x1f" ++ newline)%string; newline]
  = Raise IndexError.
Proof.
  apply (blank_line_raises newline EmptyString
           [("5.000001 0 7 100 200 0x1f" ++ newline)%string] []
           [{| type := 0; source := 7; sender := 100; receiver := 200;
               seconds := 5; microseconds := 1; signo := 31;
               procId := VBytes []; connId := VBytes [] |}]).
  - reflexivity.
  - discriminate.
  - vm_compute. reflexivity.
Defined.

(** ** The signal list *)

Lemma names_functional line k n k' n' :
  names line k n -> names line k' n' -> k = k' /\ n = n'.
Proof.
  intros (f & H2 & Hi & H0) (f' & H2' & Hi' & H0').
  assert (f = f') by congruence. subst f'. split; congruence.
Qed.

Lemma signal_line_spec m0 line m1 :
  signal_line m0 line = Return m1 ->
  exists k name,
    names line k name
    /\ m1 = match m0 !! k with
            | Some _ => m0
            | None => <[k := name]> m0
            end.
Proof.
  unfold signal_line, item. intros H.
  destruct (Py.words line !! 2%nat) as [f2|] eqn:E2; [|discriminate].
  cbn [obind] in H.
  destruct (Py.int 10 f2) as [k|] eqn:Ei; [|discriminate]. cbn [obind] in H.
  destruct (lookup_lt_is_Some_2 (Py.words line) 0) as [name E0].
  { apply lookup_lt_Some in E2. lia. }
  exists k, name. split; [exists f2; auto|].
  destruct (m0 !! k); [now injection H|].
  rewrite E0 in H. cbn [obind] in H. now injection H.
Qed.

Lemma parse_fold (lines : list string) :
  forall m0 m,
    ofold signal_line lines m0 = Return m ->
    forall k name,
      m !! k = Some name
      <-> m0 !! k = Some name
          \/ (m0 !! k = None
              /\ exists i line,
                  lines !! i = Some line /\ names line k name
                  /\ forall j line' n,
                      (j < i)%nat -> lines !! j = Some line' ->
                      ~ names line' k n).
Proof.
  induction lines as [|line rest IH]; intros m0 m H k name.
  - injection H as <-. split; [now left|].
    intros [H|(_ & i & l & Hl & _)]; [exact H|]. now destruct i.
  - cbn [ofold] in H. apply obind_Return in H as (m1 & H1 & H2).
    apply signal_line_spec in H1 as (k0 & name0 & Hn0 & Hm1).
    rewrite (IH _ _ H2 k name). clear IH H2.
    assert (Hother : k <> k0 -> m1 !! k = m0 !! k).
    { intros Hne. subst m1. destruct (m0 !! k0); [reflexivity|].
      now rewrite lookup_insert_ne by congruence. }
    split.
    + intros [Hk|(Hk & i & li & Hi & Hni & Hfirst)].
      * destruct (decide (k = k0)) as [->|Hne];
          [|left; now rewrite <- Hother].
        destruct (m0 !! k0) as [x|] eqn:E0; [left; subst m1; congruence|].
        subst m1. rewrite lookup_insert_eq in Hk. injection Hk as <-.
        right. split; [reflexivity|]. exists 0%nat, line.
        split; [reflexivity|]. split; [exact Hn0|]. intros j ? ? Hj. lia.
      * assert (Hne : k <> k0).
        { intros ->. subst m1. destruct (m0 !! k0) eqn:E0; [congruence|].
          now rewrite lookup_insert_eq in Hk. }
        right. split; [now rewrite <- Hother|]. exists (S i), li.
        split; [exact Hi|]. split; [exact Hni|].
        intros [|j] line' n Hj Hl' Hn'.
        -- injection Hl' as <-.
           destruct (names_functional _ _ _ _ _ Hn0 Hn'). congruence.
        -- apply (Hfirst j line' n); [lia|exact Hl'|exact Hn'].
    + intros [Hk|(Hk & [|i] & li & Hi & Hni & Hfirst)].
      * left. destruct (decide (k = k0)) as [->|Hne];
          [|now rewrite Hother].
        subst m1. now rewrite Hk.
      * injection Hi as <-.
        destruct (names_functional _ _ _ _ _ Hn0 Hni) as [<- <-].
        left. subst m1. rewrite Hk. apply lookup_insert_eq.
      * assert (Hne : k <> k0).
        { intros ->. apply (Hfirst 0%nat line name0); [lia|reflexivity|].
          exact Hn0. }
        right. split; [now rewrite Hother|]. exists i, li.
        split; [exact Hi|]. split; [exact Hni|].
        intros j line' n Hj Hl'. apply (Hfirst (S j)); [lia|exact Hl'].
Qed.

Lemma parse_signals_spec lines m k name :
  parse_signals lines = Return m ->
  (m !! k = Some name
   <-> exists i line,
        lines !! i = Some line /\ names line k name
        /\ forall j line' n,
            (j < i)%nat -> lines !! j = Some line' -> ~ names line' k n).
Proof.
  intros H. rewrite (parse_fold lines ∅ m H k name), lookup_empty. split.
  - intros [?|[_ ?]]; [discriminate|assumption].
  - intros ?. right. auto.
Qed.

(** X28. In the signal list the first line that gives a number decides its
    name: [parse_signals] maps a number to the first field of the first
    line whose third field, read as a decimal, is that number; later lines
    with the same number change nothing. *)
Theorem first_name_wins (lines : list string) (m : gmap Z string) (k : Z)
    (name : string) :
  parse_signals lines = Return m ->
  (m !! k = Some name
   <-> exists i line,
        lines !! i = Some line /\ names line k name
        /\ forall j line' n,
            (j < i)%nat -> lines !! j = Some line' -> ~ names line' k n).
Proof. apply parse_signals_spec. Qed.

Lemma first_name_wins_witness :
  ({[ 7 := "FOO_REQ" ]} : gmap Z string) !! 7 = Some "FOO_REQ"
  <-> exists i line,
       ["FOO_REQ 0x7 7"; "BAR_CFM 0x7 7"] !! i = Some line
       /\ names line 7 "FOO_REQ"
       /\ forall j line' n,
           (j < i)%nat -> ["FOO_REQ 0x7 7"; "BAR_CFM 0x7 7"] !! j = Some line'
           -> ~ names line' 7 n.
Proof.
  apply (first_name_wins ["FOO_REQ 0x7 7"; "BAR_CFM 0x7 7"]).
  vm_compute. reflexivity.
Defined.

(** ** Filters of one token, and clearing twice *)

(** X29. A filter of a single token: without prefix it selects the ids of
    the universe that the token matches; with the prefix [-] it selects all
    the others and records the matched ones as excluded; with the prefix
    [~] it selects nothing at all, since the intersection is taken with the
    empty selection that a filter starts from when its first token is not
    a negation. *)
Theorem single_token_filter (re_compile : string -> option (string -> bool))
    (filter : string) (idset : gset Z) (idmap : gmap Z string)
    (m : Re.groups) (sel unsel : gset Z) :
  filter <> EmptyString ->
  Re.finditer regex filter = [m] ->
  filter_ids re_compile filter idset idmap = Return (sel, unsel) ->
  exists matcher,
    matcher_of re_compile idmap m = Return matcher
    /\ (sel, unsel)
       = if decide (m !! "ex" = Some "-")
         then (idset ∖ keep matcher idset, keep matcher idset)
         else if decide (m !! "ex" = Some "~") then (∅, ∅)
              else (keep matcher idset, ∅).
Proof.
  intros Hne Htok. unfold filter_ids.
  destruct (decide (filter = EmptyString)); [contradiction|].
  rewrite Htok. cbn [imap ofold]. intros H.
  apply obind_Return in H as (st & H & [= <-]).
  unfold filter_step in H. apply obind_Return in H as (matcher & Hm & H).
  exists matcher. split; [exact Hm|].
  destruct (decide (m !! "ex" = Some "-")) as [E|E].
  - destruct (decide (1%nat = 1%nat /\ m !! "ex" <> Some "-"))
      as [[_ Hx]|_] in H; [contradiction|].
    injection H as <-. f_equal. apply (left_id_L ∅ (∪)).
  - destruct (decide (1%nat = 1%nat /\ m !! "ex" <> Some "-"))
      as [_|Hx] in H; [|elim Hx; auto].
    destruct (decide (m !! "ex" = Some "~")); injection H as <-; f_equal;
      first [apply (left_id_L ∅ (∪))|unfold keep; apply filter_empty_L].
Qed.

Lemma single_token_filter_witness :
  filter_ids Lit.compile "~5" {[ 5; 300 ]} ∅ = Return (∅, ∅)
  /\ exists matcher,
      matcher_of Lit.compile ∅ {[ "ex" := "~"; "dec" := "5" ]} = Return matcher
      /\ matcher 5 = true.
Proof.
  assert (H : filter_ids Lit.compile "~5" {[ 5; 300 ]} ∅ = Return (∅, ∅))
    by (vm_compute; reflexivity).
  split; [exact H|].
  destruct (single_token_filter Lit.compile "~5" {[ 5; 300 ]} ∅
              {[ "ex" := "~"; "dec" := "5" ]} ∅ ∅)
    as (matcher & Hm & _).
  - discriminate.
  - vm_compute. reflexivity.
  - exact H.
  - exists matcher. split; [exact Hm|].
    vm_compute in Hm. injection Hm as <-. reflexivity.
Defined.

(** X30. Clearing a file that was cleared changes nothing: a second
    [clear_file] leaves every byte as the first one left it. *)
Theorem clear_file_twice (chunks : list (list byte)) (b0 b1 v0 v1 : byte)
    (e : endian) (v : Z) (rest : list byte) (fuel : nat) (path : string) :
  Forall junk chunks ->
  classify b0 b1 v0 v1 = (true, e, v) ->
  (length chunks < fuel)%nat ->
  let pre := concat chunks ++ SHIP ++ [b0; b1; v0; v1] in
  exists w1 w2,
    clear_file fuel path (open (pre ++ rest)) = Some (Return tt, w1)
    /\ clear_file fuel path (open (contents w1)) = Some (Return tt, w2)
    /\ contents w2 = contents w1
    /\ length (contents w2) = length (pre ++ rest).
Proof.
  intros Hj Hc Hfuel pre.
  pose proof (clear_file_cleared chunks b0 b1 v0 v1 e v rest fuel path
                Hj Hc Hfuel) as H1.
  pose proof (clear_file_cleared chunks b0 b1 v0 v1 e v
                (repeat x00 (length rest)) fuel path Hj Hc Hfuel) as H2.
  cbv zeta in H1, H2. fold pre in H1, H2.
  eexists _, _. split; [exact H1|]. cbn [contents].
  split; [exact H2|]. cbn [contents]. rewrite repeat_length.
  split; [reflexivity|]. now rewrite !length_app, repeat_length.
Qed.

Lemma clear_file_twice_witness :
  exists w1 w2,
    clear_file 1 "f" (open (le_header x02 ++ v2_record_at_5))
    = Some (Return tt, w1)
    /\ clear_file 1 "f" (open (contents w1)) = Some (Return tt, w2)
    /\ contents w2 = contents w1.
Proof.
  destruct (clear_file_twice [] xff xfe x02 x00 LE 2 v2_record_at_5 1 "f")
    as (w1 & w2 & H1 & H2 & H3 & _).
  - constructor.
  - reflexivity.
  - cbn. lia.
  - exists w1, w2. auto.
Defined.
